(** * Execution core of the code-flow canvas

    A shallow embedding of the three cooperating pieces of the execution
    core, each translated from its TypeScript source:

    - [CodeExecutor]      (utils/codeExecutor.ts): compiles and runs one script
      and classifies an output value for branching;
    - [FlowExecutor]      (utils/flowExecutor.ts): walks the graph along edges;
    - [QueueFlowExecutor] (utils/queueFlowExecutor.ts): derives a linear queue
      from the node ids and drives it end-to-end or one step at a time.

    The second half of the file embeds what stands around the core in the
    application:

    - [FlowSlice]         (store/flowSlice.ts): the store of the graph and of
      the progress of a run, with its reducers;
    - [FlowCanvas]        (components/FlowCanvas.tsx): mounting the canvas and
      adding a node with its edge;
    - [EdgeComponent]     (components/Edge.tsx): which edge is drawn, and
      which as active;
    - [ExecutionControls] (components/ExecutionControls.tsx): the handlers
      that run the queue from the panel and report to the store.

    Everything the code obtains from outside (the JavaScript engine that
    compiles and runs a script, the network, the wall clock, the callbacks the
    caller passes in) is an explicit oracle argument, so that every theorem
    quantifies over all behaviours of the environment. *)

From Stdlib Require Import String Ascii List ZArith NArith QArith Bool Lia.
From Stdlib Require Import DecimalString DecimalPos.
From Stdlib Require Import Sorted Permutation.
Import ListNotations.

Set Warnings "-register-all".

Local Open Scope list_scope.
Local Open Scope string_scope.

(* ===================================================================== *)
(** * JavaScript values as the code observes them *)
(* ===================================================================== *)

(** A JavaScript number.  A finite double is a rational; [Finite 0] stands
    for both zeros, which [===] does not tell apart. *)
Inductive JSNumber : Type :=
| NaN
| Infinity (negative : bool)
| Finite (q : Q).

(** Values of type [unknown], by their [typeof] class.  Arrays and plain
    objects are told apart because [Array.isArray] is. *)
Inductive JSValue : Type :=
| JUndefined
| JNull
| JBoolean (b : bool)
| JNumber (n : JSNumber)
| JString (s : string)
| JArray (items : list JSValue)
| JObject (props : list (string * JSValue))
| JFunction (name : string)
| JSymbol (description : string)
| JBigInt (z : Z).

(** A thrown value, by what a [catch] block that evaluates
    [error instanceof Error ? error.message : String(error)] can observe.
    [Unprintable raised] is a value that is not an [Error] and whose
    conversion by [String] raises [raised]; an object without prototype,
    as the literal [{__proto__: null}] makes one, is such a value, with
    [raised] the engine's [TypeError]. *)
Inductive Thrown : Type :=
| ErrorObject (message : string)
| Stringable (text : string)
| Unprintable (raised : Thrown).

(** [error instanceof Error ? error.message : String(error)]:
    [inl] is the message, [inr] the exception the expression itself raises. *)
Definition errorMessageOf (error : Thrown) : string + Thrown :=
  match error with
  | ErrorObject message => inl message
  | Stringable text => inl text
  | Unprintable raised => inr raised
  end.

(** The [TypeError] [String] raises for an object without prototype. *)
Definition cannotConvert : Thrown :=
  ErrorObject "Cannot convert object to primitive value".

(* ===================================================================== *)
(** * Number primitives used by the queue ordering *)
(* ===================================================================== *)

Module Number.

(** [n !== 0] *)
Definition nonZero (n : JSNumber) : bool :=
  match n with
  | NaN => true
  | Infinity _ => true
  | Finite q => negb (Qeq_bool q 0)
  end.

(** Round a natural number to the nearest double, ties to even;
    [None] when the result overflows to [Infinity]. *)
Definition roundToDouble (n : N) : option N :=
  if (n <? 2 ^ 53)%N then Some n
  else
    let shift := (N.log2 n - 52)%N in
    let q := N.shiftr n shift in
    let r := (n - N.shiftl q shift)%N in
    let half := N.shiftl 1 (shift - 1) in
    let q' := if (half <? r)%N || ((r =? half)%N && N.odd q)
              then (q + 1)%N else q in
    let v := N.shiftl q' shift in
    if (v <? 2 ^ 1024)%N then Some v else None.

Definition ofN (negative : bool) (n : N) : JSNumber :=
  match roundToDouble n with
  | Some v => Finite (inject_Z (if negative then - Z.of_N v else Z.of_N v))
  | None => Infinity negative
  end.

(** [a - b].  The difference of two finite doubles is kept exact: the
    rounded difference has the same sign and is zero in the same cases,
    and the comparator's caller looks at nothing else. *)
Definition sub (a b : JSNumber) : JSNumber :=
  match a, b with
  | NaN, _ => NaN
  | _, NaN => NaN
  | Infinity s, Infinity t => if Bool.eqb s t then NaN else Infinity s
  | Infinity s, Finite _ => Infinity s
  | Finite _, Infinity t => Infinity (negb t)
  | Finite x, Finite y => Finite (x - y)
  end.

(** [v > 0], false for [NaN] *)
Definition isPositive (v : JSNumber) : bool :=
  match v with
  | NaN => false
  | Infinity negative => negb negative
  | Finite q => (0 <? Qnum q)%Z
  end.

(** White space as [parseInt] skips it, within ASCII: tab, line feed,
    vertical tab, form feed, carriage return and space.  The language
    also skips U+00A0, U+FEFF and the other space and line separators
    of Unicode: a text that starts with one of them reads as [NaN] here
    where the code may read a number. *)
Definition isWhiteSpace (c : ascii) : bool :=
  let k := nat_of_ascii c in
  ((9 <=? k) && (k <=? 13))%nat || (k =? 32)%nat.

Fixpoint trimStart (s : string) : string :=
  match s with
  | String c rest => if isWhiteSpace c then trimStart rest else s
  | EmptyString => s
  end.

(** The value of a digit in the radices [parseInt] knows. *)
Definition digitValue (c : ascii) : option N :=
  let k := N_of_ascii c in
  if ((48 <=? k) && (k <=? 57))%N then Some (k - 48)%N
  else if ((97 <=? k) && (k <=? 122))%N then Some (k - 87)%N
  else if ((65 <=? k) && (k <=? 90))%N then Some (k - 55)%N
  else None.

(** The integer written by the longest prefix of [s] made of digits of
    [radix]; [acc] is [None] until one digit has been read. *)
Fixpoint digits (radix : N) (s : string) (acc : option N) : option N :=
  match s with
  | String c rest =>
      match digitValue c with
      | Some d =>
          if (d <? radix)%N
          then digits radix rest
                 (Some (radix * match acc with
                                  | Some a => a
                                  | None => 0
                                  end + d)%N)
          else acc
      | None => acc
      end
  | EmptyString => acc
  end.

(** [parseInt(s)] with no radix argument: leading white space is skipped,
    a sign is read, a [0x]/[0X] prefix selects radix 16, and the longest
    prefix of digits is converted; no digit at all is [NaN].
    (White space is the ASCII part of the language's definition.) *)
Definition parseInt (s : string) : JSNumber :=
  let s1 := trimStart s in
  let '(negative, s2) :=
    match s1 with
    | String "-"%char rest => (true, rest)
    | String "+"%char rest => (false, rest)
    | _ => (false, s1)
    end in
  let '(radix, s3) :=
    match s2 with
    | String "0"%char (String x rest) =>
        if (Ascii.eqb x "x" || Ascii.eqb x "X")%bool
        then (16%N, rest) else (10%N, s2)
    | _ => (10%N, s2)
    end in
  match digits radix s3 None with
  | None => NaN
  | Some n => ofN negative n
  end.

(** Decimal text of a natural number, as a template literal prints it. *)
Definition showNat (n : nat) : string :=
  NilZero.string_of_uint (Nat.to_uint n).

Definition showZ (z : Z) : string :=
  NilZero.string_of_int (Z.to_int z).

End Number.

(* ===================================================================== *)
(** * String and array primitives *)
(* ===================================================================== *)

Module Js.

(** [s.split(sep)] for a one-character separator: never empty. *)
Fixpoint split (sep : ascii) (s : string) : list string :=
  match s with
  | EmptyString => [EmptyString]
  | String c rest =>
      if Ascii.eqb c sep then EmptyString :: split sep rest
      else match split sep rest with
           | piece :: pieces => String c piece :: pieces
           | [] => [String c EmptyString]
           end
  end.

(** [x || fallback] on an optional string: [undefined] and the empty
    string are falsy. *)
Definition orElse (x : option string) (fallback : string) : string :=
  match x with
  | Some EmptyString => fallback
  | Some s => s
  | None => fallback
  end.

(** [c && x] for an object or [undefined] [x]: objects are truthy. *)
Definition andAlso {A : Type} (c : bool) (x : option A) : option A :=
  if c then x else None.

(** Truthiness of an optional string: [null], [undefined] and the empty
    string are falsy. *)
Definition truthy (x : option string) : bool :=
  match x with
  | Some EmptyString => false
  | Some _ => true
  | None => false
  end.

Section Sort.
Context {A : Type}.
Variable comparefn : A -> A -> JSNumber.

(** [SortCompare]: does [x] have to go after [y]?  A comparator result
    of [NaN] counts as [+0]. *)
Definition after (x y : A) : bool := Number.isPositive (comparefn x y).

Fixpoint insert (x : A) (sorted : list A) : list A :=
  match sorted with
  | [] => [x]
  | y :: rest => if after x y then y :: insert x rest else x :: y :: rest
  end.

(** [Array.prototype.sort(comparefn)]: the stable sort; an element moves
    behind another only when the comparator says so.  For a comparator
    that is not a consistent ordering the language leaves the result to
    the implementation; on two elements every implementation agrees
    with this one, on four or more an engine may place the elements
    otherwise when the comparator returns [NaN]. *)
Fixpoint sort (l : list A) : list A :=
  match l with
  | [] => []
  | x :: rest => insert x (sort rest)
  end.
End Sort.

(** [s.startsWith(p)] *)
Fixpoint startsWith (p s : string) : bool :=
  match p with
  | EmptyString => true
  | String a p' =>
      match s with
      | String b s' => Ascii.eqb a b && startsWith p' s'
      | EmptyString => false
      end
  end.

(** [array[i]] for an integer index: [undefined] out of range. *)
Definition at_ {A : Type} (l : list A) (i : Z) : option A :=
  if (i <? 0)%Z then None else nth_error l (Z.to_nat i).

End Js.

(* ===================================================================== *)
(** * store/flowSlice.ts: nodes and edges *)
(* ===================================================================== *)

Record NodeData : Type := {
  label : string;
  code : string
}.

Record CodeNode : Type := {
  id : string;
  data : NodeData
}.

Record Edge : Type := {
  edgeId : string;
  source : string;
  target : string
}.

(** [nodes.find((n) => n.id === nodeId)] *)
Definition findNode (nodes : list CodeNode) (nodeId : string)
  : option CodeNode :=
  find (fun n => String.eqb (id n) nodeId) nodes.

(* ===================================================================== *)
(** * utils/codeExecutor.ts *)
(* ===================================================================== *)

Module CodeExecutor.

Record ExecutionContext : Type := {
  input : option JSValue;
  variables : option JSValue
}.

Record ExecutionResult : Type := {
  success : bool;
  output : option JSValue;
  error : option string
}.

(** How an awaited call ends. *)
Inductive Completion : Type :=
| Returns (value : JSValue)
| Throws (thrown : Thrown).

(** The JavaScript engine.  [compile code] is [Some text] when
    [new Function(..., code)] raises, [text] being the raised error as the
    template literal prints it.  [invoke k code a b] is the outcome of
    awaiting the function [createSafeFunction] returns, called with [a]
    and [b]; that function is the compiled one, of fifteen parameters,
    with the thirteen values of [safeContext] bound in front, so [a] and
    [b] reach the compiled function as its last two parameters, [isNaN]
    and [isFinite], and the oracle stands for whatever the script makes
    of its parameters.  [k] counts the scripts the run has invoked
    before, so that a script may answer differently each time (clock,
    random numbers).  A script that never settles has no outcome and is
    outside the model. *)
Record Engine : Type := {
  compile : string -> option string;
  invoke : nat -> string -> JSValue -> JSValue -> Completion
}.

(** An absent property reads as [undefined]. *)
Definition read (field : option JSValue) : JSValue :=
  match field with
  | Some v => v
  | None => JUndefined
  end.

(** [createSafeFunction(code)]: the bound function, or the [Error] thrown
    by its [catch]. *)
Definition createSafeFunction (engine : Engine) (k : nat) (code : string)
  : (JSValue -> JSValue -> Completion) + Thrown :=
  match compile engine code with
  | None => inl (invoke engine k code)
  | Some text => inr (ErrorObject ("Code compilation error: " ++ text))
  end.

(** [executeCode(code, context)]: [inl] is the value the promise resolves
    to, [inr] the exception it rejects with. *)
Definition executeCode (engine : Engine) (k : nat) (code : string)
    (context : ExecutionContext) : ExecutionResult + Thrown :=
  let attempt : ExecutionResult + Thrown :=
    match createSafeFunction engine k code with
    | inr thrown => inr thrown
    | inl func =>
        match func (read (input context)) (read (variables context)) with
        | Returns result =>
            inl {| success := true; output := Some result; error := None |}
        | Throws thrown => inr thrown
        end
    end in
  match attempt with
  | inl result => inl result
  | inr thrown =>
      match errorMessageOf thrown with
      | inl message =>
          inl {| success := false; output := None; error := Some message |}
      | inr raised => inr raised
      end
  end.

Definition evaluateCondition (output : JSValue) : bool :=
  match output with
  | JBoolean b => b
  | JNumber n => Number.nonZero n
  | JString s => (0 <? String.length s)%nat
  | JArray items => (0 <? List.length items)%nat
  | JNull => false
  | JUndefined => false
  | _ => true
  end.

End CodeExecutor.

(* ===================================================================== *)
(** * utils/flowExecutor.ts *)
(* ===================================================================== *)

Module FlowExecutor.
Import CodeExecutor.

Record FlowExecutionResult : Type := {
  success : bool;
  executionPath : list string;
  finalOutput : option JSValue;
  error : option string
}.

Definition findStartNode (nodes : list CodeNode) (edges : list Edge)
  : option string :=
  let targetNodes := map target edges in
  let startNodes :=
    filter (fun n => negb (existsb (String.eqb (id n)) targetNodes)) nodes in
  match startNodes with
  | first :: _ => Some (id first)
  | [] => None
  end.

Definition findNextNode (currentNodeId : string) (edges : list Edge)
    (output : JSValue) : option string :=
  let outgoingEdges :=
    filter (fun e => String.eqb (source e) currentNodeId) edges in
  if (List.length outgoingEdges =? 0)%nat then None
  else if (List.length outgoingEdges =? 1)%nat
  then option_map target (nth_error outgoingEdges 0)
  else
    let condition := evaluateCondition output in
    match Js.andAlso condition (nth_error outgoingEdges 0) with
    | Some first => Some (target first)
    | None =>
        match Js.andAlso (negb condition) (nth_error outgoingEdges 1) with
        | Some second => Some (target second)
        | None => None
        end
    end.

(** [`${result.error}`] *)
Definition showError (e : option string) : string :=
  match e with
  | Some message => message
  | None => "undefined"
  end.

(** What the [catch] of [executeFlow] returns for a caught [error];
    [inr] when building the message raises in turn. *)
Definition caught (executionPath : list string) (error : Thrown)
  : FlowExecutionResult + Thrown :=
  match errorMessageOf error with
  | inl message =>
      inl {| success := false; executionPath := executionPath;
             finalOutput := None; error := Some message |}
  | inr raised => inr raised
  end.

(** The [while] loop of [executeFlow] together with the [return] and the
    [catch] around it.  [visited] is the [Set] as a list, [fuel] bounds
    the guard evaluations; [None] is a run cut short by the bound, which
    [executeFlow] never is (see [executeFlow_total]). *)
Fixpoint loop (engine : Engine) (nodes : list CodeNode) (edges : list Edge)
    (fuel : nat) (visited executionPath : list string)
    (currentNodeId : option string) (currentOutput : JSValue)
  : option (FlowExecutionResult + Thrown) :=
  match fuel with
  | O => None
  | S fuel' =>
      match currentNodeId with
      | Some current =>
          if Js.truthy currentNodeId
             && negb (existsb (String.eqb current) visited)
          then
            let visited := current :: visited in
            let executionPath := (executionPath ++ [current])%list in
            match findNode nodes current with
            | None =>
                Some (caught executionPath
                        (ErrorObject ("Node " ++ current ++ " not found")))
            | Some currentNode =>
                let context :=
                  {| input := Some currentOutput;
                     variables := Some (JObject []) |} in
                match executeCode engine (List.length executionPath - 1)
                        (code (data currentNode)) context with
                | inr rejected => Some (caught executionPath rejected)
                | inl result =>
                    if negb (CodeExecutor.success result)
                    then Some (caught executionPath
                                 (ErrorObject
                                    ("Node " ++ current
                                     ++ " execution failed: "
                                     ++ showError (CodeExecutor.error result))))
                    else
                      let currentOutput := read (CodeExecutor.output result) in
                      let nextNodeId :=
                        findNextNode current edges
                          (read (CodeExecutor.output result)) in
                      loop engine nodes edges fuel' visited executionPath
                        nextNodeId currentOutput
                end
            end
          else
            Some (inl {| success := true; executionPath := executionPath;
                         finalOutput := Some currentOutput; error := None |})
      | None =>
          Some (inl {| success := true; executionPath := executionPath;
                       finalOutput := Some currentOutput; error := None |})
      end
  end.

(** [startNodeId || this.findStartNode(nodes, edges)] *)
Definition startOf (nodes : list CodeNode) (edges : list Edge)
    (startNodeId : option string) : option string :=
  if Js.truthy startNodeId then startNodeId else findStartNode nodes edges.

(** Every pass through the loop body that does not end the run adds a new
    id of [nodes] to [visited], so [length nodes] passes and one more guard
    evaluation are all a run can take. *)
Definition executeFlowWith (fuel : nat) (engine : Engine)
    (nodes : list CodeNode) (edges : list Edge)
    (startNodeId : option string) : option (FlowExecutionResult + Thrown) :=
  let currentNodeId := startOf nodes edges startNodeId in
  if negb (Js.truthy currentNodeId)
  then Some (inl {| success := false; executionPath := [];
                    finalOutput := None;
                    error := Some "No start node found" |})
  else loop engine nodes edges fuel [] [] currentNodeId JNull.

Definition executeFlow (engine : Engine) (nodes : list CodeNode)
    (edges : list Edge) (startNodeId : option string)
  : option (FlowExecutionResult + Thrown) :=
  executeFlowWith (S (List.length nodes)) engine nodes edges startNodeId.

End FlowExecutor.

(* ===================================================================== *)
(** * utils/queueFlowExecutor.ts *)
(* ===================================================================== *)

Module QueueFlowExecutor.

Inductive LogType : Type := info | success_ | error_ | warning.

Record ExecutionLog : Type := {
  nodeId : string;
  nodeName : string;
  timestamp : string;
  type : LogType;
  message : string;
  logData : option JSValue
}.

Record NodeExecutionResult : Type := {
  success : bool;
  output : option JSValue;
  error : option string;
  resultLogs : list string
}.

Record QueueExecutionResult : Type := {
  runSuccess : bool;
  executionQueue : list string;
  completedNodes : list string;
  finalOutput : option JSValue;
  runError : option string;
  logs : list ExecutionLog
}.

(** ** The environment *)

(** One invocation of a callback of the caller. *)
Inductive Call : Type :=
| StartCall (nodeId : string)
| CompleteCall (nodeId : string) (result : NodeExecutionResult)
| LogCall (log : ExecutionLog).

(** The optional callbacks.  A callback sees the calls made before it (it
    may keep state) and either returns ([None]) or throws. *)
Record Callbacks : Type := {
  onNodeStart : option (list Call -> string -> option Thrown);
  onNodeComplete :
    option (list Call -> string -> NodeExecutionResult -> option Thrown);
  onLog : option (list Call -> ExecutionLog -> option Thrown)
}.

Record Endpoint : Type := {
  name : string;
  path : string;
  method : string;
  payload : option string      (* the [script] of the payload object *)
}.

(** The [RequestInit] handed to [fetch]; [body] is the payload that
    [JSON.stringify] serialises. *)
Record RequestInit : Type := {
  reqMethod : string;
  headers : option (list (string * string));
  body : option string
}.

(** What [fetch] followed by [response.json()] does: [fetch] rejects, or
    it resolves to a response whose body decodes or fails to decode.
    Both rejections are [Error] objects of the platform. *)
Inductive FetchOutcome : Type :=
| NetworkError (message : string)
| Response (ok : bool) (status : Z) (statusText : string)
           (json : JSValue + string).

(** The network and the wall clock.  [respond i url options] answers the
    request issued for queue position [i]; [clock t] is the text of the
    [t]-th reading of [new Date().toISOString()]. *)
Record Host : Type := {
  respond : Z -> string -> RequestInit -> FetchOutcome;
  clock : nat -> string
}.

(** ** Mutable state of a run *)

(** The locals of [executeFlow] that its closures update ([logs],
    [completedNodes], [finalOutput]), the history of callback calls and the
    number of clock readings.  [settled] lists the results [executeNode]
    returned to [executeFlow], oldest first; no definition reads it, the
    theorems use it to say what a run did. *)
Record State : Type := {
  stLogs : list ExecutionLog;
  stCompleted : list string;
  stFinalOutput : JSValue;
  settled : list (string * NodeExecutionResult);
  calls : list Call;
  time : nat
}.

(** A computation that updates the state and returns ([inl]) or throws
    ([inr]). *)
Definition M (A : Type) : Type := State -> State * (A + Thrown).

Definition ret {A : Type} (a : A) : M A := fun s => (s, inl a).

Definition throw {A : Type} (e : Thrown) : M A := fun s => (s, inr e).

Definition bind {A B : Type} (m : M A) (k : A -> M B) : M B :=
  fun s =>
    match m s with
    | (s', inl a) => k a s'
    | (s', inr e) => (s', inr e)
    end.

(** [try { m } catch (error) { handler error }] *)
Definition tryCatch {A : Type} (m : M A) (handler : Thrown -> M A) : M A :=
  fun s =>
    match m s with
    | (s', inl a) => (s', inl a)
    | (s', inr e) => handler e s'
    end.

Declare Scope run_scope.
Delimit Scope run_scope with run.
Notation "x <- m ;; k" := (bind m (fun x => k))
  (at level 61, m at next level, right associativity) : run_scope.
Notation "m ;; k" := (bind m (fun _ => k))
  (at level 61, right associativity) : run_scope.
Local Open Scope run_scope.

Definition update (f : State -> State) : M unit := fun s => (f s, inl tt).

Definition get : M State := fun s => (s, inl s).

(** [new Date().toISOString()] *)
Definition now (host : Host) : M string :=
  fun s =>
    ({| stLogs := stLogs s; stCompleted := stCompleted s;
        stFinalOutput := stFinalOutput s; settled := settled s;
        calls := calls s; time := S (time s) |},
     inl (clock host (time s))).

(** Calling a callback: the call joins the history, then the callback
    returns or throws. *)
Definition invoke (call : Call) (behaviour : list Call -> option Thrown)
  : M unit :=
  fun s =>
    let s' := {| stLogs := stLogs s; stCompleted := stCompleted s;
                 stFinalOutput := stFinalOutput s; settled := settled s;
                 calls := calls s ++ [call]; time := time s |} in
    match behaviour (calls s) with
    | None => (s', inl tt)
    | Some e => (s', inr e)
    end.

(** [if (callback) callback(...)] *)
Definition whenGiven {F : Type} (callback : option F) (call : Call)
    (apply : F -> list Call -> option Thrown) : M unit :=
  match callback with
  | Some f => invoke call (apply f)
  | None => ret tt
  end.

Definition pushLog (log : ExecutionLog) : M unit :=
  update (fun s =>
    {| stLogs := stLogs s ++ [log]; stCompleted := stCompleted s;
       stFinalOutput := stFinalOutput s; settled := settled s;
       calls := calls s; time := time s |}).

(** [finalOutput = result.output; completedNodes.push(nodeId)] *)
Definition complete (nodeId : string) (output : option JSValue) : M unit :=
  update (fun s =>
    {| stLogs := stLogs s; stCompleted := stCompleted s ++ [nodeId];
       stFinalOutput := CodeExecutor.read output; settled := settled s;
       calls := calls s; time := time s |}).

(** Bookkeeping for the theorems: [executeNode] returned [result]. *)
Definition settle (nodeId : string) (result : NodeExecutionResult) : M unit :=
  update (fun s =>
    {| stLogs := stLogs s; stCompleted := stCompleted s;
       stFinalOutput := stFinalOutput s;
       settled := settled s ++ [(nodeId, result)];
       calls := calls s; time := time s |}).

Definition AddLog : Type :=
  string -> string -> LogType -> string -> option JSValue -> M unit.

(** The closure [addLog] of [executeFlow]. *)
Definition addLog (host : Host) (callbacks : Callbacks) : AddLog :=
  fun nodeId nodeName type message data =>
    timestamp <- now host ;;
    let log := {| nodeId := nodeId; nodeName := nodeName;
                  timestamp := timestamp; type := type;
                  message := message; logData := data |} in
    pushLog log ;;
    whenGiven (onLog callbacks) (LogCall log) (fun f history => f history log).

(** ** Constants *)

Definition API_BASE_URL : string :=
  "https://python-executor-487010489347.us-central1.run.app".

Definition lf : string := String (ascii_of_nat 10) EmptyString.
Definition dq : string := String (ascii_of_nat 34) EmptyString.

Definition API_ENDPOINTS : list Endpoint :=
  [ {| name := "Health Check"; path := "/health"; method := "GET";
       payload := None |};
    {| name := "Basic Function Test"; path := "/execute"; method := "POST";
       payload := Some
         ("def main():" ++ lf ++ "    return {" ++ dq ++ "message" ++ dq
          ++ ": " ++ dq ++ "Hello from Cloud Run!" ++ dq ++ ", " ++ dq
          ++ "status" ++ dq ++ ": " ++ dq ++ "success" ++ dq ++ "}") |};
    {| name := "Library Test"; path := "/execute"; method := "POST";
       payload := Some
         ("import pandas as pd" ++ lf ++ "import numpy as np" ++ lf ++ lf
          ++ "def main():" ++ lf
          ++ "    arr = np.array([1, 2, 3, 4, 5])" ++ lf
          ++ "    df = pd.DataFrame({" ++ dq ++ "numbers" ++ dq ++ ": arr})"
          ++ lf ++ "    return {" ++ dq ++ "mean" ++ dq
          ++ ": float(np.mean(arr)), " ++ dq ++ "sum" ++ dq
          ++ ": int(np.sum(arr)), " ++ dq ++ "dataframe_shape" ++ dq
          ++ ": df.shape}") |};
    {| name := "Stdout Capture Test"; path := "/execute"; method := "POST";
       payload := Some
         ("def main():" ++ lf ++ "    print(" ++ dq ++ "Processing data..."
          ++ dq ++ ")" ++ lf ++ "    print(" ++ dq ++ "Calculation complete!"
          ++ dq ++ ")" ++ lf ++ "    return {" ++ dq ++ "result" ++ dq ++ ": "
          ++ dq ++ "success" ++ dq ++ ", " ++ dq ++ "value" ++ dq ++ ": 42}")
    |} ].

Definition ENTRY : string := "input-node".

(** ** createExecutionQueue *)

(** [parseInt(a.id.split('-')[1] || '0')] *)
Definition creationTime (node : CodeNode) : JSNumber :=
  Number.parseInt (Js.orElse (nth_error (Js.split "-" (id node)) 1) "0").

(** The comparator handed to [sort]: [timeA - timeB]. *)
Definition byCreationTime (a b : CodeNode) : JSNumber :=
  Number.sub (creationTime a) (creationTime b).

Definition createExecutionQueue (nodes : list CodeNode) : list string :=
  match findNode nodes ENTRY with
  | None => []
  | Some inputNode =>
      let connectedNodes :=
        filter (fun node => negb (String.eqb (id node) ENTRY)) nodes in
      let connectedNodes := Js.sort byCreationTime connectedNodes in
      id inputNode :: map id connectedNodes
  end.

(** ** executeNode *)

Definition initializedPayload (stamp : string) : JSValue :=
  JObject [("status", JString "initialized"); ("timestamp", JString stamp)].

(** The [RequestInit] built for an endpoint. *)
Definition requestFor (endpoint : Endpoint) : RequestInit :=
  {| reqMethod := method endpoint;
     headers := if String.eqb (method endpoint) "POST"
                then Some [("Content-Type", "application/json")]
                else None;
     body := if String.eqb (method endpoint) "POST"
             then payload endpoint else None |}.

(** [fetch], [response.json()] and the [response.ok] test: the decoded
    body, or the exception thrown on the way. *)
Definition call (host : Host) (nodeIndex : Z) (url : string)
    (options : RequestInit) : M JSValue :=
  match respond host nodeIndex url options with
  | NetworkError message => throw (ErrorObject message)
  | Response _ _ _ (inr message) => throw (ErrorObject message)
  | Response ok status statusText (inl data) =>
      if negb ok
      then throw (ErrorObject ("API request failed: " ++ Number.showZ status
                               ++ " " ++ statusText))
      else ret data
  end.

(** [executeNode(node, nodeIndex, addLog)].  The writes to the console
    leave no trace in the state and are left out. *)
Definition executeNode (host : Host) (node : CodeNode) (nodeIndex : Z)
    (addLog : AddLog) : M NodeExecutionResult :=
  if String.eqb (id node) ENTRY then
    addLog (id node) (label (data node)) info "Input node initialized" None ;;
    stamp <- now host ;;
    ret {| success := true;
           output := Some (initializedPayload stamp);
           error := None;
           resultLogs := ["Input node initialized"] |}
  else
    let apiIndex :=
      Z.rem (nodeIndex - 1) (Z.of_nat (List.length API_ENDPOINTS)) in
    match Js.at_ API_ENDPOINTS apiIndex with
    | None =>
        throw (ErrorObject
                 "Cannot read properties of undefined (reading 'name')")
    | Some endpoint =>
        addLog (id node) (label (data node)) info
          ("Using API endpoint: " ++ name endpoint) None ;;
        tryCatch
          (let url := API_BASE_URL ++ path endpoint in
           let options := requestFor endpoint in
           addLog (id node) (label (data node)) info
             ("Making " ++ method endpoint ++ " request to " ++ url) None ;;
           received <- call host nodeIndex url options ;;
           addLog (id node) (label (data node)) success_
             "API call successful" (Some received) ;;
           ret {| success := true;
                  output := Some received;
                  error := None;
                  resultLogs :=
                    ["API call to " ++ name endpoint ++ " successful"] |})
          (fun error =>
             match errorMessageOf error with
             | inr raised => throw raised
             | inl errorMessage =>
                 addLog (id node) (label (data node)) error_
                   ("API call failed: " ++ errorMessage) None ;;
                 ret {| success := false;
                        output := None;
                        error := Some errorMessage;
                        resultLogs :=
                          ["API call to " ++ name endpoint ++ " failed: "
                           ++ errorMessage] |}
             end)
    end.

(** ** executeFlow *)

(** The result the inner [catch] reports. *)
Definition failedResult (errorMessage : string) : NodeExecutionResult :=
  {| success := false; output := None; error := Some errorMessage;
     resultLogs := [] |}.

Definition notifyComplete (callbacks : Callbacks) (nodeId : string)
    (result : NodeExecutionResult) : M unit :=
  whenGiven (onNodeComplete callbacks) (CompleteCall nodeId result)
    (fun f history => f history nodeId result).

Definition notifyStart (callbacks : Callbacks) (nodeId : string) : M unit :=
  whenGiven (onNodeStart callbacks) (StartCall nodeId)
    (fun f history => f history nodeId).

(** The [try] block of one pass of the [for] loop.  The settling delay
    between nodes always elapses and changes nothing in the state. *)
Definition attempt (host : Host) (callbacks : Callbacks) (node : CodeNode)
    (i : nat) (nodeId : string) : M unit :=
  result <- executeNode host node (Z.of_nat i) (addLog host callbacks) ;;
  settle nodeId result ;;
  (if success result then
     complete nodeId (output result) ;;
     addLog host callbacks nodeId (label (data node)) success_
       "Node executed successfully" (output result)
   else
     addLog host callbacks nodeId (label (data node)) error_
       (Js.orElse (error result) "Execution failed") None) ;;
  notifyComplete callbacks nodeId result.

(** The [catch] block of one pass of the [for] loop. *)
Definition recover (host : Host) (callbacks : Callbacks) (node : CodeNode)
    (nodeId : string) (error : Thrown) : M unit :=
  match errorMessageOf error with
  | inr raised => throw raised
  | inl errorMessage =>
      addLog host callbacks nodeId (label (data node)) error_
        ("Execution error: " ++ errorMessage) None ;;
      notifyComplete callbacks nodeId (failedResult errorMessage)
  end.

(** One pass of the [for] loop, for queue position [i]. *)
Definition iteration (host : Host) (callbacks : Callbacks)
    (nodes : list CodeNode) (i : nat) (nodeId : string) : M unit :=
  match findNode nodes nodeId with
  | None =>
      addLog host callbacks nodeId "Unknown" error_
        "Node not found in workflow" None
  | Some node =>
      addLog host callbacks nodeId (label (data node)) info
        ("Executing node: " ++ label (data node)) None ;;
      notifyStart callbacks nodeId ;;
      tryCatch (attempt host callbacks node i nodeId)
               (recover host callbacks node nodeId)
  end.

(** [for (let i = ...; i < executionQueue.length; i++)] from position [i],
    [rest] being the queue from there on. *)
Fixpoint forLoop (host : Host) (callbacks : Callbacks)
    (nodes : list CodeNode) (i : nat) (rest : list string) : M unit :=
  match rest with
  | [] => ret tt
  | nodeId :: rest' =>
      iteration host callbacks nodes i nodeId ;;
      forLoop host callbacks nodes (S i) rest'
  end.

(** The state in which the locals of [executeFlow] are freshly declared. *)
Definition fresh (s : State) : State :=
  {| stLogs := []; stCompleted := []; stFinalOutput := JNull;
     settled := []; calls := calls s; time := time s |}.

(** The outer [try] block: the loop, the closing record, the result. *)
Definition wholeQueue (host : Host) (callbacks : Callbacks)
    (nodes : list CodeNode) (executionQueue : list string)
  : M QueueExecutionResult :=
  forLoop host callbacks nodes 0 executionQueue ;;
  addLog host callbacks "system" "System" success_
    "Workflow execution completed successfully" None ;;
  s <- get ;;
  ret {| runSuccess := true;
         executionQueue := executionQueue;
         completedNodes := stCompleted s;
         finalOutput := Some (stFinalOutput s);
         runError := None;
         logs := stLogs s |}.

(** The outer [catch] block. *)
Definition abandon (host : Host) (callbacks : Callbacks)
    (executionQueue : list string) (error : Thrown)
  : M QueueExecutionResult :=
  match errorMessageOf error with
  | inr raised => throw raised
  | inl errorMessage =>
      addLog host callbacks "system" "System" error_
        ("Workflow execution failed: " ++ errorMessage) None ;;
      s <- get ;;
      ret {| runSuccess := false;
             executionQueue := executionQueue;
             completedNodes := stCompleted s;
             finalOutput := None;
             runError := Some errorMessage;
             logs := stLogs s |}
  end.

(** The record that opens the run. *)
Definition announce (host : Host) (callbacks : Callbacks)
    (executionQueue : list string) : M unit :=
  addLog host callbacks "system" "System" info
    ("Starting workflow execution with "
     ++ Number.showNat (List.length executionQueue) ++ " nodes") None.

Definition executeFlow (host : Host) (nodes : list CodeNode)
    (edges : list Edge) (callbacks : Callbacks) : M QueueExecutionResult :=
  let executionQueue := createExecutionQueue nodes in
  update fresh ;;
  announce host callbacks executionQueue ;;
  tryCatch (wholeQueue host callbacks nodes executionQueue)
           (abandon host callbacks executionQueue).

(** ** executeNodeStepByStep *)

Record Step : Type := {
  result : NodeExecutionResult;
  hasNext : bool
}.

Definition executeNodeStepByStep (host : Host) (nodes : list CodeNode)
    (currentStep : Z) : M Step :=
  let executionQueue := createExecutionQueue nodes in
  if (Z.of_nat (List.length executionQueue) <=? currentStep)%Z then
    ret {| result := {| success := false; output := None;
                        error := Some "No more nodes to execute";
                        resultLogs := [] |};
           hasNext := false |}
  else
    let node :=
      match Js.at_ executionQueue currentStep with
      | Some nodeId => findNode nodes nodeId
      | None => None
      end in
    match node with
    | None =>
        ret {| result := {| success := false; output := None;
                            error := Some "Node not found";
                            resultLogs := [] |};
               hasNext :=
                 (currentStep + 1 <? Z.of_nat (List.length executionQueue))%Z |}
    | Some node =>
        result <- executeNode host node currentStep
                    (fun _ _ _ _ _ => ret tt) ;;
        ret {| result := result;
               hasNext :=
                 (currentStep + 1 <? Z.of_nat (List.length executionQueue))%Z |}
    end.

End QueueFlowExecutor.

(* ===================================================================== *)
(** * Sample inputs *)
(* ===================================================================== *)

Module Samples.

Definition node (nodeId text : string) : CodeNode :=
  {| id := nodeId; data := {| label := nodeId; code := text |} |}.

(** A node with an empty script. *)
Definition blank (nodeId : string) : CodeNode := node nodeId EmptyString.

Definition edge (from to : string) : Edge :=
  {| edgeId := "edge-" ++ from ++ "-" ++ to; source := from; target := to |}.

(** The behaviour of a JavaScript engine on the scripts used below.
    [createSafeFunction] binds the thirteen values of [safeContext] to the
    first thirteen of the fifteen parameters of the compiled function, so
    inside a script every name of the context stands for the value listed
    two places before it: [console] is [Date], [JSON] is [Object] and
    [Object] is [Number].
    [return (] does not parse; [throw {__proto__: null}] throws an object
    without prototype, whose conversion by [String] raises the engine's
    [TypeError]; [throw Object.create(null)] throws nothing of the kind:
    [Number.create] is no function, and the call raises a [TypeError],
    which is an [Error]; [throw new Error('boom')] throws an [Error];
    [return true], [return false] and [return 1] return these values.
    Every other script is taken to return [undefined], as the empty
    script does; no statement below runs one. *)
Definition engine : CodeExecutor.Engine :=
  {| CodeExecutor.compile := fun text =>
       if String.eqb text "return ("
       then Some "SyntaxError: Unexpected token '}'"
       else None;
     CodeExecutor.invoke := fun _ text _ _ =>
       if String.eqb text "throw {__proto__: null}"
       then CodeExecutor.Throws (Unprintable cannotConvert)
       else if String.eqb text "throw Object.create(null)"
       then CodeExecutor.Throws
              (ErrorObject "Object.create is not a function")
       else if String.eqb text "throw new Error('boom')"
       then CodeExecutor.Throws (ErrorObject "boom")
       else if String.eqb text "return true"
       then CodeExecutor.Returns (JBoolean true)
       else if String.eqb text "return false"
       then CodeExecutor.Returns (JBoolean false)
       else if String.eqb text "return 1"
       then CodeExecutor.Returns (JNumber (Finite 1))
       else CodeExecutor.Returns JUndefined |}.

Definition noContext : CodeExecutor.ExecutionContext :=
  {| CodeExecutor.input := None; CodeExecutor.variables := None |}.

(** A network on which the request of queue position 1 fails and every
    other request is answered with a JSON body, and a clock that counts
    its readings. *)
Definition host : QueueFlowExecutor.Host :=
  {| QueueFlowExecutor.respond := fun i _ _ =>
       if (i =? 1)%Z then QueueFlowExecutor.NetworkError "Failed to fetch"
       else QueueFlowExecutor.Response true 200 "OK"
              (inl (JObject [("status", JString "ok")]));
     QueueFlowExecutor.clock := fun t => "T" ++ Number.showNat t |}.

(** No callback given. *)
Definition silent : QueueFlowExecutor.Callbacks :=
  {| QueueFlowExecutor.onNodeStart := None;
     QueueFlowExecutor.onNodeComplete := None;
     QueueFlowExecutor.onLog := None |}.

(** An [onNodeComplete] that throws when handed a successful result. *)
Definition fragile : QueueFlowExecutor.Callbacks :=
  {| QueueFlowExecutor.onNodeStart := None;
     QueueFlowExecutor.onNodeComplete := Some (fun _ _ r =>
       if QueueFlowExecutor.success r
       then Some (ErrorObject "cannot render") else None);
     QueueFlowExecutor.onLog := None |}.

(** An [onNodeStart] that throws for one node. *)
Definition refusing : QueueFlowExecutor.Callbacks :=
  {| QueueFlowExecutor.onNodeStart := Some (fun _ nodeId =>
       if String.eqb nodeId "node-2000"
       then Some (ErrorObject "not now") else None);
     QueueFlowExecutor.onNodeComplete := None;
     QueueFlowExecutor.onLog := None |}.

(** An [onLog] that returns on the first record it is handed and throws
    on every later one. *)
Definition muted : QueueFlowExecutor.Callbacks :=
  {| QueueFlowExecutor.onNodeStart := None;
     QueueFlowExecutor.onNodeComplete := None;
     QueueFlowExecutor.onLog := Some (fun history _ =>
       if existsb (fun call => match call with
                               | QueueFlowExecutor.LogCall _ => true
                               | _ => false
                               end) history
       then Some (ErrorObject "logger down") else None) |}.

Definition start : QueueFlowExecutor.State :=
  {| QueueFlowExecutor.stLogs := []; QueueFlowExecutor.stCompleted := [];
     QueueFlowExecutor.stFinalOutput := JNull;
     QueueFlowExecutor.settled := []; QueueFlowExecutor.calls := [];
     QueueFlowExecutor.time := 0 |}.

(** The scenario of the specification. *)
Definition scenario : list CodeNode :=
  [blank "node-2000"; blank "input-node"; blank "node-1000"].

End Samples.

(* ===================================================================== *)
(** * Vocabulary of the statements *)
(* ===================================================================== *)

Section Vocabulary.
Import QueueFlowExecutor.
Local Open Scope list_scope.

(** A thrown value whose message the [catch] idiom can build. *)
Definition printable (e : Thrown) : Prop :=
  exists message, errorMessageOf e = inl message.

Section Order.
Context {A : Type}.
Variable comparefn : A -> A -> JSNumber.

(** [x] stands before [y] in a sorted result: the comparator does not
    send [x] after [y]. *)
Definition inOrder (x y : A) : Prop := Js.after comparefn x y = false.

End Order.

(** The key of the ordering as the specification words it: the numeric
    token of the id, and 0 for an id without a parseable token. *)
Definition tokenOrZero (node : CodeNode) : JSNumber :=
  match creationTime node with
  | NaN => Finite 0
  | token => token
  end.

(** [l] is in ascending order of [key]. *)
Definition ascendingBy {A : Type} (key : A -> JSNumber) (l : list A) : Prop :=
  StronglySorted
    (fun a b => Number.isPositive (Number.sub (key a) (key b)) = false) l.

(** The node has a creation time the comparator can order. *)
Definition timed (node : CodeNode) : Prop := creationTime node <> NaN.

Variable host : Host.
Variable callbacks : Callbacks.
Variable nodes : list CodeNode.

(** [onNodeStart], when given, never throws. *)
Definition quietStart (callbacks : Callbacks) : Prop :=
  forall f, onNodeStart callbacks = Some f ->
            forall history nodeId, f history nodeId = None.

(** [onNodeComplete], when given, never throws. *)
Definition quietComplete (callbacks : Callbacks) : Prop :=
  forall f, onNodeComplete callbacks = Some f ->
            forall history nodeId result, f history nodeId result = None.

(** [onLog], when given, never throws. *)
Definition quietLog (callbacks : Callbacks) : Prop :=
  forall f, onLog callbacks = Some f ->
            forall history log, f history log = None.

(** No callback ever throws. *)
Definition quiet (callbacks : Callbacks) : Prop :=
  quietStart callbacks /\ quietComplete callbacks /\ quietLog callbacks.

(** [onNodeComplete], when given, throws at most when it is handed a
    successful result, and then a value whose message can be built. *)
Definition carefulComplete (callbacks : Callbacks) : Prop :=
  forall f, onNodeComplete callbacks = Some f ->
            forall history nodeId result e,
              f history nodeId result = Some e ->
              success result = true /\ printable e.

(** The callbacks may throw, but only [onNodeComplete] and only so. *)
Definition tolerable (callbacks : Callbacks) : Prop :=
  quietStart callbacks /\ carefulComplete callbacks /\ quietLog callbacks.

(** The record [addLog] builds in state [s]. *)
Definition recordAt (s : State) (nodeId nodeName : string) (type : LogType)
    (message : string) (data : option JSValue) : ExecutionLog :=
  {| nodeId := nodeId; nodeName := nodeName;
     timestamp := clock host (time s); type := type;
     message := message; logData := data |}.

(** The calls a callback adds to the history when it is given. *)
Definition heard {F : Type} (callback : option F) (call : Call) : list Call :=
  match callback with
  | Some _ => [call]
  | None => []
  end.

(** The state after [addLog] returned. *)
Definition logged (s : State) (nodeId nodeName : string) (type : LogType)
    (message : string) (data : option JSValue) : State :=
  let log := recordAt s nodeId nodeName type message data in
  {| stLogs := stLogs s ++ [log]; stCompleted := stCompleted s;
     stFinalOutput := stFinalOutput s; settled := settled s;
     calls := calls s ++ heard (onLog callbacks) (LogCall log);
     time := S (time s) |}.

(** The state after a notification returned. *)
Definition told (s : State) (said : list Call) : State :=
  {| stLogs := stLogs s; stCompleted := stCompleted s;
     stFinalOutput := stFinalOutput s; settled := settled s;
     calls := calls s ++ said; time := time s |}.

(** What [onLog] does with [log] after the calls of [history]: it
    returns ([None]), as nothing is called when it is not given, or it
    throws. *)
Definition logAnswer (history : list Call) (log : ExecutionLog)
  : option Thrown :=
  match onLog callbacks with
  | Some f => f history log
  | None => None
  end.

(** The record the outer [catch] of [executeFlow] logs in state [s]. *)
Definition failureRecord (s : State) (errorMessage : string)
  : ExecutionLog :=
  recordAt s "system" "System" error_
    ("Workflow execution failed: " ++ errorMessage)%string None.

(** The state after the outer [catch] has logged its record, whether
    [onLog] returned or threw. *)
Definition failureLogged (s : State) (errorMessage : string) : State :=
  logged s "system" "System" error_
    ("Workflow execution failed: " ++ errorMessage)%string None.

(** The result the outer [catch] returns when the outer [try] block
    raised in state [s]: the nodes completed and the logs accumulated
    until then, followed by the failure record. *)
Definition abandoned (s : State) (errorMessage : string)
  : QueueExecutionResult :=
  {| runSuccess := false;
     executionQueue := createExecutionQueue nodes;
     completedNodes := stCompleted s;
     finalOutput := None;
     runError := Some errorMessage;
     logs := stLogs s ++ [failureRecord s errorMessage] |}.

(** The severities of the records one pass of the loop appends for a
    node whose execution returned a result with [success = ok]. *)
Definition passTypes (nodeId : string) (ok : bool) : list LogType :=
  if String.eqb nodeId ENTRY then [info; info; success_]
  else if ok then [info; info; info; success_; success_]
  else [info; info; info; error_; error_].

(** A start record: an [info] record that announces the execution of a
    node. *)
Definition isStart (l : ExecutionLog) : bool :=
  match type l with
  | info => Js.startsWith "Executing node: " (message l)
  | _ => false
  end.

(** A terminal record: one of severity [success] or [error]. *)
Definition terminalType (t : LogType) : bool :=
  match t with
  | success_ | error_ => true
  | _ => false
  end.

Definition isTerminal (l : ExecutionLog) : bool := terminalType (type l).

(** The records of one pass for [nodeId]: all carry the id, the first is
    the start record and the only one, and their severities are those of a
    pass. *)
Definition passOf (nodeId : string) (records : list ExecutionLog) : Prop :=
  Forall (fun l => QueueFlowExecutor.nodeId l = nodeId) records
  /\ (exists ok, map type records = passTypes nodeId ok)
  /\ (exists first text,
        hd_error records = Some first
        /\ message first = ("Executing node: " ++ text)%string)
  /\ List.length (filter isStart records) = 1%nat.

(** The queue position [i] of the first id of [rest] is one at which
    [executeNode] finds an endpoint. *)
Definition placed (i : nat) (rest : list string) : Prop :=
  match rest with
  | [] => True
  | nodeId :: _ => nodeId = ENTRY \/ (1 <= i)%nat
  end.

(** The body the network answers with to the request issued for queue
    position [i], when that request succeeds. *)
Definition answer (i : nat) : option JSValue :=
  match Js.at_ API_ENDPOINTS
          (Z.rem (Z.of_nat i - 1) (Z.of_nat (List.length API_ENDPOINTS))) with
  | Some endpoint =>
      match respond host (Z.of_nat i) (API_BASE_URL ++ path endpoint)%string
              (requestFor endpoint) with
      | Response true _ _ (inl body) => Some body
      | _ => None
      end
  | None => None
  end.

Definition isSome {A : Type} (x : option A) : bool :=
  match x with
  | Some _ => true
  | None => false
  end.

(** The result [r] is the one the node at queue position [i] has when no
    callback throws: the entry node succeeds with the payload stamped
    [stamp], any other node succeeds exactly when its request does, with the
    body received as output. *)
Definition answers (stamp : string) (i : nat) (nodeId : string)
    (r : NodeExecutionResult) : Prop :=
  if String.eqb nodeId ENTRY
  then success r = true /\ output r = Some (initializedPayload stamp)
  else success r = isSome (answer i) /\ output r = answer i.

(** [results] are such results for the ids [rest], which stand at the
    queue positions [i], [i + 1], ... *)
Fixpoint agrees (i : nat) (rest : list string)
    (results : list (string * NodeExecutionResult)) : Prop :=
  match rest, results with
  | [], [] => True
  | nodeId :: rest', (nodeId', r) :: results' =>
      nodeId' = nodeId
      /\ (exists stamp, answers stamp i nodeId r)
      /\ agrees (S i) rest' results'
  | _, _ => False
  end.

(** The stamp of the payload of the first result, when the loop starts at
    clock reading [t]. *)
Definition headStamped (t i : nat) (rest : list string)
    (results : list (string * NodeExecutionResult)) : Prop :=
  match rest, results with
  | nodeId :: _, (_, r) :: _ => answers (clock host (t + 2)) i nodeId r
  | _, _ => True
  end.

(** The ids of [rest] whose node succeeds: the entry node, and the nodes
    whose request succeeds. *)
Fixpoint succeeding (i : nat) (rest : list string) : list string :=
  match rest with
  | [] => []
  | nodeId :: rest' =>
      if String.eqb nodeId ENTRY || isSome (answer i)
      then nodeId :: succeeding (S i) rest'
      else succeeding (S i) rest'
  end.

(** The last body received at the positions [i], [i + 1], ... of [rest],
    and [previous] when no request there succeeds. *)
Fixpoint lastAnswer (i : nat) (rest : list string) (previous : JSValue)
  : JSValue :=
  match rest with
  | [] => previous
  | _ :: rest' =>
      lastAnswer (S i) rest'
        match answer i with
        | Some body => body
        | None => previous
        end
  end.

(** The [finalOutput] of a run over [queue] that starts at clock reading
    [t]: the entry node stamps its payload with the fourth reading. *)
Definition expectedOutput (t : nat) (queue : list string) : JSValue :=
  match queue with
  | [] => JNull
  | _ :: rest => lastAnswer 1 rest (initializedPayload (clock host (t + 3)))
  end.

(** Every failed result [executeNode] returned so far has its error
    record in the logs and was passed to [onNodeComplete]. *)
Definition reported (s : State) : Prop :=
  forall nodeId r,
    In (nodeId, r) (settled s) -> success r = false ->
    (exists l, In l (stLogs s) /\ type l = error_
               /\ QueueFlowExecutor.nodeId l = nodeId
               /\ message l = Js.orElse (error r) "Execution failed")
    /\ (forall f, onNodeComplete callbacks = Some f ->
                  In (CompleteCall nodeId r) (calls s)).

(** The output of the last successful result of a list of results,
    [null] when there is none. *)
Definition lastOutput (results : list (string * NodeExecutionResult))
  : JSValue :=
  fold_left
    (fun acc entry =>
       if success (snd entry) then CodeExecutor.read (output (snd entry))
       else acc)
    results JNull.

Definition succeeded (entry : string * NodeExecutionResult) : bool :=
  success (snd entry).

(** [completedNodes] and [finalOutput] agree with the results that
    [executeNode] has returned. *)
Definition tallied (s : State) : Prop :=
  stCompleted s = map fst (filter succeeded (settled s))
  /\ stFinalOutput s = lastOutput (settled s).

(** The part of the state only [executeFlow] itself writes. *)
Definition kept (s s' : State) : Prop :=
  stCompleted s' = stCompleted s
  /\ stFinalOutput s' = stFinalOutput s
  /\ settled s' = settled s.

(** A computation that leaves that part alone, however it ends. *)
Definition frame {A : Type} (m : M A) : Prop :=
  forall s, kept s (fst (m s)).

(** [l1] is [l2] with some elements left out. *)
Inductive subsequence {A : Type} : list A -> list A -> Prop :=
| subsequence_nil : subsequence [] []
| subsequence_take (x : A) (l1 l2 : list A) :
    subsequence l1 l2 -> subsequence (x :: l1) (x :: l2)
| subsequence_skip (x : A) (l1 l2 : list A) :
    subsequence l1 l2 -> subsequence l1 (x :: l2).

(** One pass either leaves the tallies alone or settles one result for
    its node and tallies it. *)
Definition advanced (nodeId : string) (s s' : State) : Prop :=
  kept s s'
  \/ exists r,
       settled s' = settled s ++ [(nodeId, r)]
       /\ stCompleted s'
          = stCompleted s ++ (if success r then [nodeId] else [])
       /\ stFinalOutput s'
          = if success r then CodeExecutor.read (output r)
            else stFinalOutput s.


(** What a resolved promise carries: the queue, and the logs and
    [completedNodes] as they are when the run ends. *)
Definition carries (r : QueueExecutionResult) (s : State) : Prop :=
  executionQueue r = createExecutionQueue nodes
  /\ completedNodes r = stCompleted s
  /\ logs r = stLogs s.

End Vocabulary.

(* ===================================================================== *)
(** * store/flowSlice.ts: the store and its reducers *)
(* ===================================================================== *)

Module FlowSlice.

Record Position : Type := {
  x : JSNumber;
  y : JSNumber
}.

(** The [data] of a node.  [output] is [JUndefined] when the property is
    absent or holds [undefined]; no read in the program tells the two
    apart. *)
Record NodeData : Type := {
  label : string;
  code : string;
  output : JSValue;
  isExecuting : option bool;
  hasError : option bool;
  errorMessage : option string
}.

Record CodeNode : Type := {
  id : string;
  position : Position;
  data : NodeData
}.

Record Edge : Type := {
  edgeId : string;
  source : string;
  target : string;
  sourceHandle : option string;
  targetHandle : option string
}.

(** The state of the slice; [flowIsExecuting] is its [isExecuting]. *)
Record FlowState : Type := {
  nodes : list CodeNode;
  edges : list Edge;
  flowIsExecuting : bool;
  executionPath : list string;
  currentNodeId : option string;
  selectedNodeId : option string;
  draggingNodeId : option string
}.

Definition initialState : FlowState :=
  {| nodes := []; edges := []; flowIsExecuting := false;
     executionPath := []; currentNodeId := None; selectedNodeId := None;
     draggingNodeId := None |}.

(** ** Assignments to one property *)

Definition setNodes (value : list CodeNode) (state : FlowState) : FlowState :=
  {| nodes := value; edges := edges state;
     flowIsExecuting := flowIsExecuting state;
     executionPath := executionPath state;
     currentNodeId := currentNodeId state;
     selectedNodeId := selectedNodeId state;
     draggingNodeId := draggingNodeId state |}.

Definition setEdges (value : list Edge) (state : FlowState) : FlowState :=
  {| nodes := nodes state; edges := value;
     flowIsExecuting := flowIsExecuting state;
     executionPath := executionPath state;
     currentNodeId := currentNodeId state;
     selectedNodeId := selectedNodeId state;
     draggingNodeId := draggingNodeId state |}.

Definition setData (value : NodeData) (node : CodeNode) : CodeNode :=
  {| id := id node; position := position node; data := value |}.

(** [const node = state.nodes.find((n) => n.id === id);
     if (node) { ... }]: the first node with the id is changed where it
    stands, and nothing happens when there is none. *)
Fixpoint onFound (nodeId : string) (change : CodeNode -> CodeNode)
    (nodes : list CodeNode) : list CodeNode :=
  match nodes with
  | [] => []
  | node :: rest =>
      if String.eqb (id node) nodeId then change node :: rest
      else node :: onFound nodeId change rest
  end.

(** ** The reducers *)

Definition addNode (payload : CodeNode) (state : FlowState) : FlowState :=
  setNodes (nodes state ++ [payload]) state.

(** A [Partial<CodeNode>]: each key is absent or holds a value of its
    type. *)
Record Updates : Type := {
  idUpdate : option string;
  positionUpdate : option Position;
  dataUpdate : option NodeData
}.

(** [Object.assign(node, updates)] *)
Definition assign (node : CodeNode) (updates : Updates) : CodeNode :=
  {| id := match idUpdate updates with
           | Some value => value
           | None => id node
           end;
     position := match positionUpdate updates with
                 | Some value => value
                 | None => position node
                 end;
     data := match dataUpdate updates with
             | Some value => value
             | None => data node
             end |}.

Definition updateNode (nodeId : string) (updates : Updates)
    (state : FlowState) : FlowState :=
  setNodes (onFound nodeId (fun node => assign node updates) (nodes state))
    state.

Definition removeNode (payload : string) (state : FlowState) : FlowState :=
  let state :=
    setNodes (filter (fun n => negb (String.eqb (id n) payload))
                (nodes state)) state in
  setEdges (filter (fun e => negb (String.eqb (source e) payload)
                             && negb (String.eqb (target e) payload))
              (edges state)) state.

Definition addEdge (payload : Edge) (state : FlowState) : FlowState :=
  setEdges (edges state ++ [payload]) state.

Definition removeEdge (payload : string) (state : FlowState) : FlowState :=
  setEdges (filter (fun e => negb (String.eqb (edgeId e) payload))
              (edges state)) state.

Definition updateNodeCode (nodeId text : string) (state : FlowState)
  : FlowState :=
  setNodes
    (onFound nodeId
       (fun node =>
          setData {| label := label (data node); code := text;
                     output := output (data node);
                     isExecuting := isExecuting (data node);
                     hasError := hasError (data node);
                     errorMessage := errorMessage (data node) |} node)
       (nodes state)) state.

Definition updateNodeLabel (nodeId text : string) (state : FlowState)
  : FlowState :=
  setNodes
    (onFound nodeId
       (fun node =>
          setData {| label := text; code := code (data node);
                     output := output (data node);
                     isExecuting := isExecuting (data node);
                     hasError := hasError (data node);
                     errorMessage := errorMessage (data node) |} node)
       (nodes state)) state.

Definition setNodeOutput (nodeId : string) (value : JSValue)
    (state : FlowState) : FlowState :=
  setNodes
    (onFound nodeId
       (fun node =>
          setData {| label := label (data node); code := code (data node);
                     output := value;
                     isExecuting := isExecuting (data node);
                     hasError := Some false;
                     errorMessage := None |} node)
       (nodes state)) state.

Definition setNodeError (nodeId error : string) (state : FlowState)
  : FlowState :=
  setNodes
    (onFound nodeId
       (fun node =>
          setData {| label := label (data node); code := code (data node);
                     output := JUndefined;
                     isExecuting := isExecuting (data node);
                     hasError := Some true;
                     errorMessage := Some error |} node)
       (nodes state)) state.

Definition setNodeExecuting (nodeId : string) (value : bool)
    (state : FlowState) : FlowState :=
  setNodes
    (onFound nodeId
       (fun node =>
          setData {| label := label (data node); code := code (data node);
                     output := output (data node);
                     isExecuting := Some value;
                     hasError := hasError (data node);
                     errorMessage := errorMessage (data node) |} node)
       (nodes state)) state.

Definition setExecuting (payload : bool) (state : FlowState) : FlowState :=
  {| nodes := nodes state; edges := edges state;
     flowIsExecuting := payload;
     executionPath := executionPath state;
     currentNodeId := currentNodeId state;
     selectedNodeId := selectedNodeId state;
     draggingNodeId := draggingNodeId state |}.

Definition setExecutionPath (payload : list string) (state : FlowState)
  : FlowState :=
  {| nodes := nodes state; edges := edges state;
     flowIsExecuting := flowIsExecuting state;
     executionPath := payload;
     currentNodeId := currentNodeId state;
     selectedNodeId := selectedNodeId state;
     draggingNodeId := draggingNodeId state |}.

Definition setCurrentNodeId (payload : option string) (state : FlowState)
  : FlowState :=
  {| nodes := nodes state; edges := edges state;
     flowIsExecuting := flowIsExecuting state;
     executionPath := executionPath state;
     currentNodeId := payload;
     selectedNodeId := selectedNodeId state;
     draggingNodeId := draggingNodeId state |}.

Definition setSelectedNodeId (payload : option string) (state : FlowState)
  : FlowState :=
  {| nodes := nodes state; edges := edges state;
     flowIsExecuting := flowIsExecuting state;
     executionPath := executionPath state;
     currentNodeId := currentNodeId state;
     selectedNodeId := payload;
     draggingNodeId := draggingNodeId state |}.

Definition setDraggingNodeId (payload : option string) (state : FlowState)
  : FlowState :=
  {| nodes := nodes state; edges := edges state;
     flowIsExecuting := flowIsExecuting state;
     executionPath := executionPath state;
     currentNodeId := currentNodeId state;
     selectedNodeId := selectedNodeId state;
     draggingNodeId := payload |}.

(** What [clearExecutionState] does to every node. *)
Definition cleared (node : CodeNode) : CodeNode :=
  setData {| label := label (data node); code := code (data node);
             output := JUndefined;
             isExecuting := Some false;
             hasError := Some false;
             errorMessage := None |} node.

Definition clearExecutionState (state : FlowState) : FlowState :=
  {| nodes := map cleared (nodes state); edges := edges state;
     flowIsExecuting := false;
     executionPath := [];
     currentNodeId := None;
     selectedNodeId := selectedNodeId state;
     draggingNodeId := draggingNodeId state |}.

(** ** The actions of the slice and its reducer *)

Inductive Action : Type :=
| AddNode (payload : CodeNode)
| UpdateNode (nodeId : string) (updates : Updates)
| RemoveNode (payload : string)
| AddEdge (payload : Edge)
| RemoveEdge (payload : string)
| UpdateNodeCode (nodeId text : string)
| UpdateNodeLabel (nodeId text : string)
| SetNodeOutput (nodeId : string) (value : JSValue)
| SetNodeError (nodeId error : string)
| SetNodeExecuting (nodeId : string) (value : bool)
| SetExecuting (payload : bool)
| SetExecutionPath (payload : list string)
| SetCurrentNodeId (payload : option string)
| SetSelectedNodeId (payload : option string)
| SetDraggingNodeId (payload : option string)
| ClearExecutionState.

(** [flowSlice.reducer] *)
Definition reducer (state : FlowState) (action : Action) : FlowState :=
  match action with
  | AddNode payload => addNode payload state
  | UpdateNode nodeId updates => updateNode nodeId updates state
  | RemoveNode payload => removeNode payload state
  | AddEdge payload => addEdge payload state
  | RemoveEdge payload => removeEdge payload state
  | UpdateNodeCode nodeId text => updateNodeCode nodeId text state
  | UpdateNodeLabel nodeId text => updateNodeLabel nodeId text state
  | SetNodeOutput nodeId value => setNodeOutput nodeId value state
  | SetNodeError nodeId error => setNodeError nodeId error state
  | SetNodeExecuting nodeId value => setNodeExecuting nodeId value state
  | SetExecuting payload => setExecuting payload state
  | SetExecutionPath payload => setExecutionPath payload state
  | SetCurrentNodeId payload => setCurrentNodeId payload state
  | SetSelectedNodeId payload => setSelectedNodeId payload state
  | SetDraggingNodeId payload => setDraggingNodeId payload state
  | ClearExecutionState => clearExecutionState state
  end.

(** The store after a sequence of dispatched actions. *)
Definition dispatchAll (actions : list Action) (state : FlowState)
  : FlowState :=
  fold_left reducer actions state.

End FlowSlice.

(** What the executors read of a node of the store: its id, its label and
    its script. *)
Definition nodeView (node : FlowSlice.CodeNode) : CodeNode :=
  {| id := FlowSlice.id node;
     data := {| label := FlowSlice.label (FlowSlice.data node);
                code := FlowSlice.code (FlowSlice.data node) |} |}.

(** What the executors read of an edge of the store. *)
Definition edgeView (edge : FlowSlice.Edge) : Edge :=
  {| edgeId := FlowSlice.edgeId edge;
     source := FlowSlice.source edge;
     target := FlowSlice.target edge |}.

(* ===================================================================== *)
(** * components/FlowCanvas.tsx: building the graph *)
(* ===================================================================== *)

Module FlowCanvas.

Definition lf : string := QueueFlowExecutor.lf.
Definition dq : string := QueueFlowExecutor.dq.

(** A backslash, and the escaped quote of a string literal. *)
Definition bs : string := String (ascii_of_nat 92) EmptyString.
Definition esc : string := bs ++ dq.

(** A node template: the label and the script of a new node. *)
Record Template : Type := {
  name : string;
  code : string
}.

(** The part the three [/execute] templates share: the payload with its
    [script] literal, and the request. *)
Definition executeCall (title payloadText : string) : string :=
  "const payload = {" ++ lf
  ++ "  script: " ++ dq ++ payloadText ++ dq ++ lf
  ++ "};" ++ lf ++ lf
  ++ "fetch('https://python-executor-487010489347.us-central1.run.app/execute', {"
  ++ lf
  ++ "  method: 'POST'," ++ lf
  ++ "  headers: { 'Content-Type': 'application/json' }," ++ lf
  ++ "  body: JSON.stringify(payload)" ++ lf
  ++ "})" ++ lf
  ++ "  .then(response => response.json())" ++ lf
  ++ "  .then(data => console.log('" ++ title ++ ":', data))" ++ lf
  ++ "  .catch(error => console.error('Error:', error));" ++ lf.

Definition API_ENDPOINTS : list Template :=
  [ {| name := "Health Check";
       code :=
         "// Health Check Endpoint" ++ lf
         ++ "fetch('https://python-executor-487010489347.us-central1.run.app/health')"
         ++ lf
         ++ "  .then(response => response.json())" ++ lf
         ++ "  .then(data => console.log('Health Check:', data))" ++ lf
         ++ "  .catch(error => console.error('Error:', error));" ++ lf
         ++ "return " ++ dq ++ "Health check initiated" ++ dq ++ ";" |};
    {| name := "Basic Function Test";
       code :=
         "// Basic Function Test" ++ lf
         ++ executeCall "Basic Function"
              ("def main():" ++ bs ++ "n    return {" ++ esc ++ "message"
               ++ esc ++ ": " ++ esc ++ "Hello from Cloud Run!" ++ esc
               ++ ", " ++ esc ++ "status" ++ esc ++ ": " ++ esc ++ "success"
               ++ esc ++ "}")
         ++ "return " ++ dq ++ "Basic function test initiated" ++ dq ++ ";" |};
    {| name := "Library Test";
       code :=
         "// Library Test (pandas/numpy)" ++ lf
         ++ executeCall "Library Test"
              ("import pandas as pd" ++ bs ++ "nimport numpy as np" ++ bs
               ++ "n" ++ bs ++ "ndef main():" ++ bs
               ++ "n    arr = np.array([1, 2, 3, 4, 5])" ++ bs
               ++ "n    df = pd.DataFrame({" ++ esc ++ "numbers" ++ esc
               ++ ": arr})" ++ bs ++ "n    return {" ++ esc ++ "mean" ++ esc
               ++ ": float(np.mean(arr)), " ++ esc ++ "sum" ++ esc
               ++ ": int(np.sum(arr)), " ++ esc ++ "dataframe_shape" ++ esc
               ++ ": df.shape}")
         ++ "return " ++ dq ++ "Library test initiated" ++ dq ++ ";" |};
    {| name := "Stdout Capture Test";
       code :=
         "// Stdout Capture Test" ++ lf
         ++ executeCall "Stdout Test"
              ("def main():" ++ bs ++ "n    print(" ++ esc
               ++ "Processing data..." ++ esc ++ ")" ++ bs ++ "n    print("
               ++ esc ++ "Calculation complete!" ++ esc ++ ")" ++ bs
               ++ "n    return {" ++ esc ++ "result" ++ esc ++ ": " ++ esc
               ++ "success" ++ esc ++ ", " ++ esc ++ "value" ++ esc
               ++ ": 42}")
         ++ "return " ++ dq ++ "Stdout capture test initiated" ++ dq ++ ";"
    |} ].

(** The node the canvas creates when it mounts. *)
Definition inputNode : FlowSlice.CodeNode :=
  {| FlowSlice.id := "input-node";
     FlowSlice.position := {| FlowSlice.x := Finite 400;
                              FlowSlice.y := Finite 100 |};
     FlowSlice.data :=
       {| FlowSlice.label := "Input Node";
          FlowSlice.code :=
            "// Input Node - Starting point" ++ lf
            ++ "console.log(" ++ dq ++ "Starting workflow execution..." ++ dq
            ++ ");" ++ lf
            ++ "return { status: " ++ dq ++ "initialized" ++ dq
            ++ ", timestamp: new Date().toISOString() };";
          FlowSlice.output := JUndefined;
          FlowSlice.isExecuting := None;
          FlowSlice.hasError := None;
          FlowSlice.errorMessage := None |} |}.

(** The effect that runs when the canvas mounts. *)
Definition mount (state : FlowSlice.FlowState) : FlowSlice.FlowState :=
  FlowSlice.addNode inputNode state.

Definition getNextEndpointIndex (nodes : list FlowSlice.CodeNode) : nat :=
  let nonInputNodes :=
    filter (fun node => negb (String.eqb (FlowSlice.id node) "input-node"))
      nodes in
  let nodeCount := List.length nonInputNodes in
  if (nodeCount =? 0)%nat then 0%nat
  else ((nodeCount - 1) mod 3 + 1)%nat.

(** [handleAddNode], for the [nodes] the canvas last rendered.  [created]
    and [linked] are the two readings of [Date.now()], [height] is the value
    of [300 + (Math.random() * 100 - 50)].  [inr] is the exception the
    handler throws when it reads [endpoint.name] of no endpoint. *)
Definition handleAddNode (nodes : list FlowSlice.CodeNode)
    (created linked : Z) (height : JSNumber) (state : FlowSlice.FlowState)
  : FlowSlice.FlowState + Thrown :=
  match find (fun node => String.eqb (FlowSlice.id node) "input-node")
          nodes with
  | None => inl state
  | Some _ =>
      match nth_error API_ENDPOINTS (getNextEndpointIndex nodes) with
      | None =>
          inr (ErrorObject
                 "Cannot read properties of undefined (reading 'name')")
      | Some endpoint =>
          let newNode :=
            {| FlowSlice.id := "node-" ++ Number.showZ created;
               FlowSlice.position :=
                 {| FlowSlice.x :=
                      Finite (inject_Z
                                (200 + Z.of_nat (List.length nodes) * 250));
                    FlowSlice.y := height |};
               FlowSlice.data :=
                 {| FlowSlice.label := name endpoint;
                    FlowSlice.code := code endpoint;
                    FlowSlice.output := JUndefined;
                    FlowSlice.isExecuting := None;
                    FlowSlice.hasError := None;
                    FlowSlice.errorMessage := None |} |} in
          let state := FlowSlice.addNode newNode state in
          let newEdge :=
            {| FlowSlice.edgeId := "edge-" ++ Number.showZ linked;
               FlowSlice.source := "input-node";
               FlowSlice.target := FlowSlice.id newNode;
               FlowSlice.sourceHandle := Some "bottom";
               FlowSlice.targetHandle := Some "top" |} in
          inl (FlowSlice.addEdge newEdge state)
      end
  end.

(** One click on the button: what the click reads from outside. *)
Record Click : Type := {
  created : Z;
  linked : Z;
  height : JSNumber
}.

(** A click on a canvas that has rendered the store as it is; the store
    stays as it is when the handler throws. *)
Definition click (state : FlowSlice.FlowState) (c : Click)
  : FlowSlice.FlowState :=
  match handleAddNode (FlowSlice.nodes state) (created c) (linked c)
          (height c) state with
  | inl state' => state'
  | inr _ => state
  end.

(** The store of a canvas that was mounted on the initial state and then
    clicked on, each click after the canvas rendered the last one. *)
Definition built (clicks : list Click) : FlowSlice.FlowState :=
  fold_left click clicks (mount FlowSlice.initialState).

End FlowCanvas.

(* ===================================================================== *)
(** * components/Edge.tsx: which edge is drawn as active *)
(* ===================================================================== *)

Module EdgeComponent.

(** [array.includes(x)] *)
Definition includes (l : list string) (x : string) : bool :=
  existsb (String.eqb x) l.

(** [array.indexOf(x)]: the first position of [x], or -1. *)
Fixpoint indexOf (l : list string) (x : string) : Z :=
  match l with
  | [] => (-1)%Z
  | y :: rest =>
      if String.eqb y x then 0%Z
      else let i := indexOf rest x in
           if (i <? 0)%Z then (-1)%Z else (i + 1)%Z
  end.

(** The component renders nothing when an end of the edge names no
    node. *)
Definition drawn (nodes : list FlowSlice.CodeNode) (edge : FlowSlice.Edge)
  : bool :=
  match find (fun n => String.eqb (FlowSlice.id n) (FlowSlice.source edge))
          nodes,
        find (fun n => String.eqb (FlowSlice.id n) (FlowSlice.target edge))
          nodes with
  | Some _, Some _ => true
  | _, _ => false
  end.

Definition isInExecutionPath (executionPath : list string)
    (edge : FlowSlice.Edge) : bool :=
  includes executionPath (FlowSlice.source edge)
  && includes executionPath (FlowSlice.target edge).

Definition isActive (executionPath : list string) (edge : FlowSlice.Edge)
  : bool :=
  isInExecutionPath executionPath edge
  && (indexOf executionPath (FlowSlice.source edge) + 1
      =? indexOf executionPath (FlowSlice.target edge))%Z.

(** The style of the curve the component draws: the colour and the width
    of its stroke and the fill of its arrow head. *)
Record Curve : Type := {
  stroke : string;
  strokeWidth : string;
  arrowFill : string
}.

(** The component [Edge], for the nodes and the execution path of the
    store: [null] when an end of the edge names no node, otherwise the
    curve, styled by [isActive].  The geometry of the curve is left
    out. *)
Definition render (nodes : list FlowSlice.CodeNode)
    (executionPath : list string) (edge : FlowSlice.Edge) : option Curve :=
  if drawn nodes edge then
    let active := isActive executionPath edge in
    Some {| stroke := if active then "#2196f3" else "#666";
            strokeWidth := if active then "3" else "2";
            arrowFill := if active then "#2196f3" else "#666" |}
  else None.

End EdgeComponent.

(* ===================================================================== *)
(** * components/ExecutionControls.tsx: running the graph from the panel *)
(* ===================================================================== *)

Module ExecutionControls.

(** The store together with the local state of the component. *)
Record Panel : Type := {
  store : FlowSlice.FlowState;
  logs : list QueueFlowExecutor.ExecutionLog;
  currentStep : Z
}.

Definition setStore (value : FlowSlice.FlowState) (panel : Panel) : Panel :=
  {| store := value; logs := logs panel; currentStep := currentStep panel |}.

(** [dispatch(action)] *)
Definition dispatch (action : FlowSlice.FlowState -> FlowSlice.FlowState)
    (panel : Panel) : Panel :=
  setStore (action (store panel)) panel.

Definition addLog (log : QueueFlowExecutor.ExecutionLog) (panel : Panel)
  : Panel :=
  {| store := store panel; logs := logs panel ++ [log];
     currentStep := currentStep panel |}.

Definition clearLogs (panel : Panel) : Panel :=
  {| store := store panel; logs := []; currentStep := currentStep panel |}.

Definition setCurrentStep (value : Z) (panel : Panel) : Panel :=
  {| store := store panel; logs := logs panel; currentStep := value |}.

Definition handleNodeStart (nodeId : string) (panel : Panel) : Panel :=
  dispatch (FlowSlice.setNodeExecuting nodeId true)
    (dispatch (FlowSlice.setCurrentNodeId (Some nodeId)) panel).

(** [handleNodeComplete] as the render that saw [executionPath] in the
    store created it. *)
Definition handleNodeComplete (executionPath : list string)
    (nodeId : string) (result : QueueFlowExecutor.NodeExecutionResult)
    (panel : Panel) : Panel :=
  let panel := dispatch (FlowSlice.setNodeExecuting nodeId false) panel in
  let panel :=
    if QueueFlowExecutor.success result
    then dispatch (FlowSlice.setNodeOutput nodeId
                     (CodeExecutor.read (QueueFlowExecutor.output result)))
           panel
    else dispatch (FlowSlice.setNodeError nodeId
                     (Js.orElse (QueueFlowExecutor.error result)
                        "Execution failed"))
           panel in
  dispatch (FlowSlice.setExecutionPath (executionPath ++ [nodeId])) panel.

(** The three callbacks as [executeFlow] sees them: each returns. *)
Definition callbacks : QueueFlowExecutor.Callbacks :=
  {| QueueFlowExecutor.onNodeStart := Some (fun _ _ => None);
     QueueFlowExecutor.onNodeComplete := Some (fun _ _ _ => None);
     QueueFlowExecutor.onLog := Some (fun _ _ => None) |}.

(** What one call of a callback does to the panel. *)
Definition deliver (executionPath : list string) (panel : Panel)
    (call : QueueFlowExecutor.Call) : Panel :=
  match call with
  | QueueFlowExecutor.StartCall nodeId => handleNodeStart nodeId panel
  | QueueFlowExecutor.CompleteCall nodeId result =>
      handleNodeComplete executionPath nodeId result panel
  | QueueFlowExecutor.LogCall log => addLog log panel
  end.

(** The record the handlers log when the executor rejects. *)
Definition failureLog (stamp text : string)
  : QueueFlowExecutor.ExecutionLog :=
  {| QueueFlowExecutor.nodeId := "system";
     QueueFlowExecutor.nodeName := "System";
     QueueFlowExecutor.timestamp := stamp;
     QueueFlowExecutor.type := QueueFlowExecutor.error_;
     QueueFlowExecutor.message := text;
     QueueFlowExecutor.logData := None |}.

(** A run state with no call made yet, whose clock has been read [t]
    times. *)
Definition idle (t : nat) : QueueFlowExecutor.State :=
  {| QueueFlowExecutor.stLogs := []; QueueFlowExecutor.stCompleted := [];
     QueueFlowExecutor.stFinalOutput := JNull;
     QueueFlowExecutor.settled := []; QueueFlowExecutor.calls := [];
     QueueFlowExecutor.time := t |}.

(** [handleExecuteFlow] as the render that saw the store [rendered]
    created it; [t] counts the clock readings made before.  The result is
    the panel when the handler is done and the number of clock readings
    then. *)
Definition handleExecuteFlow (host : QueueFlowExecutor.Host)
    (rendered : FlowSlice.FlowState) (t : nat) (panel : Panel)
  : Panel * nat :=
  if (List.length (FlowSlice.nodes rendered) =? 0)%nat then (panel, t)
  else
    let panel := dispatch FlowSlice.clearExecutionState panel in
    let panel := clearLogs panel in
    let panel := setCurrentStep 0 panel in
    let panel := dispatch (FlowSlice.setExecuting true) panel in
    let '(s, outcome) :=
      QueueFlowExecutor.executeFlow host
        (map nodeView (FlowSlice.nodes rendered))
        (map edgeView (FlowSlice.edges rendered)) callbacks (idle t) in
    let panel :=
      fold_left (deliver (FlowSlice.executionPath rendered))
        (QueueFlowExecutor.calls s) panel in
    let '(panel, t') :=
      match outcome with
      | inl result =>
          (if QueueFlowExecutor.runSuccess result
           then dispatch (FlowSlice.setCurrentNodeId None) panel
           else panel,
           QueueFlowExecutor.time s)
      | inr error =>
          match errorMessageOf error with
          | inl text =>
              (addLog (failureLog
                         (QueueFlowExecutor.clock host
                            (QueueFlowExecutor.time s))
                         ("Flow execution failed: " ++ text)) panel,
               S (QueueFlowExecutor.time s))
          | inr _ => (panel, QueueFlowExecutor.time s)
          end
      end in
    (dispatch (FlowSlice.setExecuting false) panel, t').

(** [handleStepExecution] as the render that saw the store [rendered]
    and the step [step] created it. *)
Definition handleStepExecution (host : QueueFlowExecutor.Host)
    (rendered : FlowSlice.FlowState) (step : Z) (t : nat) (panel : Panel)
  : Panel * nat :=
  if (List.length (FlowSlice.nodes rendered) =? 0)%nat then (panel, t)
  else
    let panel :=
      if negb (FlowSlice.flowIsExecuting rendered)
      then dispatch (FlowSlice.setExecuting true)
             (setCurrentStep 0
                (clearLogs (dispatch FlowSlice.clearExecutionState panel)))
      else panel in
    let nodes := map nodeView (FlowSlice.nodes rendered) in
    match QueueFlowExecutor.executeNodeStepByStep host nodes step (idle t)
    with
    | (s, inl answer) =>
        let executionQueue := QueueFlowExecutor.createExecutionQueue nodes in
        let currentNodeId := Js.at_ executionQueue step in
        let panel :=
          match currentNodeId with
          | Some nodeId =>
              if Js.truthy currentNodeId
              then handleNodeComplete (FlowSlice.executionPath rendered)
                     nodeId (QueueFlowExecutor.result answer)
                     (handleNodeStart nodeId panel)
              else panel
          | None => panel
          end in
        (if QueueFlowExecutor.hasNext answer
         then setCurrentStep (currentStep panel + 1) panel
         else setCurrentStep 0
                (dispatch (FlowSlice.setCurrentNodeId None)
                   (dispatch (FlowSlice.setExecuting false) panel)),
         QueueFlowExecutor.time s)
    | (s, inr error) =>
        match errorMessageOf error with
        | inl text =>
            (dispatch (FlowSlice.setExecuting false)
               (addLog (failureLog
                          (QueueFlowExecutor.clock host
                             (QueueFlowExecutor.time s))
                          ("Step execution failed: " ++ text)) panel),
             S (QueueFlowExecutor.time s))
        | inr _ => (panel, QueueFlowExecutor.time s)
        end
    end.

Definition handleReset (panel : Panel) : Panel :=
  setCurrentStep 0 (clearLogs (dispatch FlowSlice.clearExecutionState panel)).

(** A click on a panel that has rendered its state as it is. *)
Definition stepClick (host : QueueFlowExecutor.Host)
    (state : Panel * nat) : Panel * nat :=
  handleStepExecution host (store (fst state)) (currentStep (fst state))
    (snd state) (fst state).

End ExecutionControls.

(* ===================================================================== *)
(** * A canvas with two added nodes *)
(* ===================================================================== *)

Module Scenes.

Definition first : FlowCanvas.Click :=
  {| FlowCanvas.created := 1000; FlowCanvas.linked := 1001;
     FlowCanvas.height := Finite 300 |}.

Definition second : FlowCanvas.Click :=
  {| FlowCanvas.created := 2000; FlowCanvas.linked := 2000;
     FlowCanvas.height := Finite 320 |}.

(** The store after the canvas was mounted and clicked on twice. *)
Definition canvas : FlowSlice.FlowState := FlowCanvas.built [first; second].

(** The panel on that store, before any run. *)
Definition panel : ExecutionControls.Panel :=
  {| ExecutionControls.store := canvas; ExecutionControls.logs := [];
     ExecutionControls.currentStep := 0 |}.

(** A graph of two nodes and one edge, for the graph walk. *)
Definition pair : list CodeNode :=
  [Samples.node "a" "return 1"; Samples.node "b" "return true"].

Definition link : list Edge := [Samples.edge "a" "b"].

(** What the graph walk returns on it. *)
Definition walked : FlowExecutor.FlowExecutionResult :=
  {| FlowExecutor.success := true;
     FlowExecutor.executionPath := ["a"; "b"];
     FlowExecutor.finalOutput := Some (JBoolean true);
     FlowExecutor.error := None |}.

(** The same graph with a third node, whose script throws. *)
Definition chain : list CodeNode :=
  pair ++ [Samples.node "c" "throw new Error('boom')"].

Definition links : list Edge := link ++ [Samples.edge "b" "c"].

Definition stuck : FlowExecutor.FlowExecutionResult :=
  {| FlowExecutor.success := false;
     FlowExecutor.executionPath := ["a"; "b"; "c"];
     FlowExecutor.finalOutput := None;
     FlowExecutor.error := Some "Node c execution failed: boom" |}.

(** The two nodes on a cycle: each has an incoming edge. *)
Definition cycle : list Edge := [Samples.edge "a" "b"; Samples.edge "b" "a"].

(** The engine of [Samples] on the scripts of the canvas.  In a script
    [console] is [Date] and [JSON] is [Object] (see [Samples.engine]): the
    script of the input node fails at its first statement, the call of
    [console.log]; the three scripts that build a request fail at
    [JSON.stringify]; the health check calls neither before it returns
    its text. *)
Definition engine : CodeExecutor.Engine :=
  {| CodeExecutor.compile := CodeExecutor.compile Samples.engine;
     CodeExecutor.invoke := fun k text a b =>
       if String.eqb text (FlowSlice.code (FlowSlice.data FlowCanvas.inputNode))
       then CodeExecutor.Throws
              (ErrorObject "console.log is not a function")
       else if existsb (fun template =>
                          String.eqb text (FlowCanvas.code template))
                 (tl FlowCanvas.API_ENDPOINTS)
       then CodeExecutor.Throws
              (ErrorObject "JSON.stringify is not a function")
       else if existsb (fun template =>
                          String.eqb text (FlowCanvas.code template))
                 (firstn 1 FlowCanvas.API_ENDPOINTS)
       then CodeExecutor.Returns (JString "Health check initiated")
       else CodeExecutor.invoke Samples.engine k text a b |}.

(** What the graph walk returns on the canvas: the script of the input
    node fails, and the walk ends there. *)
Definition halted : FlowExecutor.FlowExecutionResult :=
  {| FlowExecutor.success := false;
     FlowExecutor.executionPath := ["input-node"];
     FlowExecutor.finalOutput := None;
     FlowExecutor.error :=
       Some "Node input-node execution failed: console.log is not a function"
  |}.

(** What the queue executor settles for the node at queue position 1 on
    the network of [Samples.host]. *)
Definition unreachable : QueueFlowExecutor.NodeExecutionResult :=
  {| QueueFlowExecutor.success := false;
     QueueFlowExecutor.output := None;
     QueueFlowExecutor.error := Some "Failed to fetch";
     QueueFlowExecutor.resultLogs :=
       ["API call to Health Check failed: Failed to fetch"] |}.

End Scenes.

(* ===================================================================== *)
(** * Vocabulary of the statements about the store and the components *)
(* ===================================================================== *)

Section StoreVocabulary.
Import FlowSlice.
Local Open Scope list_scope.

(** Every end of every edge names a node. *)
Definition closed (state : FlowState) : Prop :=
  forall e, In e (edges state) ->
            In (source e) (map id (nodes state))
            /\ In (target e) (map id (nodes state)).

(** An action that cannot leave an edge without its node: it adds no edge
    whose ends name no node, and renames no node. *)
Definition keepsEnds (state : FlowState) (action : Action) : Prop :=
  match action with
  | AddEdge e =>
      In (source e) (map id (nodes state))
      /\ In (target e) (map id (nodes state))
  | UpdateNode _ updates => idUpdate updates = None
  | _ => True
  end.

(** The node an action looks up by its id. *)
Definition addressee (action : Action) : option string :=
  match action with
  | UpdateNode nodeId _ => Some nodeId
  | UpdateNodeCode nodeId _ => Some nodeId
  | UpdateNodeLabel nodeId _ => Some nodeId
  | SetNodeOutput nodeId _ => Some nodeId
  | SetNodeError nodeId _ => Some nodeId
  | SetNodeExecuting nodeId _ => Some nodeId
  | _ => None
  end.

(** The actions that report the progress of a run. *)
Definition reportsProgress (action : Action) : bool :=
  match action with
  | SetNodeOutput _ _ | SetNodeError _ _ | SetNodeExecuting _ _
  | SetExecuting _ | SetExecutionPath _ | SetCurrentNodeId _
  | ClearExecutionState => true
  | _ => false
  end.

(** What the editor made of a node: all that no report of progress
    writes. *)
Definition design (node : CodeNode) : string * Position * string * string :=
  (id node, position node, label (data node), code (data node)).

(** A node does not show an output and an error at once, and shows an
    error message only with an error. *)
Definition coherentData (d : NodeData) : Prop :=
  (hasError d = Some true -> output d = JUndefined)
  /\ (hasError d <> Some true -> errorMessage d = None).

Definition coherent (node : CodeNode) : Prop := coherentData (data node).

(** An action that hands the store no node data that shows both. *)
Definition handsCoherent (action : Action) : Prop :=
  match action with
  | AddNode payload => coherent payload
  | UpdateNode _ updates =>
      forall d, dataUpdate updates = Some d -> coherentData d
  | _ => True
  end.

End StoreVocabulary.

Section FlowVocabulary.
Import CodeExecutor FlowExecutor.
Local Open Scope list_scope.

Variable engine : Engine.
Variable nodes : list CodeNode.
Variable edges : list Edge.

(** Some edge leads from [a] to [b]. *)
Definition linked (a b : string) : Prop :=
  exists e, In e edges /\ source e = a /\ target e = b.

(** Every id of [path] but the first is reached from the id before it
    along an edge. *)
Definition walk (path : list string) : Prop :=
  forall before a b after,
    path = before ++ a :: b :: after -> linked a b.

(** The context [executeFlow] builds for a node. *)
Definition contextOf (input : JSValue) : ExecutionContext :=
  {| input := Some input; variables := Some (JObject []) |}.

(** The output of the last node of [path] when the scripts of its nodes
    run one after the other, the first on [input] and each next one on
    the output of the one before; [k] scripts have run before.  The value
    is [undefined] when a node is missing or its script does not
    succeed. *)
Fixpoint relay (k : nat) (input : JSValue) (path : list string) : JSValue :=
  match path with
  | [] => input
  | current :: rest =>
      match findNode nodes current with
      | Some node =>
          match executeCode engine k (code (data node)) (contextOf input) with
          | inl result =>
              if CodeExecutor.success result
              then relay (S k) (read (CodeExecutor.output result)) rest
              else JUndefined
          | inr _ => JUndefined
          end
      | None => JUndefined
      end
  end.

(** The result of a run that ends without an error. *)
Definition finished (path : list string) (output : JSValue)
  : FlowExecutionResult :=
  {| success := true; executionPath := path;
     finalOutput := Some output; error := None |}.

(** The result of a run that finds no node to start at. *)
Definition noStart : FlowExecutionResult :=
  {| success := false; executionPath := []; finalOutput := None;
     error := Some "No start node found"%string |}.

(** Some edge ends at the node. *)
Definition hasIncoming (node : CodeNode) : Prop :=
  In (id node) (map target edges).

(** A failed result lays the failure on the last id of its path: the id
    names no node, or the script of the node it names failed or threw on
    some input, and the error says which. *)
Definition blamed (r : FlowExecutionResult) : Prop :=
  exists before c,
    executionPath r = before ++ [c]
    /\ finalOutput r = None
    /\ ((findNode nodes c = None
         /\ error r = Some ("Node " ++ c ++ " not found")%string)
        \/ exists node input,
             findNode nodes c = Some node
             /\ ((exists result text,
                     executeCode engine (List.length before)
                       (code (data node)) (contextOf input) = inl result
                     /\ CodeExecutor.success result = false
                     /\ CodeExecutor.error result = Some text
                     /\ error r
                        = Some ("Node " ++ c ++ " execution failed: "
                                ++ text)%string)
                 \/ (exists rejected text,
                       executeCode engine (List.length before)
                         (code (data node)) (contextOf input)
                       = inr rejected
                       /\ errorMessageOf rejected = inl text
                       /\ error r = Some text))).

End FlowVocabulary.

Section CanvasVocabulary.
Local Open Scope list_scope.

(** The id the canvas gives a node made at time [t]. *)
Definition idAt (t : Z) : string := ("node-" ++ Number.showZ t)%string.

(** A time value that [Date.now()] can return and a double holds
    exactly. *)
Definition timeValue (t : Z) : Prop := (0 <= t < 2 ^ 53)%Z.

(** The clicks were made at times that never go back. *)
Definition inTime (clicks : list FlowCanvas.Click) : Prop :=
  Forall timeValue (map FlowCanvas.created clicks)
  /\ StronglySorted Z.le (map FlowCanvas.created clicks).

(** The clicks were made at times that go forward. *)
Definition apart (clicks : list FlowCanvas.Click) : Prop :=
  Forall timeValue (map FlowCanvas.created clicks)
  /\ StronglySorted Z.lt (map FlowCanvas.created clicks).

(** The nodes of the store as the executors read them. *)
Definition nodesRead (state : FlowSlice.FlowState) : list CodeNode :=
  map nodeView (FlowSlice.nodes state).

Definition edgesRead (state : FlowSlice.FlowState) : list Edge :=
  map edgeView (FlowSlice.edges state).

(** The node a click adds to a canvas that shows [shown] nodes, made
    from [template]. *)
Definition nodeAdded (shown : nat) (template : FlowCanvas.Template)
    (c : FlowCanvas.Click) : FlowSlice.CodeNode :=
  {| FlowSlice.id := idAt (FlowCanvas.created c);
     FlowSlice.position :=
       {| FlowSlice.x := Finite (inject_Z (200 + Z.of_nat shown * 250));
          FlowSlice.y := FlowCanvas.height c |};
     FlowSlice.data :=
       {| FlowSlice.label := FlowCanvas.name template;
          FlowSlice.code := FlowCanvas.code template;
          FlowSlice.output := JUndefined;
          FlowSlice.isExecuting := None;
          FlowSlice.hasError := None;
          FlowSlice.errorMessage := None |} |}.

(** The edge a click adds with its node. *)
Definition edgeAdded (c : FlowCanvas.Click) : FlowSlice.Edge :=
  {| FlowSlice.edgeId := ("edge-" ++ Number.showZ (FlowCanvas.linked c))%string;
     FlowSlice.source := "input-node";
     FlowSlice.target := idAt (FlowCanvas.created c);
     FlowSlice.sourceHandle := Some "bottom"%string;
     FlowSlice.targetHandle := Some "top"%string |}.

End CanvasVocabulary.

Section CallVocabulary.
Import QueueFlowExecutor.
Local Open Scope list_scope.

(** The records handed to [onLog], in the order of the calls. *)
Definition logsOf (calls : list Call) : list ExecutionLog :=
  flat_map (fun call => match call with
                        | LogCall log => [log]
                        | _ => []
                        end) calls.

(** The calls of [onNodeStart] and [onNodeComplete], in their order. *)
Definition noticesOf (calls : list Call) : list Call :=
  filter (fun call => match call with
                      | LogCall _ => false
                      | _ => true
                      end) calls.

(** Is the optional callback given? *)
Definition given {F : Type} (callback : option F) : bool :=
  match callback with
  | Some _ => true
  | None => false
  end.

(** The calls of [onNodeStart] and [onNodeComplete] that go with a list
    of results: for each result its node is announced, then the result
    is handed over. *)
Definition noticesFor (callbacks : Callbacks)
    (results : list (string * NodeExecutionResult)) : list Call :=
  flat_map (fun entry =>
              heard (onNodeStart callbacks) (StartCall (fst entry))
              ++ heard (onNodeComplete callbacks)
                   (CompleteCall (fst entry) (snd entry)))
    results.

(** The result [executeNode] builds from what the network answered to
    the request for [endpoint]. *)
Definition resultOf (endpoint : Endpoint) (fetched : FetchOutcome)
  : NodeExecutionResult :=
  let failed errorMessage :=
    {| success := false; output := None; error := Some errorMessage;
       resultLogs := [("API call to " ++ name endpoint ++ " failed: "
                       ++ errorMessage)%string] |} in
  match fetched with
  | NetworkError text => failed text
  | Response _ _ _ (inr text) => failed text
  | Response false status statusText (inl _) =>
      failed ("API request failed: " ++ Number.showZ status ++ " "
              ++ statusText)%string
  | Response true _ _ (inl received) =>
      {| success := true; output := Some received; error := None;
         resultLogs := [("API call to " ++ name endpoint
                         ++ " successful")%string] |}
  end.

(** The result [executeNode] builds for a node other than the input
    node at queue position [i], from the answer of the network to the
    request of that position. *)
Definition resultAt (host : Host) (i : nat) : option NodeExecutionResult :=
  match Js.at_ API_ENDPOINTS
          (Z.rem (Z.of_nat i - 1) (Z.of_nat (List.length API_ENDPOINTS))) with
  | Some endpoint =>
      Some (resultOf endpoint
              (respond host (Z.of_nat i)
                 (API_BASE_URL ++ path endpoint)%string
                 (requestFor endpoint)))
  | None => None
  end.

(** The result [executeNode] builds for the input node when the clock
    reads [stamp]. *)
Definition initialized (stamp : string) : NodeExecutionResult :=
  {| success := true; output := Some (initializedPayload stamp);
     error := None; resultLogs := ["Input node initialized"%string] |}.

(** The result settled for a node is the one its queue position and the
    network give it; for the input node, some clock reading. *)
Definition settledAs (host : Host) (i : nat) (nodeId : string)
    (r : NodeExecutionResult) : Prop :=
  if String.eqb nodeId ENTRY then exists stamp, r = initialized stamp
  else resultAt host i = Some r.

(** [results] are the results of the queue positions [i], [i + 1], ... *)
Fixpoint settledFrom (host : Host) (i : nat)
    (results : list (string * NodeExecutionResult)) : Prop :=
  match results with
  | [] => True
  | (nodeId, r) :: rest =>
      settledAs host i nodeId r /\ settledFrom host (S i) rest
  end.

(** The addLog of [executeNodeStepByStep]: [() => {}]. *)
Definition noLog : AddLog := fun _ _ _ _ _ => ret tt.

(** The two results [executeNodeStepByStep] makes up itself. *)
Definition noMoreNodes : NodeExecutionResult :=
  {| success := false; output := None;
     error := Some "No more nodes to execute"%string; resultLogs := [] |}.

Definition nodeNotFound : NodeExecutionResult :=
  {| success := false; output := None;
     error := Some "Node not found"%string; resultLogs := [] |}.

End CallVocabulary.

Section PanelVocabulary.
Local Open Scope list_scope.

(** The node shows the result [r] and is not executing: a successful
    result by its output without an error, a failed one by its error
    message, or [Execution failed] when it has none, without an output. *)
Definition shows (r : QueueFlowExecutor.NodeExecutionResult)
    (d : FlowSlice.NodeData) : Prop :=
  FlowSlice.isExecuting d = Some false
  /\ if QueueFlowExecutor.success r
     then FlowSlice.output d = CodeExecutor.read (QueueFlowExecutor.output r)
          /\ FlowSlice.hasError d = Some false
          /\ FlowSlice.errorMessage d = None
     else FlowSlice.output d = JUndefined
          /\ FlowSlice.hasError d = Some true
          /\ FlowSlice.errorMessage d
             = Some (Js.orElse (QueueFlowExecutor.error r)
                       "Execution failed").

(** The first node of the store that has the id. *)
Definition nodeOf (state : FlowSlice.FlowState) (nodeId : string)
  : option FlowSlice.CodeNode :=
  find (fun n => String.eqb (FlowSlice.id n) nodeId) (FlowSlice.nodes state).

(** The queue of the store. *)
Definition queueOf (state : FlowSlice.FlowState) : list string :=
  QueueFlowExecutor.createExecutionQueue (nodesRead state).

(** What a node is after its start and its completion with [r] have been
    reported. *)
Definition finish (r : QueueFlowExecutor.NodeExecutionResult)
    (node : FlowSlice.CodeNode) : FlowSlice.CodeNode :=
  FlowSlice.setData
    {| FlowSlice.label := FlowSlice.label (FlowSlice.data node);
       FlowSlice.code := FlowSlice.code (FlowSlice.data node);
       FlowSlice.output :=
         if QueueFlowExecutor.success r
         then CodeExecutor.read (QueueFlowExecutor.output r)
         else JUndefined;
       FlowSlice.isExecuting := Some false;
       FlowSlice.hasError := Some (negb (QueueFlowExecutor.success r));
       FlowSlice.errorMessage :=
         if QueueFlowExecutor.success r then None
         else Some (Js.orElse (QueueFlowExecutor.error r)
                      "Execution failed") |} node.

(** The nodes after the starts and completions of [results] have been
    reported, one result after the other. *)
Definition finishAll
    (results : list (string * QueueFlowExecutor.NodeExecutionResult))
    (nodes : list FlowSlice.CodeNode) : list FlowSlice.CodeNode :=
  fold_left
    (fun l entry => FlowSlice.onFound (fst entry) (finish (snd entry)) l)
    results nodes.

(** A panel at rest: nothing executes, the path is empty and the cursor
    stands on the first queue entry. *)
Definition atRest (panel : ExecutionControls.Panel) : Prop :=
  FlowSlice.flowIsExecuting (ExecutionControls.store panel) = false
  /\ FlowSlice.executionPath (ExecutionControls.store panel) = []
  /\ ExecutionControls.currentStep panel = 0%Z.

(** The panel after [n] clicks on the step button. *)
Fixpoint stepClicks (host : QueueFlowExecutor.Host) (n : nat)
    (state : ExecutionControls.Panel * nat) : ExecutionControls.Panel * nat :=
  match n with
  | O => state
  | S n' => ExecutionControls.stepClick host (stepClicks host n' state)
  end.

End PanelVocabulary.

Section EdgeVocabulary.
Local Open Scope list_scope.

(** The curve of an active edge: blue, three wide. *)
Definition activeCurve : EdgeComponent.Curve :=
  {| EdgeComponent.stroke := "#2196f3";
     EdgeComponent.strokeWidth := "3";
     EdgeComponent.arrowFill := "#2196f3" |}.

(** Both ends of the edge name a node. *)
Definition bothEndsIn (nodes : list FlowSlice.CodeNode)
    (edge : FlowSlice.Edge) : Prop :=
  In (FlowSlice.source edge) (map FlowSlice.id nodes)
  /\ In (FlowSlice.target edge) (map FlowSlice.id nodes).

(** On the path, the first place of the target of the edge directly
    follows the first place of its source. *)
Definition followsOn (executionPath : list string) (edge : FlowSlice.Edge)
  : Prop :=
  exists before after,
    executionPath
    = before ++ FlowSlice.source edge :: FlowSlice.target edge :: after
    /\ ~ In (FlowSlice.source edge) before
    /\ ~ In (FlowSlice.target edge) before
    /\ FlowSlice.source edge <> FlowSlice.target edge.

End EdgeVocabulary.

(* ===================================================================== *)
(** * CodeExecutor: classification and the execution boundary *)
(* ===================================================================== *)

Section CodeExecutorFacts.
Import CodeExecutor.

Lemma nonZero_false (n : JSNumber) :
  Number.nonZero n = false <-> exists q, n = Finite q /\ (q == 0)%Q.
Proof.
  split.
  - destruct n as [| negative | q]; simpl; try discriminate.
    intros H. exists q. split; [reflexivity |].
    apply Qeq_bool_iff. now destruct (Qeq_bool q 0).
  - intros [q [-> Hq]]. simpl.
    apply Qeq_bool_iff in Hq. now rewrite Hq.
Qed.

Lemma length_pos_string (s : string) :
  (0 <? String.length s)%nat = negb (String.eqb s EmptyString).
Proof. destruct s; reflexivity. Qed.

(** When every value a script can throw is printable, [executeCode]
    resolves for every script and context, and maps both kinds of failure
    to a failed result. *)
Lemma executeCode_resolves (engine : Engine) (k : nat) (text : string)
    (context : ExecutionContext) :
  (forall input variables e,
      invoke engine k text input variables = Throws e -> printable e) ->
  exists result,
    executeCode engine k text context = inl result /\
    (compile engine text <> None -> success result = false) /\
    (forall e message,
        compile engine text = None ->
        invoke engine k text (read (input context))
          (read (variables context)) = Throws e ->
        errorMessageOf e = inl message ->
        success result = false /\ error result = Some message).
Proof.
  intros Hprintable. unfold executeCode, createSafeFunction.
  destruct (compile engine text) as [msg |] eqn:Hc.
  - simpl. eexists. split; [reflexivity |]. split; [reflexivity |].
    intros e m He. discriminate.
  - destruct (invoke engine k text (read (input context))
                (read (variables context))) as [v | e] eqn:Hi.
    + eexists. split; [reflexivity |]. split; [congruence |].
      intros e m _ He. discriminate.
    + destruct (Hprintable _ _ _ Hi) as [m Hm]. rewrite Hm.
      eexists. split; [reflexivity |]. split; [congruence |].
      intros e' m' _ He' Hm'. injection He' as <-.
      rewrite Hm in Hm'. injection Hm' as <-. now split.
Qed.

(** C5, at the failing input.  Whenever a script throws a value that is
    not an [Error] and that [String] cannot convert, the [catch] of
    [executeCode], which builds the message with [String], raises itself,
    and the promise returned by [executeCode] rejects instead of
    resolving to a failed result.  The script [throw {__proto__: null}]
    throws such a value, an object without prototype.  (The script
    [throw Object.create(null)] does not: inside a script [Object] is
    [Number], the call raises a [TypeError], and the promise resolves to
    a failed result.) *)
Theorem executeCode_lets_exception_escape :
  (forall (engine : Engine) (k : nat) (text : string)
          (context : ExecutionContext) (e raised : Thrown),
      compile engine text = None ->
      invoke engine k text (read (input context))
        (read (variables context)) = Throws e ->
      errorMessageOf e = inr raised ->
      executeCode engine k text context = inr raised)
  /\ executeCode Samples.engine 0 "throw {__proto__: null}"
       Samples.noContext
     = inr cannotConvert
  /\ (forall result,
        executeCode Samples.engine 0 "throw {__proto__: null}"
          Samples.noContext <> inl result)
  /\ executeCode Samples.engine 0 "throw Object.create(null)"
       Samples.noContext
     = inl {| success := false; output := None;
              error := Some "Object.create is not a function" |}.
Proof.
  split; [| split; [reflexivity | split; [| reflexivity]]].
  - intros engine k text context e raised Hcompile Hinvoke Hmessage.
    unfold executeCode, createSafeFunction.
    now rewrite Hcompile, Hinvoke, Hmessage.
  - intros result. cbv. discriminate.
Qed.

End CodeExecutorFacts.

(* ===================================================================== *)
(** * FlowExecutor: routing *)
(* ===================================================================== *)

Section Routing.
Import CodeExecutor FlowExecutor.

(** With two or more outgoing edges the first two decide, by the
    classification of the output. *)
Lemma findNextNode_branch (currentNodeId : string) (edges : list Edge)
    (output : JSValue) (first second : Edge) (others : list Edge) :
  filter (fun e => String.eqb (source e) currentNodeId) edges
  = first :: second :: others ->
  findNextNode currentNodeId edges output
  = Some (if evaluateCondition output then target first else target second).
Proof.
  intros H. unfold findNextNode. rewrite H. simpl.
  now destruct (evaluateCondition output).
Qed.

Lemma findNextNode_terminal (currentNodeId : string) (edges : list Edge)
    (output : JSValue) :
  filter (fun e => String.eqb (source e) currentNodeId) edges = [] ->
  findNextNode currentNodeId edges output = None.
Proof. intros H. unfold findNextNode. now rewrite H. Qed.

Lemma findNextNode_single (currentNodeId : string) (edges : list Edge)
    (output : JSValue) (only : Edge) :
  filter (fun e => String.eqb (source e) currentNodeId) edges = [only] ->
  findNextNode currentNodeId edges output = Some (target only).
Proof. intros H. unfold findNextNode. now rewrite H. Qed.

(** C3: a node with exactly two outgoing edges is left through the first
    edge when its output classifies as truthy and through the second when
    it classifies as falsy (so, when the two targets differ, through the
    first exactly when truthy); a boolean classifies as itself, a number as
    truthy iff it is not zero, a string and an array as truthy iff not
    empty, [null] and [undefined] as falsy and every other value as
    truthy. *)
Theorem two_edges_route_by_truthiness :
  (forall currentNodeId edges output first second,
      filter (fun e => String.eqb (source e) currentNodeId) edges
      = [first; second] ->
      findNextNode currentNodeId edges output
      = Some (if evaluateCondition output
              then target first else target second)
      /\ (target first <> target second ->
          (findNextNode currentNodeId edges output = Some (target first)
           <-> evaluateCondition output = true)))
  /\ (forall b, evaluateCondition (JBoolean b) = b)
  /\ (forall n, evaluateCondition (JNumber n) = false
                <-> exists q, n = Finite q /\ (q == 0)%Q)
  /\ (forall s, evaluateCondition (JString s) = true <-> s <> EmptyString)
  /\ (forall items, evaluateCondition (JArray items) = true <-> items <> [])
  /\ evaluateCondition JNull = false
  /\ evaluateCondition JUndefined = false
  /\ (forall props, evaluateCondition (JObject props) = true)
  /\ (forall name, evaluateCondition (JFunction name) = true)
  /\ (forall description, evaluateCondition (JSymbol description) = true)
  /\ (forall z, evaluateCondition (JBigInt z) = true)
  /\ evaluateCondition (JNumber (Finite 0)) = false
  /\ evaluateCondition (JString EmptyString) = false
  /\ evaluateCondition (JArray []) = false
  /\ evaluateCondition (JObject []) = true
  /\ evaluateCondition (JString "x") = true
  /\ evaluateCondition (JNumber (Finite 1)) = true
  /\ evaluateCondition (JBoolean true) = true.
Proof.
  split.
  { intros cur edges output first second H.
    pose proof (findNextNode_branch cur edges output first second [] H) as Hb.
    split; [exact Hb |].
    intros Hdiff. rewrite Hb.
    destruct (evaluateCondition output); split; intros Heq;
      try reflexivity; try discriminate.
    injection Heq as Heq. now elim Hdiff. }
  split; [reflexivity |].
  split; [intros n; apply nonZero_false |].
  split.
  { intros s. destruct s; cbn; split; intros H;
      try reflexivity; try discriminate. now elim H. }
  split.
  { intros items. destruct items; cbn; split; intros H;
      try reflexivity; try discriminate. now elim H. }
  repeat split; reflexivity.
Qed.

Lemma two_edges_route_by_truthiness_witness :
  findNextNode "a" [Samples.edge "a" "b"; Samples.edge "c" "a";
                    Samples.edge "a" "c"] (JString EmptyString)
  = Some "c"
  /\ findNextNode "a" [Samples.edge "a" "b"; Samples.edge "c" "a";
                       Samples.edge "a" "c"] (JObject [])
     = Some "b".
Proof.
  split.
  - exact (proj1 (proj1 two_edges_route_by_truthiness "a"
                    [Samples.edge "a" "b"; Samples.edge "c" "a";
                     Samples.edge "a" "c"]
                    (JString EmptyString) (Samples.edge "a" "b")
                    (Samples.edge "a" "c")
                    eq_refl)).
  - exact (proj1 (proj1 two_edges_route_by_truthiness "a"
                    [Samples.edge "a" "b"; Samples.edge "c" "a";
                     Samples.edge "a" "c"]
                    (JObject []) (Samples.edge "a" "b") (Samples.edge "a" "c")
                    eq_refl)).
Defined.

(** C6, as the claim states it, fails: a node with three outgoing edges
    and a truthy output is left through its first edge. *)
Lemma three_edges_still_route :
  let edges := [Samples.edge "a" "b"; Samples.edge "a" "c";
                Samples.edge "a" "d"] in
  (2 < List.length
         (filter (fun e => String.eqb (source e) "a") edges))%nat
  /\ findNextNode "a" edges (JBoolean true) = Some "b"
  /\ findNextNode "a" edges (JBoolean true) <> None.
Proof.
  simpl. split; [lia |]. split; [reflexivity | discriminate].
Qed.

(** C6, amended: a node with more than two outgoing edges is routed like a
    node with two: through its first edge when the output classifies as
    truthy, through its second when falsy; the edges after the second are
    never followed. *)
Theorem more_than_two_edges_use_first_two
    (currentNodeId : string) (edges : list Edge) (output : JSValue)
    (first second third : Edge) (others : list Edge) :
  filter (fun e => String.eqb (source e) currentNodeId) edges
  = first :: second :: third :: others ->
  findNextNode currentNodeId edges output
  = Some (if evaluateCondition output then target first else target second).
Proof. apply findNextNode_branch. Qed.

Lemma more_than_two_edges_use_first_two_witness :
  findNextNode "a" [Samples.edge "a" "b"; Samples.edge "a" "c";
                    Samples.edge "a" "d"] JNull
  = Some "c".
Proof.
  exact (more_than_two_edges_use_first_two "a"
           [Samples.edge "a" "b"; Samples.edge "a" "c"; Samples.edge "a" "d"]
           JNull (Samples.edge "a" "b") (Samples.edge "a" "c")
           (Samples.edge "a" "d") [] eq_refl).
Defined.

End Routing.

(* ===================================================================== *)
(** * FlowExecutor: the walk along the edges *)
(* ===================================================================== *)

Section Walk.
Import CodeExecutor FlowExecutor.

Variable engine : Engine.
Variable nodes : list CodeNode.
Variable edges : list Edge.

Lemma existsb_eqb_In (x : string) (l : list string) :
  existsb (String.eqb x) l = true <-> In x l.
Proof.
  rewrite existsb_exists. split.
  - intros [y [Hy Heq]]. apply String.eqb_eq in Heq. now subst.
  - intros H. exists x. split; [exact H | apply String.eqb_refl].
Qed.

Lemma existsb_eqb_not_In (x : string) (l : list string) :
  existsb (String.eqb x) l = false <-> ~ In x l.
Proof.
  rewrite <- existsb_eqb_In. destruct (existsb (String.eqb x) l);
    split; congruence.
Qed.

Lemma findNode_id (nodeId : string) (node : CodeNode) :
  findNode nodes nodeId = Some node -> id node = nodeId /\ In node nodes.
Proof.
  unfold findNode. intros H. apply find_some in H as [Hin Heq].
  apply String.eqb_eq in Heq. now split.
Qed.

Lemma caught_path (path : list string) (e : Thrown) (r : FlowExecutionResult) :
  caught path e = inl r -> executionPath r = path /\ success r = false.
Proof.
  unfold caught. destruct (errorMessageOf e); [| discriminate].
  intros H. injection H as <-. now split.
Qed.

Lemma caught_path_Some (path : list string) (e : Thrown)
    (r : FlowExecutionResult) :
  Some (caught path e) = Some (inl r) -> executionPath r = path.
Proof. intros H. apply (caught_path path e). congruence. Qed.


(** The body pushes the id on the path before it looks the node up. *)
Lemma loop_dangling (fuel : nat) (visited path : list string)
    (current : string) (out : JSValue) :
  current <> EmptyString ->
  existsb (String.eqb current) visited = false ->
  findNode nodes current = None ->
  loop engine nodes edges (S fuel) visited path (Some current) out
  = Some (inl {| success := false;
                 executionPath := (path ++ [current])%list;
                 finalOutput := None;
                 error := Some ("Node " ++ current ++ " not found") |}).
Proof.
  intros Hne Hv Hf. simpl. rewrite Hv, Hf.
  destruct current; [now elim Hne | reflexivity].
Qed.

(** The path never repeats an id: every id on it is in [visited], and the
    guard lets only unvisited ids through. *)
Lemma loop_path_NoDup (fuel : nat) :
  forall visited path current out r,
    NoDup path ->
    incl path visited ->
    loop engine nodes edges fuel visited path current out = Some (inl r) ->
    NoDup (executionPath r).
Proof.
  induction fuel as [| fuel IH]; intros visited path current out r Hnd Hincl H;
    [discriminate |].
  cbn [loop] in H.
  destruct current as [current |];
    [| injection H as <-; exact Hnd].
  destruct (Js.truthy (Some current)
            && negb (existsb (String.eqb current) visited)) eqn:Hguard;
    [| injection H as <-; exact Hnd].
  apply andb_prop in Hguard as [_ Hv].
  apply negb_true_iff, existsb_eqb_not_In in Hv.
  assert (Hnd' : NoDup (path ++ [current])%list).
  { apply NoDup_app; [exact Hnd | repeat constructor; intros [] | ].
    intros x Hx [<- | []]. apply Hv, Hincl, Hx. }
  assert (Hincl' : incl (path ++ [current])%list (current :: visited)).
  { intros x Hx. apply in_app_or in Hx as [Hx | [<- | []]];
      [right; apply Hincl, Hx | now left]. }
  destruct (findNode nodes current) as [node |].
  - destruct (executeCode engine _ _ _) as [result | rejected].
    + destruct (negb (CodeExecutor.success result)).
      * apply caught_path_Some in H as ->. exact Hnd'.
      * eapply IH; [exact Hnd' | exact Hincl' | exact H].
    + apply caught_path_Some in H as ->. exact Hnd'.
  - apply caught_path_Some in H as ->. exact Hnd'.
Qed.





(** C10: when the walk arrives at an unvisited id that names no node, the
    id is already on the path when the lookup fails: the failed result
    carries the path extended by that id, which is its last element, and
    an error naming the id; no script is run for it.  An explicit
    [startNodeId] naming no node is the first such case. *)
Theorem dangling_id_is_on_the_path :
  (forall fuel visited path current out,
      current <> EmptyString ->
      ~ In current visited ->
      findNode nodes current = None ->
      exists r,
        loop engine nodes edges (S fuel) visited path (Some current) out
        = Some (inl r)
        /\ success r = false
        /\ executionPath r = (path ++ [current])%list
        /\ last (executionPath r) EmptyString = current
        /\ error r = Some ("Node " ++ current ++ " not found"))
  /\ (forall startNodeId,
        startNodeId <> EmptyString ->
        findNode nodes startNodeId = None ->
        executeFlow engine nodes edges (Some startNodeId)
        = Some (inl {| success := false;
                       executionPath := [startNodeId];
                       finalOutput := None;
                       error := Some ("Node " ++ startNodeId
                                      ++ " not found") |})).
Proof.
  split.
  - intros fuel visited path current out Hne Hv Hf.
    eexists. split.
    + apply loop_dangling; [exact Hne | | exact Hf].
      now apply existsb_eqb_not_In.
    + simpl. repeat split. apply last_last.
  - intros startNodeId Hne Hf.
    unfold executeFlow, executeFlowWith, startOf.
    destruct startNodeId as [| c rest]; [now elim Hne |].
    cbn [Js.truthy negb].
    now rewrite (loop_dangling (List.length nodes) [] [] (String c rest) JNull).
Qed.

End Walk.

(* ===================================================================== *)
(** * The stable sort *)
(* ===================================================================== *)

Section SortFacts.
Context {A : Type}.
Variable comparefn : A -> A -> JSNumber.

(** The elements on which the comparator is a consistent ordering. *)
Variable consistent : A -> Prop.

Hypothesis after_asym :
  forall x y, consistent x -> consistent y ->
    Js.after comparefn x y = true -> Js.after comparefn y x = false.

Hypothesis not_after_trans :
  forall x y z, consistent x -> consistent y -> consistent z ->
    Js.after comparefn x y = false -> Js.after comparefn y z = false ->
    Js.after comparefn x z = false.

Lemma insert_perm (x : A) (l : list A) :
  Permutation (Js.insert comparefn x l) (x :: l).
Proof.
  induction l as [| y l IH]; simpl; [reflexivity |].
  destruct (Js.after comparefn x y); [| reflexivity].
  rewrite IH. apply perm_swap.
Qed.

Lemma sort_perm (l : list A) : Permutation (Js.sort comparefn l) l.
Proof.
  induction l as [| x l IH]; simpl; [reflexivity |].
  rewrite insert_perm. now constructor.
Qed.

Lemma sort_length (l : list A) :
  List.length (Js.sort comparefn l) = List.length l.
Proof. apply Permutation_length, sort_perm. Qed.

Lemma sort_Forall (Q : A -> Prop) (l : list A) :
  Forall Q l -> Forall Q (Js.sort comparefn l).
Proof.
  intros H. eapply Permutation_Forall; [| exact H].
  symmetry. apply sort_perm.
Qed.

Lemma insert_sorted (x : A) (l : list A) :
  consistent x -> Forall consistent l ->
  StronglySorted (inOrder comparefn) l ->
  StronglySorted (inOrder comparefn) (Js.insert comparefn x l).
Proof.
  intros Hx Hl Hs. induction Hs as [| y l Hs IH Hy]; simpl.
  - repeat constructor.
  - inversion Hl as [| ? ? Hcy Hcl]; subst.
    destruct (Js.after comparefn x y) eqn:Hxy.
    + constructor; [now apply IH |].
      eapply Permutation_Forall;
        [symmetry; apply insert_perm |].
      constructor; [now apply after_asym | exact Hy].
    + constructor; [now constructor |].
      constructor; [exact Hxy |].
      rewrite Forall_forall in Hy, Hcl |- *.
      intros z Hz. apply (not_after_trans x y z); auto.
      now apply Hy.
Qed.

Lemma sort_sorted (l : list A) :
  Forall consistent l ->
  StronglySorted (inOrder comparefn) (Js.sort comparefn l).
Proof.
  induction l as [| x l IH]; intros H; simpl; [constructor |].
  inversion H; subst.
  apply insert_sorted; auto. now apply sort_Forall.
Qed.

End SortFacts.

(* ===================================================================== *)
(** * QueueFlowExecutor: the execution queue *)
(* ===================================================================== *)

Section Queue.
Import QueueFlowExecutor.

Lemma isPositive_sub_finite (x y : Q) :
  Number.isPositive (Number.sub (Finite x) (Finite y)) = true <-> (y < x)%Q.
Proof.
  simpl. rewrite Z.ltb_lt. unfold Qlt. destruct x, y; simpl. lia.
Qed.

Lemma not_positive_sub_finite (x y : Q) :
  Number.isPositive (Number.sub (Finite x) (Finite y)) = false <-> (x <= y)%Q.
Proof.
  rewrite <- not_true_iff_false, isPositive_sub_finite.
  split; [apply Qnot_lt_le | apply Qle_not_lt].
Qed.

Lemma byCreationTime_asym (a b : CodeNode) :
  timed a -> timed b ->
  Js.after byCreationTime a b = true -> Js.after byCreationTime b a = false.
Proof.
  unfold timed, Js.after, byCreationTime.
  destruct (creationTime a) as [| [] | x], (creationTime b) as [| [] | y];
    intros Ha Hb; try congruence; try reflexivity; try discriminate.
  rewrite isPositive_sub_finite, not_positive_sub_finite.
  apply Qlt_le_weak.
Qed.

Lemma byCreationTime_trans (a b c : CodeNode) :
  timed a -> timed b -> timed c ->
  Js.after byCreationTime a b = false ->
  Js.after byCreationTime b c = false ->
  Js.after byCreationTime a c = false.
Proof.
  unfold timed, Js.after, byCreationTime.
  destruct (creationTime a) as [| [] | x], (creationTime b) as [| [] | y],
           (creationTime c) as [| [] | z];
    intros Ha Hb Hc; try congruence; try reflexivity; try discriminate.
  rewrite !not_positive_sub_finite. apply Qle_trans.
Qed.

Lemma findNode_None (nodes : list CodeNode) (nodeId : string) :
  findNode nodes nodeId = None <-> ~ In nodeId (map id nodes).
Proof.
  unfold findNode. split.
  - intros H Hin. apply in_map_iff in Hin as [n [<- Hn]].
    apply (find_none _ _ H) in Hn. now rewrite String.eqb_refl in Hn.
  - intros H. destruct (find _ nodes) as [n |] eqn:Hf; [| reflexivity].
    apply find_some in Hf as [Hin Heq]. apply String.eqb_eq in Heq.
    elim H. rewrite <- Heq. now apply in_map.
Qed.

(** No entry node: the queue is empty. *)
Lemma queue_without_entry (nodes : list CodeNode) :
  ~ In ENTRY (map id nodes) -> createExecutionQueue nodes = [].
Proof.
  intros H. unfold createExecutionQueue.
  now rewrite (proj2 (findNode_None nodes ENTRY) H).
Qed.

(** With an entry node: the entry id, then the ids of the other nodes in
    the order the sort leaves them. *)
Lemma queue_with_entry (nodes : list CodeNode) :
  In ENTRY (map id nodes) ->
  createExecutionQueue nodes
  = ENTRY :: map id (Js.sort byCreationTime
                       (filter (fun node => negb (String.eqb (id node) ENTRY))
                          nodes)).
Proof.
  intros H. unfold createExecutionQueue.
  destruct (findNode nodes ENTRY) as [inputNode |] eqn:Hf.
  - unfold findNode in Hf. apply find_some in Hf as [_ Heq].
    apply String.eqb_eq in Heq. now rewrite Heq.
  - now apply findNode_None in Hf.
Qed.

(** The parts of the ordering claim that hold for every node list: the
    queue is empty without an entry node; with one it has one id more
    than there are other nodes, starts with the entry id and lists the
    other nodes' ids, each once per node. *)
Lemma queue_shape (nodes : list CodeNode) :
  let others :=
    filter (fun node => negb (String.eqb (id node) ENTRY)) nodes in
  (~ In ENTRY (map id nodes) -> createExecutionQueue nodes = [])
  /\ (In ENTRY (map id nodes) ->
      exists rest,
        createExecutionQueue nodes = ENTRY :: rest
        /\ List.length rest = List.length others
        /\ Permutation rest (map id others)).
Proof.
  intros others. split; [apply queue_without_entry |].
  intros H. rewrite (queue_with_entry nodes H). eexists.
  split; [reflexivity |]. split.
  - now rewrite length_map, sort_length.
  - apply Permutation_map, sort_perm.
Qed.

(** When every other node has a creation time, the other nodes stand in
    ascending order of it (a node never stands before one with a smaller
    time). *)
Lemma queue_sorted_when_timed (nodes : list CodeNode) :
  let others :=
    filter (fun node => negb (String.eqb (id node) ENTRY)) nodes in
  Forall timed others ->
  StronglySorted (inOrder byCreationTime) (Js.sort byCreationTime others).
Proof.
  intros others H.
  apply (sort_sorted byCreationTime timed);
    [apply byCreationTime_asym | apply byCreationTime_trans | exact H].
Qed.

(** An id with no second [-]-separated piece, or an empty one, has
    creation time 0. *)
Lemma creationTime_default (node : CodeNode) :
  Js.orElse (nth_error (Js.split "-" (id node)) 1) "0" = "0" ->
  creationTime node = Finite 0.
Proof. unfold creationTime. now intros ->. Qed.

End Queue.

(* ===================================================================== *)
(** * QueueFlowExecutor: runs with callbacks that return *)
(* ===================================================================== *)

Section QuietRun.
Import QueueFlowExecutor.
Local Open Scope list_scope.
Local Open Scope run_scope.

Variable host : Host.
Variable callbacks : Callbacks.

Hypothesis Hlog : quietLog callbacks.
Hypothesis Hstart : quietStart callbacks.

Lemma told_nil (s : State) : told s [] = s.
Proof. destruct s. unfold told. simpl. now rewrite app_nil_r. Qed.

Lemma addLog_quiet nodeId nodeName type message data (s : State) :
  addLog host callbacks nodeId nodeName type message data s
  = (logged host callbacks s nodeId nodeName type message data, inl tt).
Proof.
  unfold addLog, logged, heard, bind, now, pushLog, update, whenGiven,
    invoke, ret.
  simpl. destruct (onLog callbacks) as [f |] eqn:Hf; simpl.
  - now rewrite (Hlog f Hf).
  - now rewrite app_nil_r.
Qed.

Lemma notifyStart_quiet nodeId (s : State) :
  notifyStart callbacks nodeId s
  = (told s (heard (onNodeStart callbacks) (StartCall nodeId)), inl tt).
Proof.
  unfold notifyStart, whenGiven, invoke, heard, ret.
  destruct (onNodeStart callbacks) as [f |] eqn:Hf.
  - now rewrite (Hstart f Hf).
  - now rewrite told_nil.
Qed.

(** Positions 1, 2, ... of the queue all have an endpoint. *)
Lemma endpoint_at (i : nat) :
  (1 <= i)%nat ->
  exists endpoint,
    Js.at_ API_ENDPOINTS
      (Z.rem (Z.of_nat i - 1) (Z.of_nat (List.length API_ENDPOINTS)))
    = Some endpoint.
Proof.
  intros Hi. simpl List.length.
  assert (H : (0 <= Z.rem (Z.of_nat i - 1) (Z.of_nat 4) < 4)%Z)
    by (apply Z.rem_bound_pos; lia).
  set (k := Z.rem (Z.of_nat i - 1) (Z.of_nat 4)) in *.
  assert (Hk : k = 0%Z \/ k = 1%Z \/ k = 2%Z \/ k = 3%Z) by lia.
  destruct Hk as [-> | [-> | [-> | ->]]]; eexists; reflexivity.
Qed.

(** What [executeNode] does when the callbacks return: it returns, leaves
    the results of the run alone and appends its records, one for the
    entry node and three for any other node, the last of these a
    [success] or an [error] record according to the result. *)
Lemma executeNode_quiet (node : CodeNode) (i : nat) (s : State) :
  id node = ENTRY \/ (1 <= i)%nat ->
  exists r s' added,
    executeNode host node (Z.of_nat i) (addLog host callbacks) s
    = (s', inl r)
    /\ stLogs s' = stLogs s ++ added
    /\ Forall (fun l => nodeId l = id node) added
    /\ filter isStart added = []
    /\ stCompleted s' = stCompleted s
    /\ stFinalOutput s' = stFinalOutput s
    /\ settled s' = settled s
    /\ (exists said, calls s' = calls s ++ said)
    /\ (if String.eqb (id node) ENTRY
        then success r = true /\ map type added = [info]
             /\ output r = Some (initializedPayload (clock host (S (time s))))
        else map type added
             = (if success r then [info; info; success_]
                else [info; info; error_])
             /\ success r = isSome (answer host i)
             /\ output r = answer host i).
Proof.
  intros Hplace. unfold executeNode, answer.
  destruct (String.eqb (id node) ENTRY) eqn:Hentry.
  - unfold bind. rewrite addLog_quiet. unfold now, ret. simpl.
    do 3 eexists. split; [reflexivity |]. simpl.
    split; [reflexivity |]. split; [repeat constructor |].
    split; [reflexivity |].
    repeat split; try reflexivity. eexists; reflexivity.
  - destruct Hplace as [Heq | Hi];
      [rewrite Heq, String.eqb_refl in Hentry; discriminate |].
    destruct (endpoint_at i Hi) as [endpoint ->].
    unfold bind, tryCatch. rewrite !addLog_quiet. unfold call.
    destruct (respond host (Z.of_nat i) (API_BASE_URL ++ path endpoint)%string
                (requestFor endpoint))
      as [message | ok status statusText [received | message]];
      [ | destruct ok | ]; unfold throw, ret; cbn [negb errorMessageOf];
      rewrite ?addLog_quiet; cbn [negb errorMessageOf];
      do 3 eexists; (split; [reflexivity |]); simpl;
      rewrite <- ?app_assoc; simpl;
      (split; [reflexivity |]); (split; [repeat constructor |]);
      (split; [reflexivity |]);
      repeat split; try reflexivity; try (now destruct ok);
      eexists; reflexivity.
Qed.

Variable nodes : list CodeNode.

(** ** Callbacks that never throw *)

Section Complete.
Hypothesis Hcomplete : quietComplete callbacks.

Lemma notifyComplete_quiet nodeId result (s : State) :
  notifyComplete callbacks nodeId result s
  = (told s (heard (onNodeComplete callbacks) (CompleteCall nodeId result)),
     inl tt).
Proof.
  unfold notifyComplete, whenGiven, invoke, heard, ret.
  destruct (onNodeComplete callbacks) as [f |] eqn:Hf.
  - now rewrite (Hcomplete f Hf).
  - now rewrite told_nil.
Qed.

Lemma count_start (first last : ExecutionLog) (between : list ExecutionLog) :
  isStart first = true ->
  filter isStart between = [] ->
  isStart last = false ->
  List.length (filter isStart (first :: between ++ [last])) = 1%nat.
Proof.
  intros Hfirst Hbetween Hlast. cbn [filter]. rewrite Hfirst, filter_app.
  rewrite Hbetween. cbn [filter app]. now rewrite Hlast.
Qed.

(** One pass of the loop, for a node that is found: the pass returns,
    [executeNode] returned some result [r], and the state has grown by
    the records and calls of the pass. *)
Lemma iteration_quiet (i : nat) (nodeId : string) (node : CodeNode)
    (s : State) :
  findNode nodes nodeId = Some node ->
  nodeId = ENTRY \/ (1 <= i)%nat ->
  exists r s' added said,
    iteration host callbacks nodes i nodeId s = (s', inl tt)
    /\ stLogs s' = stLogs s ++ added
    /\ calls s' = calls s ++ said
    /\ settled s' = settled s ++ [(nodeId, r)]
    /\ Forall (fun l => QueueFlowExecutor.nodeId l = nodeId) added
    /\ map type added = passTypes nodeId (success r)
    /\ (exists first,
          hd_error added = Some first
          /\ message first
             = ("Executing node: " ++ label (data node))%string)
    /\ (success r = false ->
        exists l, In l added /\ type l = error_
                  /\ QueueFlowExecutor.nodeId l = nodeId
                  /\ message l = Js.orElse (error r) "Execution failed")
    /\ (forall f, onNodeComplete callbacks = Some f ->
                  In (CompleteCall nodeId r) said)
    /\ answers host (clock host (time s + 2)) i nodeId r
    /\ List.length (filter isStart added) = 1%nat.
Proof.
  intros Hfind Hplace.
  destruct (findNode_id nodes nodeId node Hfind) as [Hid _].
  unfold iteration. rewrite Hfind. unfold bind at 1 2.
  rewrite addLog_quiet, notifyStart_quiet.
  unfold tryCatch, attempt. unfold bind at 1.
  match goal with
  | |- context [executeNode host node (Z.of_nat i) _ ?s0] =>
      destruct (executeNode_quiet node i s0)
        as (r & s1 & added1 & Hexec & Hlogs & Hids & Hquietly & Hc & Hf
            & Hs & [said1 Hcalls] & Hshape);
      [rewrite Hid; exact Hplace |]
  end.
  rewrite Hexec. exists r.
  unfold bind, settle, complete, update.
  assert (Hanswers : answers host (clock host (time s + 2)) i nodeId r).
  { unfold answers. rewrite <- Hid.
    replace (time s + 2)%nat with (S (S (time s))) by lia.
    destruct (String.eqb (id node) ENTRY).
    - destruct Hshape as (Hyes & _ & Hout). split; [exact Hyes | exact Hout].
    - destruct Hshape as (_ & Hs1 & Hout). split; assumption. }
  assert (Htypes : map type added1
                   = if String.eqb nodeId ENTRY then [info]
                     else if success r then [info; info; success_]
                          else [info; info; error_]).
  { rewrite <- Hid. destruct (String.eqb (id node) ENTRY).
    - now destruct Hshape as (_ & Hm & _).
    - now destruct Hshape as (Hm & _). }
  assert (Hentry : String.eqb nodeId ENTRY = true -> success r = true).
  { rewrite <- Hid. destruct (String.eqb (id node) ENTRY);
      [intros _; now destruct Hshape | discriminate]. }
  clear Hshape.
  destruct (success r) eqn:Hok;
    rewrite addLog_quiet, notifyComplete_quiet;
    do 3 eexists; (split; [reflexivity |]); simpl;
    rewrite Hlogs, Hcalls, Hs; simpl;
    rewrite <- !app_assoc; simpl;
    (split; [reflexivity |]); (split; [reflexivity |]);
    (split; [reflexivity |]);
    (split;
       [ constructor; [reflexivity |]; apply Forall_app; split;
         [rewrite <- Hid; exact Hids | repeat constructor] |]);
    (split;
       [ cbn [map]; rewrite map_app, Htypes; unfold passTypes;
         destruct (String.eqb nodeId ENTRY);
         try reflexivity; discriminate (Hentry eq_refl) |]);
    (split; [eexists; split; reflexivity |]).
  - split; [intros Hno; discriminate Hno |].
    split; [| split; [exact Hanswers |]].
    + intros f Hgiven. rewrite Hgiven. simpl.
      rewrite !in_app_iff. do 4 right. now left.
    + apply count_start; [reflexivity | exact Hquietly | reflexivity].
  - split.
    + intros _. eexists.
      split; [right; apply in_or_app; right; now left |].
      now repeat split.
    + split; [| split; [exact Hanswers |]].
      * intros f Hgiven. rewrite Hgiven. simpl.
        rewrite !in_app_iff. do 4 right. now left.
      * apply count_start; [reflexivity | exact Hquietly | reflexivity].
Qed.

Lemma agrees_ids (i : nat) (rest : list string)
    (results : list (string * NodeExecutionResult)) :
  agrees host i rest results -> map fst results = rest.
Proof.
  revert i results. induction rest as [| nodeId rest IH];
    intros i [| [nodeId' r] results] H; try contradiction; [reflexivity |].
  destruct H as (-> & _ & H). simpl. f_equal. now apply (IH (S i)).
Qed.

Lemma agrees_succeeding (i : nat) (rest : list string)
    (results : list (string * NodeExecutionResult)) :
  agrees host i rest results ->
  map fst (filter succeeded results) = succeeding host i rest.
Proof.
  revert i results. induction rest as [| nodeId rest IH];
    intros i [| [nodeId' r] results] H; try contradiction; [reflexivity |].
  destruct H as (-> & [stamp Hans] & H). specialize (IH (S i) results H).
  cbn [filter succeeding]. unfold succeeded at 1. cbn [snd].
  unfold answers in Hans.
  destruct (String.eqb nodeId ENTRY); cbn [orb].
  - destruct Hans as [-> _]. cbn [map fst]. now rewrite IH.
  - destruct Hans as [-> _].
    destruct (isSome (answer host i)); cbn [map fst]; now rewrite IH.
Qed.

Lemma agrees_lastAnswer (i : nat) (rest : list string)
    (results : list (string * NodeExecutionResult)) :
  agrees host i rest results ->
  Forall (fun nodeId => nodeId <> ENTRY) rest ->
  forall previous,
    fold_left
      (fun acc entry =>
         if success (snd entry) then CodeExecutor.read (output (snd entry))
         else acc)
      results previous
    = lastAnswer host i rest previous.
Proof.
  revert i results. induction rest as [| nodeId rest IH];
    intros i [| [nodeId' r] results] H Hne previous;
    try contradiction; [reflexivity |].
  destruct H as (-> & [stamp Hans] & H).
  inversion Hne as [| ? ? Hx Hrest]; subst.
  unfold answers in Hans. apply String.eqb_neq in Hx. rewrite Hx in Hans.
  destruct Hans as [Hok Hout].
  cbn [fold_left lastAnswer snd]. rewrite (IH (S i) results H Hrest).
  rewrite Hok, Hout. now destruct (answer host i).
Qed.

Lemma forLoop_quiet (rest : list string) :
  forall i s,
    (forall nodeId, In nodeId rest -> findNode nodes nodeId <> None) ->
    placed i rest ->
    reported callbacks s ->
    exists s' passes results,
      forLoop host callbacks nodes i rest s = (s', inl tt)
      /\ stLogs s' = stLogs s ++ concat passes
      /\ Forall2 passOf rest passes
      /\ settled s' = settled s ++ results
      /\ agrees host i rest results
      /\ headStamped host (time s) i rest results
      /\ reported callbacks s'.
Proof.
  induction rest as [| nodeId rest IH]; intros i s Hfound Hplaced Hrep.
  - exists s, [], []. simpl. rewrite !app_nil_r. unfold ret.
    split; [reflexivity |]. split; [reflexivity |].
    split; [constructor |]. split; [reflexivity |].
    split; [exact I |]. split; [exact I | exact Hrep].
  - destruct (findNode nodes nodeId) as [node |] eqn:Hfind;
      [| now elim (Hfound nodeId (or_introl eq_refl))].
    destruct (iteration_quiet i nodeId node s Hfind Hplaced)
      as (r & s1 & added & said & Hrun & Hlogs & Hcalls & Hsettled
          & Hids & Htypes & Hfirst & Herr & Hcall & Hans & Hone).
    destruct (IH (S i) s1) as (s2 & passes & results & Hrun2 & Hlogs2
                               & Hpasses & Hsettled2 & Hagree & _ & Hrep2).
    + intros x Hx. apply Hfound. now right.
    + destruct rest; simpl; [exact I | right; lia].
    + intros x rx Hin Hfail. rewrite Hsettled in Hin.
      apply in_app_or in Hin as [Hin | [Heq | []]].
      * destruct (Hrep x rx Hin Hfail) as [[l (Hl & Hrest)] Hc]. split.
        -- exists l. split; [| exact Hrest].
           rewrite Hlogs. apply in_or_app. now left.
        -- intros f Hf. rewrite Hcalls. apply in_or_app. left.
           now apply (Hc f).
      * injection Heq as <- <-. split.
        -- destruct (Herr Hfail) as [l (Hl & Hrest)].
           exists l. split; [| exact Hrest].
           rewrite Hlogs. apply in_or_app. now right.
        -- intros f Hf. rewrite Hcalls. apply in_or_app. right.
           now apply (Hcall f).
    + exists s2, (added :: passes), ((nodeId, r) :: results).
      cbn [forLoop]. unfold bind.
      rewrite Hrun, Hrun2. split; [reflexivity |].
      split; [rewrite Hlogs2, Hlogs; simpl; now rewrite app_assoc |].
      split.
      * constructor; [| exact Hpasses].
        split; [exact Hids |]. split; [now exists (success r) |].
        split; [| exact Hone].
        destruct Hfirst as [first [H1 H2]].
        now exists first, (label (data node)).
      * split; [rewrite Hsettled2, Hsettled; now rewrite <- app_assoc |].
        split; [| split; [exact Hans | exact Hrep2]].
        split; [reflexivity |]. split; [| exact Hagree].
        now exists (clock host (time s + 2)).
Qed.

Lemma queue_ids_found (nodeId : string) :
  In nodeId (createExecutionQueue nodes) -> findNode nodes nodeId <> None.
Proof.
  intros Hin Hnone. apply findNode_None in Hnone. apply Hnone.
  destruct (in_dec string_dec ENTRY (map id nodes)) as [Hentry | Hentry].
  - rewrite (queue_with_entry nodes Hentry) in Hin.
    destruct Hin as [<- | Hin]; [exact Hentry |].
    apply in_map_iff in Hin as [n [<- Hn]]. apply in_map.
    apply (Permutation_in _ (sort_perm byCreationTime _)) in Hn.
    now apply filter_In in Hn.
  - now rewrite (queue_without_entry nodes Hentry) in Hin.
Qed.

Lemma queue_placed : placed 0 (createExecutionQueue nodes).
Proof.
  destruct (in_dec string_dec ENTRY (map id nodes)) as [Hentry | Hentry].
  - rewrite (queue_with_entry nodes Hentry). now left.
  - now rewrite (queue_without_entry nodes Hentry).
Qed.

(** After the entry id, no id of the queue is the entry id. *)
Lemma queue_tail_not_entry :
  Forall (fun nodeId => nodeId <> ENTRY) (tl (createExecutionQueue nodes)).
Proof.
  destruct (in_dec string_dec ENTRY (map id nodes)) as [Hentry | Hentry].
  - rewrite (queue_with_entry nodes Hentry). simpl.
    apply Forall_forall. intros x Hx.
    apply in_map_iff in Hx as [n [<- Hn]].
    apply (Permutation_in _ (sort_perm byCreationTime _)) in Hn.
    apply filter_In in Hn as [_ Hn].
    apply negb_true_iff, String.eqb_neq in Hn. exact Hn.
  - rewrite (queue_without_entry nodes Hentry). constructor.
Qed.

(** The whole run when the callbacks return: the promise resolves to a
    successful result whose logs are the leading system record, the
    records of one pass per queue entry, and the trailing system
    record. *)
Lemma executeFlow_quiet (edges : list Edge) (s : State) :
  exists r s' leading passes trailing,
    executeFlow host nodes edges callbacks s = (s', inl r)
    /\ runSuccess r = true
    /\ executionQueue r = createExecutionQueue nodes
    /\ logs r = stLogs s'
    /\ completedNodes r = stCompleted s'
    /\ finalOutput r = Some (stFinalOutput s')
    /\ logs r = leading :: concat passes ++ [trailing]
    /\ (QueueFlowExecutor.nodeId leading = "system" /\ type leading = info
        /\ isStart leading = false)
    /\ (QueueFlowExecutor.nodeId trailing = "system"
        /\ type trailing = success_)
    /\ Forall2 passOf (createExecutionQueue nodes) passes
    /\ map fst (settled s') = createExecutionQueue nodes
    /\ reported callbacks s'
    /\ agrees host 0 (createExecutionQueue nodes) (settled s')
    /\ headStamped host (time s + 1) 0 (createExecutionQueue nodes)
         (settled s').
Proof.
  unfold executeFlow, announce, wholeQueue. unfold bind at 1 2.
  unfold update at 1. rewrite addLog_quiet. unfold tryCatch, bind.
  match goal with
  | |- context [forLoop host callbacks nodes 0 _ ?s0] =>
      destruct (forLoop_quiet (createExecutionQueue nodes) 0 s0)
        as (s1 & passes & results & Hrun & Hlogs & Hpasses & Hsettled
            & Hagree & Hstamp & Hrep);
      [ intros x Hx; now apply queue_ids_found
      | apply queue_placed
      | intros x rx [] | ]
  end.
  rewrite Hrun, addLog_quiet. unfold get, ret.
  simpl in Hsettled, Hstamp. subst results.
  replace (S (time s)) with (time s + 1)%nat in Hstamp by lia.
  do 5 eexists. split; [reflexivity |]. simpl.
  split; [reflexivity |]. split; [reflexivity |]. split; [reflexivity |].
  split; [reflexivity |]. split; [reflexivity |].
  split; [rewrite Hlogs; simpl; reflexivity |].
  split; [repeat split; reflexivity |]. split; [split; reflexivity |].
  split; [exact Hpasses |].
  split; [exact (agrees_ids _ _ _ Hagree) |].
  split; [| split; [exact Hagree | exact Hstamp]].
  intros x rx Hin Hfail. simpl in Hin.
  destruct (Hrep x rx Hin Hfail) as [[l (Hl & Hrest)] Hc]. split.
  - exists l. split; [| exact Hrest]. simpl. apply in_or_app. now left.
  - intros f Hf. simpl. apply in_or_app. left. now apply (Hc f).
Qed.

Lemma passTypes_length (nodeId : string) (ok : bool) :
  List.length (passTypes nodeId ok)
  = if String.eqb nodeId ENTRY then 3%nat else 5%nat.
Proof.
  unfold passTypes. destruct (String.eqb nodeId ENTRY); [reflexivity |].
  now destruct ok.
Qed.

Lemma passes_length (ids : list string) (passes : list (list ExecutionLog)) :
  Forall2 passOf ids passes ->
  Forall (fun nodeId => nodeId <> ENTRY) ids ->
  List.length (concat passes) = (5 * List.length ids)%nat.
Proof.
  induction 1 as [| nodeId records ids passes Hpass _ IH]; intros Hne;
    [reflexivity |].
  inversion Hne as [| ? ? Hx Hrest]; subst.
  simpl. rewrite length_app, (IH Hrest).
  destruct Hpass as (_ & [ok Hok] & _).
  rewrite <- (length_map type records), Hok, passTypes_length.
  apply String.eqb_neq in Hx. rewrite Hx. lia.
Qed.

Lemma filter_by_type (records : list ExecutionLog) :
  List.length (filter isTerminal records)
  = List.length (filter terminalType (map type records)).
Proof.
  induction records as [| l records IH]; [reflexivity |].
  cbn [filter map]. unfold isTerminal at 1.
  destruct (terminalType (type l)); cbn [List.length]; now rewrite IH.
Qed.

Lemma pass_terminals (nodeId : string) (records : list ExecutionLog) :
  passOf nodeId records ->
  List.length (filter isTerminal records)
  = if String.eqb nodeId ENTRY then 1%nat else 2%nat.
Proof.
  intros (_ & [ok Hok] & _). rewrite filter_by_type, Hok.
  unfold passTypes. destruct (String.eqb nodeId ENTRY); [reflexivity |].
  now destruct ok.
Qed.

Lemma passes_counts (ids : list string) (passes : list (list ExecutionLog)) :
  Forall2 passOf ids passes ->
  List.length (filter isStart (concat passes)) = List.length ids
  /\ (Forall (fun nodeId => nodeId <> ENTRY) ids ->
      List.length (filter isTerminal (concat passes))
      = (2 * List.length ids)%nat).
Proof.
  induction 1 as [| nodeId records ids passes Hpass _ [IHs IHt]];
    [split; reflexivity |].
  cbn [concat]. rewrite !filter_app, !length_app. split.
  - destruct Hpass as (_ & _ & _ & ->). rewrite IHs. reflexivity.
  - intros Hne. inversion Hne as [| ? ? Hx Hrest]; subst.
    rewrite (pass_terminals _ _ Hpass), (IHt Hrest).
    apply String.eqb_neq in Hx. rewrite Hx. cbn [List.length]. lia.
Qed.

End Complete.

(** ** An [onNodeComplete] that throws on successful results *)

Section Careful.
Hypothesis Hcareful : carefulComplete callbacks.

(** [onNodeComplete] is called, and throws at most as the hypothesis
    allows. *)
Lemma notifyComplete_careful nodeId result (s : State) :
  exists outcome,
    notifyComplete callbacks nodeId result s
    = (told s (heard (onNodeComplete callbacks) (CompleteCall nodeId result)),
       outcome)
    /\ (outcome = inl tt
        \/ exists e errorMessage,
             outcome = inr e /\ success result = true
             /\ errorMessageOf e = inl errorMessage).
Proof.
  unfold notifyComplete, whenGiven, invoke, heard, ret.
  destruct (onNodeComplete callbacks) as [f |] eqn:Hf.
  - destruct (f (calls s) nodeId result) as [e |] eqn:Hcall.
    + destruct (Hcareful f Hf _ _ _ _ Hcall) as [Hok [errorMessage He]].
      eexists. split; [reflexivity |]. right. now exists e, errorMessage.
    + eexists. split; [reflexivity |]. now left.
  - rewrite told_nil. eexists. split; [reflexivity |]. now left.
Qed.

Lemma notifyComplete_failed nodeId result (s : State) :
  success result = false ->
  notifyComplete callbacks nodeId result s
  = (told s (heard (onNodeComplete callbacks) (CompleteCall nodeId result)),
     inl tt).
Proof.
  intros Hfail.
  destruct (notifyComplete_careful nodeId result s)
    as (outcome & -> & [-> | (e & errorMessage & _ & Hok & _)]);
    [reflexivity | congruence].
Qed.

(** One pass of the loop returns: what [onNodeComplete] throws is caught
    by the pass, and the failed result handed to it then does not make
    it throw. *)
Lemma iteration_careful (i : nat) (nodeId : string) (node : CodeNode)
    (s : State) :
  findNode nodes nodeId = Some node ->
  nodeId = ENTRY \/ (1 <= i)%nat ->
  exists r s' added said,
    iteration host callbacks nodes i nodeId s = (s', inl tt)
    /\ stLogs s' = stLogs s ++ added
    /\ calls s' = calls s ++ said
    /\ settled s' = settled s ++ [(nodeId, r)]
    /\ (success r = false ->
        exists l, In l added /\ type l = error_
                  /\ QueueFlowExecutor.nodeId l = nodeId
                  /\ message l = Js.orElse (error r) "Execution failed")
    /\ (forall f, onNodeComplete callbacks = Some f ->
                  In (CompleteCall nodeId r) said).
Proof.
  intros Hfind Hplace.
  destruct (findNode_id nodes nodeId node Hfind) as [Hid _].
  unfold iteration. rewrite Hfind. unfold bind at 1 2.
  rewrite addLog_quiet, notifyStart_quiet.
  unfold tryCatch, attempt. unfold bind at 1.
  match goal with
  | |- context [executeNode host node (Z.of_nat i) _ ?s0] =>
      destruct (executeNode_quiet node i s0)
        as (r & s1 & added1 & Hexec & Hlogs & _ & _ & _ & _
            & Hs & [said1 Hcalls] & _);
      [rewrite Hid; exact Hplace |]
  end.
  rewrite Hexec. exists r.
  unfold bind, settle, complete, update.
  destruct (success r) eqn:Hok; rewrite addLog_quiet.
  - match goal with
    | |- context [notifyComplete callbacks nodeId r ?s0] =>
        destruct (notifyComplete_careful nodeId r s0)
          as (outcome & -> & [-> | (e & errorMessage & -> & _ & Hmsg)])
    end.
    + do 3 eexists. split; [reflexivity |]. simpl.
      rewrite Hlogs, Hcalls, Hs. simpl. rewrite <- !app_assoc. simpl.
      split; [reflexivity |]. split; [reflexivity |].
      split; [reflexivity |]. split; [discriminate |].
      intros f Hgiven. rewrite Hgiven. simpl.
      rewrite !in_app_iff. do 4 right. now left.
    + unfold recover. rewrite Hmsg. unfold bind.
      rewrite addLog_quiet, notifyComplete_failed by reflexivity.
      do 3 eexists. split; [reflexivity |]. simpl.
      rewrite Hlogs, Hcalls, Hs. simpl. rewrite <- !app_assoc. simpl.
      split; [reflexivity |]. split; [reflexivity |].
      split; [reflexivity |]. split; [discriminate |].
      intros f Hgiven. rewrite Hgiven. simpl.
      rewrite !in_app_iff. do 4 right. now left.
  - rewrite notifyComplete_failed by exact Hok.
    do 3 eexists. split; [reflexivity |]. simpl.
    rewrite Hlogs, Hcalls, Hs. simpl. rewrite <- !app_assoc. simpl.
    split; [reflexivity |]. split; [reflexivity |].
    split; [reflexivity |]. split.
    + intros _. eexists.
      split; [right; apply in_or_app; right; now left |].
      now repeat split.
    + intros f Hgiven. rewrite Hgiven. simpl.
      rewrite !in_app_iff. do 4 right. now left.
Qed.

Lemma forLoop_careful (rest : list string) :
  forall i s,
    (forall nodeId, In nodeId rest -> findNode nodes nodeId <> None) ->
    placed i rest ->
    reported callbacks s ->
    exists s' added results,
      forLoop host callbacks nodes i rest s = (s', inl tt)
      /\ stLogs s' = stLogs s ++ added
      /\ settled s' = settled s ++ results
      /\ map fst results = rest
      /\ reported callbacks s'.
Proof.
  induction rest as [| nodeId rest IH]; intros i s Hfound Hplaced Hrep.
  - exists s, [], []. simpl. rewrite !app_nil_r. unfold ret.
    split; [reflexivity |]. split; [reflexivity |].
    split; [reflexivity |]. split; [reflexivity | exact Hrep].
  - destruct (findNode nodes nodeId) as [node |] eqn:Hfind;
      [| now elim (Hfound nodeId (or_introl eq_refl))].
    destruct (iteration_careful i nodeId node s Hfind Hplaced)
      as (r & s1 & added & said & Hrun & Hlogs & Hcalls & Hsettled
          & Herr & Hcall).
    destruct (IH (S i) s1) as (s2 & added2 & results & Hrun2 & Hlogs2
                               & Hsettled2 & Hids & Hrep2).
    + intros x Hx. apply Hfound. now right.
    + destruct rest; simpl; [exact I | right; lia].
    + intros x rx Hin Hfail. rewrite Hsettled in Hin.
      apply in_app_or in Hin as [Hin | [Heq | []]].
      * destruct (Hrep x rx Hin Hfail) as [[l (Hl & Hrest)] Hc]. split.
        -- exists l. split; [| exact Hrest].
           rewrite Hlogs. apply in_or_app. now left.
        -- intros f Hf. rewrite Hcalls. apply in_or_app. left.
           now apply (Hc f).
      * injection Heq as <- <-. split.
        -- destruct (Herr Hfail) as [l (Hl & Hrest)].
           exists l. split; [| exact Hrest].
           rewrite Hlogs. apply in_or_app. now right.
        -- intros f Hf. rewrite Hcalls. apply in_or_app. right.
           now apply (Hcall f).
    + exists s2, (added ++ added2), ((nodeId, r) :: results).
      cbn [forLoop]. unfold bind.
      rewrite Hrun, Hrun2. split; [reflexivity |].
      split; [rewrite Hlogs2, Hlogs; now rewrite app_assoc |].
      split; [rewrite Hsettled2, Hsettled; now rewrite <- app_assoc |].
      split; [simpl; now rewrite Hids | exact Hrep2].
Qed.

(** The whole run: the promise resolves to a successful result, after
    [executeNode] returned for every queue entry in turn. *)
Lemma executeFlow_careful (edges : list Edge) (s : State) :
  exists r s',
    executeFlow host nodes edges callbacks s = (s', inl r)
    /\ runSuccess r = true
    /\ logs r = stLogs s'
    /\ map fst (settled s') = createExecutionQueue nodes
    /\ reported callbacks s'.
Proof.
  unfold executeFlow, announce, wholeQueue. unfold bind at 1 2.
  unfold update at 1. rewrite addLog_quiet. unfold tryCatch, bind.
  match goal with
  | |- context [forLoop host callbacks nodes 0 _ ?s0] =>
      destruct (forLoop_careful (createExecutionQueue nodes) 0 s0)
        as (s1 & added & results & Hrun & Hlogs & Hsettled & Hids & Hrep);
      [ intros x Hx; now apply queue_ids_found
      | apply queue_placed
      | intros x rx [] | ]
  end.
  rewrite Hrun, addLog_quiet. unfold get, ret.
  simpl in Hsettled. subst results.
  do 2 eexists. split; [reflexivity |]. simpl.
  split; [reflexivity |]. split; [reflexivity |].
  split; [exact Hids |].
  intros x rx Hin Hfail. simpl in Hin.
  destruct (Hrep x rx Hin Hfail) as [[l (Hl & Hrest)] Hc]. split.
  - exists l. split; [| exact Hrest]. simpl. apply in_or_app. now left.
  - intros f Hf. simpl. apply in_or_app. left. now apply (Hc f).
Qed.

End Careful.

End QuietRun.

(* ===================================================================== *)
(** * QueueFlowExecutor: runs with arbitrary callbacks *)
(* ===================================================================== *)

Section AnyRun.
Import QueueFlowExecutor.
Local Open Scope list_scope.
Local Open Scope run_scope.

Variable host : Host.
Variable callbacks : Callbacks.
Variable nodes : list CodeNode.

Lemma bind_update {B : Type} (f : State -> State) (k : unit -> M B)
    (s : State) :
  bind (update f) k s = k tt (f s).
Proof. reflexivity. Qed.

Lemma bind_assoc {A B C : Type} (m : M A) (f : A -> M B) (g : B -> M C)
    (s : State) :
  bind (bind m f) g s = bind m (fun a => bind (f a) g) s.
Proof. unfold bind. now destruct (m s) as [s' [a | e]]. Qed.

Lemma bind_returned {A B : Type} (m : M A) (k : A -> M B) (s s1 : State)
    (a : A) :
  m s = (s1, inl a) -> bind m k s = k a s1.
Proof. unfold bind. now intros ->. Qed.

Lemma bind_thrown {A B : Type} (m : M A) (k : A -> M B) (s s1 : State)
    (e : Thrown) :
  m s = (s1, inr e) -> bind m k s = (s1, inr e).
Proof. unfold bind. now intros ->. Qed.

Lemma kept_refl (s : State) : kept s s.
Proof. now repeat split. Qed.

Lemma kept_trans (s1 s2 s3 : State) : kept s1 s2 -> kept s2 s3 -> kept s1 s3.
Proof. unfold kept. intros (-> & -> & ->) (-> & -> & ->). now repeat split. Qed.

Lemma kept_tallied (s s' : State) : kept s s' -> tallied s -> tallied s'.
Proof. unfold kept, tallied. intros (-> & -> & ->). auto. Qed.

Lemma frame_ret {A : Type} (a : A) : frame (ret a).
Proof. intros s. apply kept_refl. Qed.

Lemma frame_throw {A : Type} (e : Thrown) : frame (@throw A e).
Proof. intros s. apply kept_refl. Qed.

Lemma frame_bind {A B : Type} (m : M A) (k : A -> M B) :
  frame m -> (forall a, frame (k a)) -> frame (bind m k).
Proof.
  intros Hm Hk s. unfold bind. specialize (Hm s).
  destruct (m s) as [s1 [a | e]]; simpl in *; [| exact Hm].
  eapply kept_trans; [exact Hm | apply Hk].
Qed.

Lemma frame_tryCatch {A : Type} (m : M A) (handler : Thrown -> M A) :
  frame m -> (forall e, frame (handler e)) -> frame (tryCatch m handler).
Proof.
  intros Hm Hh s. unfold tryCatch. specialize (Hm s).
  destruct (m s) as [s1 [a | e]]; simpl in *; [exact Hm |].
  eapply kept_trans; [exact Hm | apply Hh].
Qed.

Lemma frame_now : frame (now host).
Proof. intros s. now repeat split. Qed.

Lemma frame_whenGiven {F : Type} (callback : option F) (call : Call)
    (apply : F -> list Call -> option Thrown) :
  frame (whenGiven callback call apply).
Proof.
  intros s. unfold whenGiven, invoke, ret. destruct callback as [f |];
    [| apply kept_refl].
  destruct (apply f (calls s)); now repeat split.
Qed.

Lemma frame_notifyStart (nodeId : string) :
  frame (notifyStart callbacks nodeId).
Proof. apply frame_whenGiven. Qed.

Lemma frame_notifyComplete (nodeId : string) (r : NodeExecutionResult) :
  frame (notifyComplete callbacks nodeId r).
Proof. apply frame_whenGiven. Qed.

Lemma frame_addLog nodeId nodeName type message data :
  frame (addLog host callbacks nodeId nodeName type message data).
Proof.
  unfold addLog. apply frame_bind; [apply frame_now |]. intros stamp.
  apply frame_bind; [| intros _; apply frame_whenGiven].
  intros s. now repeat split.
Qed.

Lemma frame_call (i : Z) (url : string) (options : RequestInit) :
  frame (call host i url options).
Proof.
  unfold call.
  destruct (respond host i url options) as [m | ok st txt [d | m]];
    try apply frame_throw.
  destruct (negb ok); [apply frame_throw | apply frame_ret].
Qed.

Lemma frame_executeNode (node : CodeNode) (i : Z) :
  frame (executeNode host node i (addLog host callbacks)).
Proof.
  unfold executeNode. destruct (String.eqb (id node) ENTRY).
  - apply frame_bind; [apply frame_addLog |]. intros _.
    apply frame_bind; [apply frame_now |]. intros stamp. apply frame_ret.
  - destruct (Js.at_ API_ENDPOINTS _) as [endpoint |]; [| apply frame_throw].
    apply frame_bind; [apply frame_addLog |]. intros _.
    apply frame_tryCatch.
    + apply frame_bind; [apply frame_addLog |]. intros _.
      apply frame_bind; [apply frame_call |]. intros received.
      apply frame_bind; [apply frame_addLog |]. intros _. apply frame_ret.
    + intros e. destruct (errorMessageOf e); [| apply frame_throw].
      apply frame_bind; [apply frame_addLog |]. intros _. apply frame_ret.
Qed.

Lemma frame_recover (node : CodeNode) (nodeId : string) (e : Thrown) :
  frame (recover host callbacks node nodeId e).
Proof.
  unfold recover. destruct (errorMessageOf e); [| apply frame_throw].
  apply frame_bind; [apply frame_addLog |]. intros _.
  apply frame_whenGiven.
Qed.

Lemma lastOutput_snoc results (nodeId : string) (r : NodeExecutionResult) :
  lastOutput (results ++ [(nodeId, r)])
  = if success r then CodeExecutor.read (output r) else lastOutput results.
Proof. unfold lastOutput. now rewrite fold_left_app. Qed.

Lemma lastOutput_none results :
  filter succeeded results = [] -> lastOutput results = JNull.
Proof.
  induction results as [| [nodeId r] results IH] using rev_ind;
    [reflexivity |].
  rewrite filter_app, lastOutput_snoc. unfold succeeded at 2. simpl.
  destruct (success r); intros H.
  - now destruct (filter succeeded results).
  - rewrite app_nil_r in H. auto.
Qed.

(** What the [try] block of a pass does to the tallies: either
    [executeNode] threw and nothing changed, or it returned a result that
    was settled and, if successful, tallied at once. *)
Lemma attempt_settles (node : CodeNode) (i : nat) (nodeId : string)
    (s s' : State) (outcome : unit + Thrown) :
  attempt host callbacks node i nodeId s = (s', outcome) ->
  kept s s'
  \/ exists r,
       settled s' = settled s ++ [(nodeId, r)]
       /\ stCompleted s'
          = stCompleted s ++ (if success r then [nodeId] else [])
       /\ stFinalOutput s'
          = if success r then CodeExecutor.read (output r)
            else stFinalOutput s.
Proof.
  unfold attempt. intros Hrun.
  pose proof (frame_executeNode node (Z.of_nat i) s) as Hexec.
  destruct (executeNode host node (Z.of_nat i) (addLog host callbacks) s)
    as [s1 [r | e]] eqn:Hnode; simpl in Hexec.
  - right. exists r. destruct Hexec as (Hc & Hf & Hs).
    rewrite (bind_returned _ _ _ _ _ Hnode) in Hrun.
    unfold settle in Hrun. rewrite bind_update in Hrun.
    destruct (success r) eqn:Hok.
    + rewrite bind_assoc in Hrun. unfold complete in Hrun.
      rewrite bind_update in Hrun.
      match type of Hrun with
      | bind ?m ?k ?s0 = _ =>
          destruct (frame_bind m k (frame_addLog _ _ _ _ _)
                      (fun _ => frame_whenGiven _ _ _) s0)
            as (Hc' & Hf' & Hs')
      end.
      rewrite Hrun in Hc', Hf', Hs'. simpl in Hc', Hf', Hs'.
      rewrite Hc', Hf', Hs', Hc, Hs. now repeat split.
    + match type of Hrun with
      | bind ?m ?k ?s0 = _ =>
          destruct (frame_bind m k (frame_addLog _ _ _ _ _)
                      (fun _ => frame_whenGiven _ _ _) s0)
            as (Hc' & Hf' & Hs')
      end.
      rewrite Hrun in Hc', Hf', Hs'. simpl in Hc', Hf', Hs'.
      rewrite Hc', Hf', Hs', Hc, Hf, Hs.
      rewrite app_nil_r. now repeat split.
  - left. rewrite (bind_thrown _ _ _ _ _ Hnode) in Hrun.
    injection Hrun as <- _. exact Hexec.
Qed.

Lemma bind_inv {A B : Type} (m : M A) (k : A -> M B) (s s' : State)
    (outcome : B + Thrown) :
  bind m k s = (s', outcome) ->
  (exists s1 a, m s = (s1, inl a) /\ k a s1 = (s', outcome))
  \/ (exists e, m s = (s', inr e) /\ outcome = inr e).
Proof.
  unfold bind. destruct (m s) as [s1 [a | e]]; intros H.
  - left. now exists s1, a.
  - right. injection H as <- <-. now exists e.
Qed.

Lemma tryCatch_inv {A : Type} (m : M A) (handler : Thrown -> M A)
    (s s' : State) (outcome : A + Thrown) :
  tryCatch m handler s = (s', outcome) ->
  (exists a, m s = (s', inl a) /\ outcome = inl a)
  \/ (exists s1 e, m s = (s1, inr e) /\ handler e s1 = (s', outcome)).
Proof.
  unfold tryCatch. destruct (m s) as [s1 [a | e]]; intros H.
  - left. injection H as <- <-. now exists a.
  - right. now exists s1, e.
Qed.

Lemma frame_run {A : Type} (m : M A) (s s' : State) (outcome : A + Thrown) :
  frame m -> m s = (s', outcome) -> kept s s'.
Proof. intros Hm H. specialize (Hm s). now rewrite H in Hm. Qed.

(** [addLog] pushes its record before it calls [onLog]: the record is in
    the logs whether [onLog] returns or throws. *)
Lemma addLog_pushes nodeId nodeName type message data (s s' : State)
    (outcome : unit + Thrown) :
  addLog host callbacks nodeId nodeName type message data s = (s', outcome) ->
  stLogs s' = stLogs s ++ [recordAt host s nodeId nodeName type message data].
Proof.
  unfold addLog, bind, now, pushLog, update, whenGiven, invoke, ret. simpl.
  destruct (onLog callbacks) as [f |];
    [ match goal with
      | |- context [f ?h ?l] => destruct (f h l)
      end | ];
    intros H; injection H as <- _; reflexivity.
Qed.

Lemma advanced_kept_l (nodeId : string) (s1 s2 s3 : State) :
  kept s1 s2 -> advanced nodeId s2 s3 -> advanced nodeId s1 s3.
Proof.
  intros Hk [Ha | [r (Hs & Hc & Hf)]].
  - left. eapply kept_trans; eauto.
  - right. exists r. destruct Hk as (Hc1 & Hf1 & Hs1).
    rewrite Hs, Hc, Hf, Hc1, Hf1, Hs1. repeat split; reflexivity.
Qed.

Lemma advanced_kept_r (nodeId : string) (s1 s2 s3 : State) :
  advanced nodeId s1 s2 -> kept s2 s3 -> advanced nodeId s1 s3.
Proof.
  intros [Ha | [r (Hs & Hc & Hf)]] Hk.
  - left. eapply kept_trans; eauto.
  - right. exists r. destruct Hk as (Hc1 & Hf1 & Hs1).
    rewrite Hc1, Hf1, Hs1. repeat split; assumption.
Qed.

Lemma advanced_tallied (nodeId : string) (s s' : State) :
  advanced nodeId s s' -> tallied s -> tallied s'.
Proof.
  intros [Hk | [r (Hs & Hc & Hf)]] Ht; [eapply kept_tallied; eauto |].
  destruct Ht as [Htc Htf]. unfold tallied.
  rewrite Hs, Hc, Hf, filter_app, map_app, lastOutput_snoc, Htc, Htf.
  split; [| reflexivity]. f_equal.
  cbn [filter]. unfold succeeded at 1. cbn [snd].
  now destruct (success r).
Qed.

Lemma iteration_advances (i : nat) (nodeId : string) (s s' : State)
    (outcome : unit + Thrown) :
  iteration host callbacks nodes i nodeId s = (s', outcome) ->
  advanced nodeId s s'.
Proof.
  unfold iteration. destruct (findNode nodes nodeId) as [node |].
  - intros H.
    apply bind_inv in H as [(s1 & [] & H1 & H) | (e & H1 & _)];
      [| left; eapply frame_run; [apply frame_addLog | exact H1]].
    apply (advanced_kept_l nodeId s s1);
      [eapply frame_run; [apply frame_addLog | exact H1] |].
    apply bind_inv in H as [(s2 & [] & H2 & H) | (e & H2 & _)];
      [| left; eapply frame_run; [apply frame_notifyStart | exact H2]].
    apply (advanced_kept_l nodeId s1 s2);
      [eapply frame_run; [apply frame_notifyStart | exact H2] |].
    apply tryCatch_inv in H as [(a & H3 & _) | (s3 & e & H3 & H4)].
    + eapply attempt_settles; exact H3.
    + apply (advanced_kept_r nodeId s2 s3).
      * eapply attempt_settles; exact H3.
      * eapply frame_run; [apply frame_recover | exact H4].
  - intros H. left. eapply frame_run; [apply frame_addLog | exact H].
Qed.

Lemma subsequence_nil_l {A : Type} (l : list A) : subsequence [] l.
Proof. induction l; now constructor. Qed.

Lemma subsequence_refl {A : Type} (l : list A) : subsequence l l.
Proof. induction l; now constructor. Qed.

(** The loop keeps the tallies right, and the results it settles belong
    to entries of the queue, in queue order. *)
Lemma forLoop_tallies (rest : list string) :
  forall i s s' outcome,
    forLoop host callbacks nodes i rest s = (s', outcome) ->
    tallied s ->
    tallied s'
    /\ exists done,
         map fst (settled s') = map fst (settled s) ++ done
         /\ subsequence done rest.
Proof.
  induction rest as [| nodeId rest IH]; intros i s s' outcome H Ht.
  - injection H as <- _. split; [exact Ht |].
    exists []. rewrite app_nil_r. split; [reflexivity | constructor].
  - cbn [forLoop] in H.
    assert (Hstep : forall s1 out1,
               iteration host callbacks nodes i nodeId s = (s1, out1) ->
               tallied s1
               /\ exists done,
                    map fst (settled s1) = map fst (settled s) ++ done
                    /\ (done = [] \/ done = [nodeId])).
    { intros s1 out1 H1. pose proof (iteration_advances _ _ _ _ _ H1) as Ha.
      split; [eapply advanced_tallied; eauto |].
      destruct Ha as [(_ & _ & ->) | [r (-> & _)]].
      - exists []. rewrite app_nil_r. auto.
      - exists [nodeId]. rewrite map_app. auto. }
    apply bind_inv in H as [(s1 & [] & H1 & H) | (e & H1 & _)].
    + destruct (Hstep _ _ H1) as [Ht1 (done1 & Hd1 & Hcase)].
      destruct (IH _ _ _ _ H Ht1) as [Ht2 (done2 & Hd2 & Hsub)].
      split; [exact Ht2 |].
      exists (done1 ++ done2). rewrite Hd2, Hd1, app_assoc.
      split; [reflexivity |].
      destruct Hcase as [-> | ->]; simpl; now constructor.
    + destruct (Hstep _ _ H1) as [Ht1 (done1 & Hd1 & Hcase)].
      split; [exact Ht1 |]. exists done1. split; [exact Hd1 |].
      destruct Hcase as [-> | ->];
        [apply subsequence_nil_l |].
      constructor. apply subsequence_nil_l.
Qed.

Lemma wholeQueue_inv (s s' : State)
    (outcome : QueueExecutionResult + Thrown) :
  wholeQueue host callbacks nodes (createExecutionQueue nodes) s
  = (s', outcome) ->
  exists s2 out2,
    forLoop host callbacks nodes 0 (createExecutionQueue nodes) s
    = (s2, out2)
    /\ kept s2 s'
    /\ (forall r, outcome = inl r ->
                  out2 = inl tt /\ carries nodes r s'
                  /\ runSuccess r = true
                  /\ finalOutput r = Some (stFinalOutput s')
                  /\ stLogs s'
                     = stLogs s2
                       ++ [recordAt host s2 "system" "System" success_
                             "Workflow execution completed successfully"
                             None])
    /\ (forall e, outcome = inr e ->
                  (out2 = inr e /\ s' = s2)
                  \/ (out2 = inl tt
                      /\ addLog host callbacks "system" "System" success_
                           "Workflow execution completed successfully" None
                           s2 = (s', inr e))).
Proof.
  unfold wholeQueue. intros H.
  apply bind_inv in H as [(s2 & [] & H2 & H) | (e & H2 & ->)].
  - exists s2, (inl tt). split; [exact H2 |].
    apply bind_inv in H as [(s3 & [] & H3 & H) | (e & H3 & ->)].
    + pose proof (frame_run _ _ _ _ (frame_addLog _ _ _ _ _) H3) as Hk.
      apply addLog_pushes in H3.
      unfold bind, get, ret in H. injection H as <- <-.
      split; [exact Hk |]. split.
      * intros r Hr. injection Hr as <-. simpl.
        unfold carries. simpl. now repeat split.
      * intros e He. discriminate.
    + split; [eapply frame_run; [apply frame_addLog | exact H3] |].
      split; [intros r Hr; discriminate |].
      intros e' He'. injection He' as <-. right. now split.
  - exists s', (inr e). split; [exact H2 |]. split; [apply kept_refl |].
    split; [intros r Hr; discriminate |].
    intros e' He'. injection He' as <-. left. now split.
Qed.

Lemma abandon_inv (error : Thrown) (s s' : State)
    (r : QueueExecutionResult) :
  abandon host callbacks (createExecutionQueue nodes) error s = (s', inl r) ->
  exists errorMessage,
    errorMessageOf error = inl errorMessage
    /\ carries nodes r s'
    /\ runSuccess r = false
    /\ runError r = Some errorMessage
    /\ finalOutput r = None
    /\ stLogs s'
       = stLogs s
         ++ [recordAt host s "system" "System" error_
               ("Workflow execution failed: " ++ errorMessage)%string None].
Proof.
  unfold abandon. destruct (errorMessageOf error) as [msg |];
    [| discriminate].
  intros H. exists msg. split; [reflexivity |].
  apply bind_inv in H as [(s3 & [] & H3 & H) | (e & _ & He)];
    [| discriminate].
  apply addLog_pushes in H3.
  unfold bind, get, ret in H. injection H as <- <-.
  unfold carries. simpl. now repeat split.
Qed.

Lemma frame_abandon (error : Thrown) :
  frame (abandon host callbacks (createExecutionQueue nodes) error).
Proof.
  unfold abandon. destruct (errorMessageOf error); [| apply frame_throw].
  apply frame_bind; [apply frame_addLog |]. intros _.
  apply frame_bind; [intros s0; apply kept_refl |]. intros s0.
  apply frame_ret.
Qed.

(** How a run of [executeFlow] can end.  Whenever the promise resolves,
    the opening record was logged and either the loop and the closing
    record went through and the result is the successful one, or the
    outer [try] block raised, and the result is the failed one, with the
    message of what was raised and the logs up to there followed by the
    failure record. *)
Lemma executeFlow_inv (edges : list Edge) (s s' : State)
    (r : QueueExecutionResult) :
  executeFlow host nodes edges callbacks s = (s', inl r) ->
  exists s1,
    announce host callbacks (createExecutionQueue nodes) (fresh s)
    = (s1, inl tt)
    /\ carries nodes r s'
    /\ ((runSuccess r = true
         /\ finalOutput r = Some (stFinalOutput s')
         /\ exists s2,
              forLoop host callbacks nodes 0 (createExecutionQueue nodes) s1
              = (s2, inl tt)
              /\ stLogs s'
                 = stLogs s2
                   ++ [recordAt host s2 "system" "System" success_
                         "Workflow execution completed successfully" None])
        \/ (runSuccess r = false
            /\ finalOutput r = None
            /\ exists s2 e errorMessage,
                 wholeQueue host callbacks nodes
                   (createExecutionQueue nodes) s1 = (s2, inr e)
                 /\ errorMessageOf e = inl errorMessage
                 /\ runError r = Some errorMessage
                 /\ stLogs s'
                    = stLogs s2
                      ++ [recordAt host s2 "system" "System" error_
                            ("Workflow execution failed: "
                             ++ errorMessage)%string None])).
Proof.
  unfold executeFlow. intros H. rewrite bind_update in H.
  apply bind_inv in H as [(s1 & [] & H1 & H) | (e & _ & He)];
    [| discriminate].
  exists s1. split; [exact H1 |].
  apply tryCatch_inv in H as [(a & H2 & Ha) | (s2 & e & H2 & H3)].
  - injection Ha as <-.
    destruct (wholeQueue_inv _ _ _ H2) as (s2 & out2 & Hloop & _ & Hok & _).
    destruct (Hok r eq_refl) as (-> & Hcar & Hsucc & Hfin & Hlogs).
    split; [exact Hcar |]. left. split; [exact Hsucc |].
    split; [exact Hfin |]. now exists s2.
  - destruct (abandon_inv _ _ _ _ H3)
      as (msg & Hmsg & Hcar & Hfail & Herr & Hfin & Hlogs).
    split; [exact Hcar |]. right. split; [exact Hfail |].
    split; [exact Hfin |]. now exists s2, e, msg.
Qed.

(** How a run ends once the outer [try] block has raised: the outer
    [catch] builds the message, logs the failure record and returns the
    failed result, unless the message cannot be built or [onLog] throws
    on that record; then the promise rejects. *)
Lemma executeFlow_abandons (edges : list Edge) (s s1 s2 : State)
    (e : Thrown) :
  announce host callbacks (createExecutionQueue nodes) (fresh s)
  = (s1, inl tt) ->
  wholeQueue host callbacks nodes (createExecutionQueue nodes) s1
  = (s2, inr e) ->
  executeFlow host nodes edges callbacks s
  = match errorMessageOf e with
    | inr raised => (s2, inr raised)
    | inl errorMessage =>
        (failureLogged host callbacks s2 errorMessage,
         match logAnswer callbacks (calls s2)
                 (failureRecord host s2 errorMessage) with
         | None => inl (abandoned host nodes s2 errorMessage)
         | Some thrown => inr thrown
         end)
    end.
Proof.
  intros Hopen Hbody. unfold executeFlow. rewrite bind_update.
  rewrite (bind_returned _ _ _ _ _ Hopen). unfold tryCatch.
  rewrite Hbody. unfold abandon.
  destruct (errorMessageOf e) as [errorMessage | raised]; [| reflexivity].
  unfold addLog, bind, now, pushLog, update, whenGiven, invoke, get, ret,
    logAnswer, failureLogged, logged, abandoned, failureRecord, recordAt,
    heard.
  destruct (onLog callbacks) as [f |]; cbn;
    [| now rewrite app_nil_r].
  match goal with
  | |- context [f ?h ?l] => destruct (f h l)
  end; reflexivity.
Qed.

(** The tallies at the end of any run, however it ends. *)
Lemma executeFlow_tallies (edges : list Edge) (s s' : State)
    (outcome : QueueExecutionResult + Thrown) :
  executeFlow host nodes edges callbacks s = (s', outcome) ->
  tallied s'
  /\ subsequence (map fst (settled s')) (createExecutionQueue nodes).
Proof.
  unfold executeFlow. intros H. rewrite bind_update in H.
  assert (Hfresh : tallied (fresh s)) by (split; reflexivity).
  assert (Hloop : forall s1 s2 out2,
             kept (fresh s) s1 ->
             forLoop host callbacks nodes 0 (createExecutionQueue nodes) s1
             = (s2, out2) ->
             tallied s2
             /\ subsequence (map fst (settled s2))
                  (createExecutionQueue nodes)).
  { intros s1 s2 out2 Hk Hrun.
    destruct (forLoop_tallies _ _ _ _ _ Hrun (kept_tallied _ _ Hk Hfresh))
      as [Ht (done & Hd & Hsub)].
    split; [exact Ht |]. rewrite Hd.
    destruct Hk as (_ & _ & ->). exact Hsub. }
  assert (Hkept : forall s2 s3,
             tallied s2
             /\ subsequence (map fst (settled s2))
                  (createExecutionQueue nodes) ->
             kept s2 s3 ->
             tallied s3
             /\ subsequence (map fst (settled s3))
                  (createExecutionQueue nodes)).
  { intros s2 s3 [Ht Hsub] Hk. split; [eapply kept_tallied; eauto |].
    destruct Hk as (_ & _ & ->). exact Hsub. }
  apply bind_inv in H as [(s1 & [] & H1 & H) | (e & H1 & _)].
  - pose proof (frame_run _ _ _ _ (frame_addLog _ _ _ _ _) H1) as Hk1.
    apply tryCatch_inv in H as [(a & H2 & _) | (s2 & e & H2 & H3)].
    + destruct (wholeQueue_inv _ _ _ H2) as (s2 & out2 & Hrun & Hk2 & _).
      eapply Hkept; [eapply Hloop; eauto | exact Hk2].
    + destruct (wholeQueue_inv _ _ _ H2) as (s3 & out3 & Hrun & Hk3 & _).
      eapply Hkept;
        [ eapply Hkept; [eapply Hloop; eauto | exact Hk3]
        | eapply frame_run; [apply frame_abandon | exact H3] ].
  - pose proof (frame_run _ _ _ _ (frame_addLog _ _ _ _ _) H1) as Hk1.
    apply (Hkept (fresh s)); [| exact Hk1].
    split; [exact Hfresh | apply subsequence_nil_l].
Qed.

(** The inner [catch]: when the [try] block of a pass raises and the
    message of what it raised can be built, the pass goes on as the
    handler: it logs the error record and reports the failed result. *)
Lemma iteration_recovers (i : nat) (nodeId : string) (node : CodeNode)
    (s s1 s2 : State) (e : Thrown) (errorMessage : string) :
  findNode nodes nodeId = Some node ->
  (addLog host callbacks nodeId (label (data node)) info
     ("Executing node: " ++ label (data node))%string None ;;
   notifyStart callbacks nodeId) s = (s1, inl tt) ->
  attempt host callbacks node i nodeId s1 = (s2, inr e) ->
  errorMessageOf e = inl errorMessage ->
  iteration host callbacks nodes i nodeId s
  = (addLog host callbacks nodeId (label (data node)) error_
       ("Execution error: " ++ errorMessage)%string None ;;
     notifyComplete callbacks nodeId (failedResult errorMessage)) s2.
Proof.
  intros Hfind Hstart Htry Hmsg. unfold iteration. rewrite Hfind.
  rewrite <- bind_assoc. rewrite (bind_returned _ _ _ _ _ Hstart).
  unfold tryCatch. rewrite Htry. unfold recover. now rewrite Hmsg.
Qed.

End AnyRun.

(* ===================================================================== *)
(** * QueueFlowExecutor: the claims *)
(* ===================================================================== *)

Section QueueClaims.
Import QueueFlowExecutor.
Local Open Scope list_scope.
Local Open Scope run_scope.

(** C1, at the failing input: the id [node-abc] has no parseable token;
    [parseInt] gives it the creation time [NaN], not 0, the comparator
    answers [NaN] for it against any node, and the sort leaves it where it
    stood, behind [node-5], where an id ordered as token 0 would stand
    before it. *)
Theorem unparseable_token_is_not_ordered_as_zero :
  let nodes := [Samples.blank "input-node"; Samples.blank "node-5";
                Samples.blank "node-abc"] in
  createExecutionQueue nodes = ["input-node"; "node-5"; "node-abc"]
  /\ creationTime (Samples.blank "node-abc") = NaN
  /\ creationTime (Samples.blank "node-5") = Finite 5
  /\ creationTime (Samples.blank "node") = Finite 0
  /\ byCreationTime (Samples.blank "node-5") (Samples.blank "node-abc")
     = NaN
  /\ byCreationTime (Samples.blank "node-abc") (Samples.blank "node-5")
     = NaN
  /\ ~ ascendingBy tokenOrZero
        [Samples.blank "node-5"; Samples.blank "node-abc"].
Proof.
  repeat (split; [reflexivity |]).
  intros H. inversion H as [| ? ? _ Hhead]; subst.
  inversion Hhead as [| ? ? Hlt _]; subst. discriminate Hlt.
Qed.

(** C7, as the claim states it, fails: the run of the queue made of the
    entry node alone logs five records, not [2 * 1 + 2]. *)
Lemma entry_alone_logs_five_records :
  match executeFlow Samples.host [Samples.blank "input-node"] []
          Samples.silent Samples.start with
  | (_, inl r) =>
      List.length (executionQueue r) = 1%nat
      /\ List.length (logs r) = 5%nat
      /\ List.length (logs r) <> (2 * List.length (executionQueue r) + 2)%nat
  | (_, inr _) => False
  end.
Proof. vm_compute. repeat split; discriminate. Qed.

(** C7, amended: with callbacks that do not throw, a run over a queue of
    length [n] logs one leading and one trailing system record and, for
    each queue entry in turn, the records of its pass, all carrying its
    id: the start record, then for the entry node one more [info] record
    and one [success] record, and for any other node two more [info]
    records and two terminal records of one severity, [success] or
    [error].  That makes [5 * n] records for a queue that is not empty,
    and 2 for the empty queue; [n] of them are start records, and the
    passes hold [2 * n - 1] terminal records. *)
Theorem run_logs_five_records_per_node
    (host : Host) (callbacks : Callbacks) (nodes : list CodeNode)
    (edges : list Edge) (s : State) :
  quiet callbacks ->
  exists r s' leading passes trailing,
    executeFlow host nodes edges callbacks s = (s', inl r)
    /\ runSuccess r = true
    /\ logs r = leading :: concat passes ++ [trailing]
    /\ (nodeId leading = "system" /\ type leading = info)
    /\ (nodeId trailing = "system" /\ type trailing = success_)
    /\ Forall2 passOf (createExecutionQueue nodes) passes
    /\ List.length (logs r)
       = match createExecutionQueue nodes with
         | [] => 2%nat
         | queue => (5 * List.length queue)%nat
         end
    /\ List.length (filter isStart (logs r))
       = List.length (createExecutionQueue nodes)
    /\ List.length (filter isTerminal (concat passes))
       = match createExecutionQueue nodes with
         | [] => 0%nat
         | _ :: rest => (1 + 2 * List.length rest)%nat
         end.
Proof.
  intros (Hstart & Hcomplete & Hlog).
  destruct (executeFlow_quiet host callbacks Hlog Hstart nodes Hcomplete
              edges s)
    as (r & s' & leading & passes & trailing & Hrun & Hok & _ & _ & _ & _
        & Hlogs & (Hlead & Hinfo & Hnot) & Htrail & Hpasses & _).
  exists r, s', leading, passes, trailing.
  split; [exact Hrun |]. split; [exact Hok |]. split; [exact Hlogs |].
  split; [now split |]. split; [exact Htrail |]. split; [exact Hpasses |].
  pose proof (queue_tail_not_entry nodes) as Htail.
  pose proof (queue_placed nodes) as Hhead.
  split; [| split].
  - rewrite Hlogs. cbn [List.length]. rewrite length_app. cbn [List.length].
    destruct (createExecutionQueue nodes) as [| first rest].
    + inversion Hpasses. reflexivity.
    + inversion Hpasses as [| ? records ? others Hfirst Hrest]; subst.
      destruct Hhead as [-> | Hlt]; [| lia].
      cbn [tl] in Htail. simpl concat. rewrite length_app.
      rewrite (passes_length rest others Hrest Htail).
      destruct Hfirst as (_ & [ok Hok'] & _).
      rewrite <- (length_map type records), Hok'. cbn. lia.
  - rewrite Hlogs. cbn [filter]. rewrite Hnot, filter_app, length_app.
    rewrite (proj1 (passes_counts _ _ Hpasses)).
    destruct Htrail as [_ Htype]. cbn [filter]. unfold isStart.
    rewrite Htype. cbn [List.length]. lia.
  - destruct (createExecutionQueue nodes) as [| first rest].
    + inversion Hpasses. reflexivity.
    + inversion Hpasses as [| ? records ? others Hfirst Hrest]; subst.
      destruct Hhead as [-> | Hlt]; [| lia].
      cbn [tl] in Htail. cbn [concat]. rewrite filter_app, length_app.
      rewrite (pass_terminals _ _ Hfirst).
      rewrite (proj2 (passes_counts _ _ Hrest) Htail). reflexivity.
Qed.

Lemma run_logs_five_records_per_node_witness :
  exists r s',
    executeFlow Samples.host Samples.scenario [] Samples.silent Samples.start
    = (s', inl r)
    /\ List.length (logs r) = 15%nat.
Proof.
  assert (Hquiet : quiet Samples.silent)
    by (repeat split; intros f Hf; discriminate Hf).
  destruct (run_logs_five_records_per_node Samples.host Samples.silent
              Samples.scenario [] Samples.start Hquiet)
    as (r & s' & _ & _ & _ & Hrun & _ & _ & _ & _ & _ & Hlen & _).
  exists r, s'. split; [exact Hrun | exact Hlen].
Defined.

(** C2: a node whose execution fails or throws does not stop the run.
    (1) Whatever the network answers for each node, and even when
    [onNodeComplete] throws on successful results, provided no other
    callback throws, the promise resolves to a result with
    [success: true], [executeNode] has returned for every queue entry in
    turn, and every failed result it returned has an [error] record in
    the logs and was handed to [onNodeComplete].
    (2) With any callbacks, when the [try] block of a pass throws and the
    message of the thrown value can be built, the pass goes on as the
    handler: the error is logged, the failed result is handed to
    [onNodeComplete], and nothing is thrown unless these two throw.
    (3) With any callbacks, a result the promise resolves to is either the
    one with [success: true], returned after the loop went through the
    whole queue, or the one with [success: false], returned because the
    outer [try] block raised, which carries the message and the logs
    accumulated until then followed by the failure record.
    (4) With any callbacks, when the outer [try] block raises, the
    promise resolves to that failed result, with the nodes completed
    and the logs accumulated until then followed by the failure record,
    provided the message of the raised value can be built and [onLog]
    returns on the failure record; when [onLog] throws on it, or the
    message cannot be built, the promise rejects, with the value [onLog]
    threw or the one the conversion raised. *)
Theorem node_failure_does_not_stop_the_run
    (host : Host) (callbacks : Callbacks) (nodes : list CodeNode)
    (edges : list Edge) :
  (tolerable callbacks ->
   forall s, exists r s',
     executeFlow host nodes edges callbacks s = (s', inl r)
     /\ runSuccess r = true
     /\ map fst (settled s') = createExecutionQueue nodes
     /\ forall nodeId result,
          In (nodeId, result) (settled s') -> success result = false ->
          (exists l, In l (logs r) /\ type l = error_
                     /\ QueueFlowExecutor.nodeId l = nodeId
                     /\ message l
                        = Js.orElse (error result) "Execution failed")
          /\ (forall f, onNodeComplete callbacks = Some f ->
                        In (CompleteCall nodeId result) (calls s')))
  /\ (forall i nodeId node s s1 s2 e errorMessage,
        findNode nodes nodeId = Some node ->
        (addLog host callbacks nodeId (label (data node)) info
           ("Executing node: " ++ label (data node))%string None ;;
         notifyStart callbacks nodeId) s = (s1, inl tt) ->
        attempt host callbacks node i nodeId s1 = (s2, inr e) ->
        errorMessageOf e = inl errorMessage ->
        iteration host callbacks nodes i nodeId s
        = (addLog host callbacks nodeId (label (data node)) error_
             ("Execution error: " ++ errorMessage)%string None ;;
           notifyComplete callbacks nodeId (failedResult errorMessage)) s2)
  /\ (forall s s' r,
        executeFlow host nodes edges callbacks s = (s', inl r) ->
        logs r = stLogs s'
        /\ ((runSuccess r = true
             /\ exists s1 s2,
                  announce host callbacks (createExecutionQueue nodes)
                    (fresh s) = (s1, inl tt)
                  /\ forLoop host callbacks nodes 0
                       (createExecutionQueue nodes) s1 = (s2, inl tt)
                  /\ logs r
                     = stLogs s2
                       ++ [recordAt host s2 "system" "System" success_
                             "Workflow execution completed successfully"
                             None])
            \/ (runSuccess r = false
                /\ exists s1 s2 e errorMessage,
                     announce host callbacks (createExecutionQueue nodes)
                       (fresh s) = (s1, inl tt)
                     /\ wholeQueue host callbacks nodes
                          (createExecutionQueue nodes) s1 = (s2, inr e)
                     /\ errorMessageOf e = inl errorMessage
                     /\ runError r = Some errorMessage
                     /\ logs r
                        = stLogs s2
                          ++ [recordAt host s2 "system" "System" error_
                                ("Workflow execution failed: "
                                 ++ errorMessage)%string None])))
  /\ (forall s s1 s2 e,
        announce host callbacks (createExecutionQueue nodes) (fresh s)
        = (s1, inl tt) ->
        wholeQueue host callbacks nodes (createExecutionQueue nodes) s1
        = (s2, inr e) ->
        (forall errorMessage,
            errorMessageOf e = inl errorMessage ->
            logAnswer callbacks (calls s2)
              (failureRecord host s2 errorMessage) = None ->
            executeFlow host nodes edges callbacks s
            = (failureLogged host callbacks s2 errorMessage,
               inl (abandoned host nodes s2 errorMessage)))
        /\ (forall errorMessage thrown,
              errorMessageOf e = inl errorMessage ->
              logAnswer callbacks (calls s2)
                (failureRecord host s2 errorMessage) = Some thrown ->
              executeFlow host nodes edges callbacks s
              = (failureLogged host callbacks s2 errorMessage, inr thrown))
        /\ (forall raised,
              errorMessageOf e = inr raised ->
              executeFlow host nodes edges callbacks s = (s2, inr raised))).
Proof.
  split; [| split; [| split]]; cycle 3.
  { intros s s1 s2 e Hopen Hbody.
    pose proof (executeFlow_abandons host callbacks nodes edges s s1 s2 e
                  Hopen Hbody) as Hrun.
    repeat split.
    - intros errorMessage Hmessage Hlog.
      now rewrite Hmessage, Hlog in Hrun.
    - intros errorMessage thrown Hmessage Hlog.
      now rewrite Hmessage, Hlog in Hrun.
    - intros raised Hmessage. now rewrite Hmessage in Hrun. }
  - intros (Hstart & Hcareful & Hlog) s.
    destruct (executeFlow_careful host callbacks Hlog Hstart nodes Hcareful
                edges s)
      as (r & s' & Hrun & Hok & Hlogs & Hsettled & Hrep).
    exists r, s'. split; [exact Hrun |]. split; [exact Hok |].
    split; [exact Hsettled |]. rewrite Hlogs. exact Hrep.
  - intros i nodeId node s s1 s2 e errorMessage.
    apply iteration_recovers.
  - intros s s' r Hrun.
    destruct (executeFlow_inv host callbacks nodes edges s s' r Hrun)
      as (s1 & Hopen & (_ & _ & Hlogs) & Hcases).
    split; [exact Hlogs |]. rewrite Hlogs.
    destruct Hcases as [(Hok & _ & s2 & Hloop & Hl)
                       | (Hfail & _ & s2 & e & msg & Hbody & Hmsg & Herr & Hl)].
    + left. split; [exact Hok |]. now exists s1, s2.
    + right. split; [exact Hfail |]. now exists s1, s2, e, msg.
Qed.

Lemma node_failure_does_not_stop_the_run_witness :
  (exists r s',
      executeFlow Samples.host Samples.scenario [] Samples.fragile
        Samples.start = (s', inl r)
      /\ runSuccess r = true
      /\ map fst (settled s') = ["input-node"; "node-1000"; "node-2000"])
  /\ snd (iteration Samples.host Samples.fragile
            [Samples.blank "input-node"] 0 "input-node" Samples.start)
     = inl tt
  /\ match executeFlow Samples.host Samples.scenario [] Samples.refusing
             Samples.start with
     | (s', inl r) => logs r = stLogs s' /\ runSuccess r = false
     | (_, inr _) => False
     end
  /\ (let s1 := fst (announce Samples.host Samples.refusing
                       (createExecutionQueue Samples.scenario)
                       (fresh Samples.start)) in
      let s2 := fst (wholeQueue Samples.host Samples.refusing
                       Samples.scenario
                       (createExecutionQueue Samples.scenario) s1) in
      executeFlow Samples.host Samples.scenario [] Samples.refusing
        Samples.start
      = (failureLogged Samples.host Samples.refusing s2 "not now",
         inl (abandoned Samples.host Samples.scenario s2 "not now"))).
Proof.
  split; [| split; [| split]]; cycle 3.
  { intros s1 s2.
    apply (proj1 (proj2 (proj2 (proj2 (node_failure_does_not_stop_the_run
                                         Samples.host Samples.refusing
                                         Samples.scenario [])))
                    Samples.start s1 s2 (ErrorObject "not now")
                    ltac:(vm_compute; reflexivity)
                    ltac:(vm_compute; reflexivity))
             "not now");
      reflexivity. }
  - assert (Hcareful : tolerable Samples.fragile).
    { split; [intros f Hf; discriminate Hf |].
      split; [| intros f Hf; discriminate Hf].
      intros f Hf history nodeId result e Hcall. injection Hf as <-.
      destruct (success result); [| discriminate Hcall].
      injection Hcall as <-. split; [reflexivity |].
      now exists "cannot render". }
    destruct (proj1 (node_failure_does_not_stop_the_run Samples.host
                       Samples.fragile Samples.scenario []) Hcareful
                Samples.start)
      as (r & s' & Hrun & Hok & Hsettled & _).
    exists r, s'. split; [exact Hrun |]. split; [exact Hok | exact Hsettled].
  - set (node := Samples.blank "input-node").
    set (s1 := fst ((addLog Samples.host Samples.fragile "input-node"
                       (label (data node)) info
                       ("Executing node: " ++ label (data node))%string None ;;
                     notifyStart Samples.fragile "input-node")
                      Samples.start)).
    set (s2 := fst (attempt Samples.host Samples.fragile node 0
                      "input-node" s1)).
    rewrite (proj1 (proj2 (node_failure_does_not_stop_the_run Samples.host
                             Samples.fragile [node] []))
               0%nat "input-node" node Samples.start s1 s2
               (ErrorObject "cannot render") "cannot render"
               eq_refl eq_refl eq_refl eq_refl).
    reflexivity.
  - destruct (executeFlow Samples.host Samples.scenario [] Samples.refusing
                Samples.start) as [s' [r | e]] eqn:Hrun;
      [| vm_compute in Hrun; discriminate Hrun].
    destruct (proj1 (proj2 (proj2 (node_failure_does_not_stop_the_run
                                     Samples.host Samples.refusing
                                     Samples.scenario [])))
                Samples.start s' r Hrun) as [Hlogs _].
    split; [exact Hlogs |].
    vm_compute in Hrun. injection Hrun as _ <-. reflexivity.
Defined.

(** A run in which [onNodeComplete] throws on every successful result:
    each throw is caught by the pass, logged and reported, and the run
    ends with [success: true] after the last queue entry. *)
Example throwing_callback_does_not_stop_the_run :
  match executeFlow Samples.host Samples.scenario [] Samples.fragile
          Samples.start with
  | (s', inl r) =>
      runSuccess r = true
      /\ completedNodes r = ["input-node"; "node-2000"]
      /\ map fst (settled s') = ["input-node"; "node-1000"; "node-2000"]
      /\ map message (filter (fun l => String.eqb (nodeId l) "node-2000")
                        (logs r))
         = ["Executing node: node-2000";
            "Using API endpoint: Basic Function Test";
            ("Making POST request to " ++ API_BASE_URL ++ "/execute")%string;
            "API call successful";
            "Node executed successfully";
            "Execution error: cannot render"]
  | (_, inr _) => False
  end.
Proof. vm_compute. repeat split. Qed.

(** C2, where the claim fails: an [onLog] that fails from its second
    record on.  The opening record goes through; the start record of the
    first pass makes the outer [try] block raise; the outer [catch] logs
    its failure record, [onLog] throws again, and the promise rejects:
    the run has no result, with [success: false] or otherwise. *)
Theorem failing_logger_rejects_the_run :
  let queue := createExecutionQueue Samples.scenario in
  let s1 := fst (announce Samples.host Samples.muted queue
                   (fresh Samples.start)) in
  let s2 := fst (wholeQueue Samples.host Samples.muted Samples.scenario
                   queue s1) in
  announce Samples.host Samples.muted queue (fresh Samples.start)
  = (s1, inl tt)
  /\ wholeQueue Samples.host Samples.muted Samples.scenario queue s1
     = (s2, inr (ErrorObject "logger down"))
  /\ snd (executeFlow Samples.host Samples.scenario [] Samples.muted
            Samples.start)
     = inr (ErrorObject "logger down")
  /\ stLogs (fst (executeFlow Samples.host Samples.scenario []
                    Samples.muted Samples.start))
     = stLogs s2 ++ [failureRecord Samples.host s2 "logger down"].
Proof. vm_compute. repeat split. Qed.

(** With results as the network dictates, the last successful output is
    the last body received, or the payload of the entry node when no
    request succeeded. *)
Lemma agreed_lastOutput (host : Host) (nodes : list CodeNode) (t : nat)
    (results : list (string * NodeExecutionResult)) :
  agrees host 0 (createExecutionQueue nodes) results ->
  headStamped host (t + 1) 0 (createExecutionQueue nodes) results ->
  lastOutput results = expectedOutput host t (createExecutionQueue nodes).
Proof.
  pose proof (queue_tail_not_entry nodes) as Htail.
  pose proof (queue_placed nodes) as Hhead.
  destruct (createExecutionQueue nodes) as [| first rest];
    destruct results as [| [nodeId r] results]; try contradiction;
    [reflexivity |].
  intros (-> & _ & Hagree) Hstamp.
  destruct Hhead as [-> | Habs]; [| lia].
  unfold headStamped, answers in Hstamp. rewrite String.eqb_refl in Hstamp.
  destruct Hstamp as [Hok Hout].
  unfold lastOutput, expectedOutput. cbn [fold_left snd tl] in *.
  rewrite Hok, Hout, (agrees_lastAnswer host 1 rest results Hagree Htail).
  replace (t + 1 + 2)%nat with (t + 3)%nat by lia. reflexivity.
Qed.

(** C9: at the end of every run of [executeFlow], however it ends,
    [completedNodes] lists the node ids of the successful results
    [executeNode] returned, in the order they were returned, which is the
    order of the queue, and [finalOutput] is the output of the last
    successful one: a failed result leaves it as it was, and it is [null]
    when no result was successful.  A result the promise resolves to
    carries that [completedNodes], and the successful result that
    [finalOutput].  When no callback throws, the promise resolves to the
    successful result, [executeNode] has returned for every queue entry,
    [completedNodes] is the entry node followed by the nodes whose request
    succeeded, and [finalOutput] the last body received (the payload of the
    entry node when no request succeeded, [null] for the empty queue). *)
Theorem tallies_follow_the_results
    (host : Host) (callbacks : Callbacks) (nodes : list CodeNode)
    (edges : list Edge) (s s' : State)
    (outcome : QueueExecutionResult + Thrown) :
  executeFlow host nodes edges callbacks s = (s', outcome) ->
  stCompleted s' = map fst (filter succeeded (settled s'))
  /\ stFinalOutput s' = lastOutput (settled s')
  /\ subsequence (map fst (settled s')) (createExecutionQueue nodes)
  /\ (forall r, outcome = inl r ->
                completedNodes r = map fst (filter succeeded (settled s'))
                /\ (runSuccess r = true ->
                    finalOutput r = Some (lastOutput (settled s'))))
  /\ (quiet callbacks ->
      exists r, outcome = inl r /\ runSuccess r = true
                /\ map fst (settled s') = createExecutionQueue nodes
                /\ completedNodes r
                   = succeeding host 0 (createExecutionQueue nodes)
                /\ finalOutput r
                   = Some (expectedOutput host (time s)
                             (createExecutionQueue nodes)))
  /\ (forall results nodeId r,
        lastOutput (results ++ [(nodeId, r)])
        = if success r then CodeExecutor.read (output r)
          else lastOutput results)
  /\ (forall results,
        filter succeeded results = [] -> lastOutput results = JNull).
Proof.
  intros Hrun.
  destruct (executeFlow_tallies host callbacks nodes edges s s' outcome Hrun)
    as [[Hc Hf] Hsub].
  split; [exact Hc |]. split; [exact Hf |]. split; [exact Hsub |].
  split; [| split; [| split]].
  - intros r ->.
    destruct (executeFlow_inv host callbacks nodes edges s s' r Hrun)
      as (s1 & _ & (_ & Hcompleted & _) & Hcases).
    split; [now rewrite Hcompleted |].
    intros Hok. destruct Hcases as [(_ & Hfin & _) | (Hfail & _)];
      [now rewrite Hfin, Hf | congruence].
  - intros (Hstart & Hcomplete & Hlog).
    destruct (executeFlow_quiet host callbacks Hlog Hstart nodes Hcomplete
                edges s)
      as (r & s'' & _ & _ & _ & Hrun' & Hok & _ & _ & Hcompleted & Hfin & _
          & _ & _ & _ & Hsettled & _ & Hagree & Hstamp).
    rewrite Hrun in Hrun'. injection Hrun' as -> ->.
    exists r. split; [reflexivity |]. split; [exact Hok |].
    split; [exact Hsettled |]. split.
    + rewrite Hcompleted, Hc. now apply agrees_succeeding.
    + rewrite Hfin, Hf. f_equal. now apply agreed_lastOutput.
  - apply lastOutput_snoc.
  - apply lastOutput_none.
Qed.

Lemma tallies_follow_the_results_witness :
  let run := executeFlow Samples.host Samples.scenario [] Samples.silent
               Samples.start in
  stCompleted (fst run) = ["input-node"; "node-2000"]
  /\ stFinalOutput (fst run) = JObject [("status", JString "ok")].
Proof.
  intros run.
  destruct (tallies_follow_the_results Samples.host Samples.silent
              Samples.scenario [] Samples.start (fst run) (snd run)
              (surjective_pairing run)) as (Hc & Hf & _).
  split; [exact Hc | exact Hf].
Defined.

(** ** Stepwise execution *)

(** With the [addLog] that does nothing, [executeNode] returns. *)
Lemma executeNode_silent (host : Host) (node : CodeNode) (i : nat)
    (s : State) :
  id node = ENTRY \/ (1 <= i)%nat ->
  exists r s',
    executeNode host node (Z.of_nat i) (fun _ _ _ _ _ => ret tt) s
    = (s', inl r)
    /\ (id node = ENTRY ->
        r = {| success := true;
               output := Some (initializedPayload (clock host (time s)));
               error := None;
               resultLogs := ["Input node initialized"%string] |}).
Proof.
  intros Hplace. unfold executeNode.
  destruct (String.eqb (id node) ENTRY) eqn:Hentry.
  - do 2 eexists. split; [reflexivity |]. intros _. reflexivity.
  - assert (Hne : id node <> ENTRY) by now apply String.eqb_neq.
    destruct Hplace as [Heq | Hi]; [now elim Hne |].
    destruct (endpoint_at i Hi) as [endpoint ->].
    unfold bind, tryCatch, ret, call.
    destruct (respond host (Z.of_nat i) _ _)
      as [message | ok status statusText [received | message]];
      [ | destruct ok | ]; cbn;
      do 2 eexists; (split; [reflexivity |]); intros Heq; now elim Hne.
Qed.

(** C8: for every node list and integer cursor, the step resolves with
    [hasNext = cursor + 1 < queueLength]; a cursor at or past the queue
    length gives the sentinel failure with [hasNext: false]; and cursor 0
    on a queue that starts with the entry node runs that node and gives
    the successful result with the [initialized] payload, [hasNext]
    being true when the queue has further nodes. *)
Theorem step_reports_whether_more_follow
    (host : Host) (nodes : list CodeNode) (currentStep : Z) (s : State) :
  exists step s',
    executeNodeStepByStep host nodes currentStep s = (s', inl step)
    /\ hasNext step
       = (currentStep + 1
          <? Z.of_nat (List.length (createExecutionQueue nodes)))%Z
    /\ ((Z.of_nat (List.length (createExecutionQueue nodes))
         <= currentStep)%Z ->
        result step = {| success := false; output := None;
                         error := Some "No more nodes to execute"%string;
                         resultLogs := [] |}
        /\ hasNext step = false)
    /\ (currentStep = 0%Z ->
        hd_error (createExecutionQueue nodes) = Some ENTRY ->
        success (result step) = true
        /\ output (result step)
           = Some (initializedPayload (clock host (time s)))
        /\ error (result step) = None
        /\ (hasNext step = true
            <-> (1 < List.length (createExecutionQueue nodes))%nat)).
Proof.
  unfold executeNodeStepByStep.
  pose proof (queue_placed nodes) as Hplaced.
  pose proof (queue_ids_found nodes) as Hfound.
  set (queue := createExecutionQueue nodes) in *.
  destruct (Z.leb_spec (Z.of_nat (List.length queue)) currentStep)
    as [Hle | Hlt].
  - do 2 eexists. split; [reflexivity |]. simpl.
    split; [symmetry; apply Z.ltb_ge; lia |].
    split; [intros _; now split |].
    intros -> Hhd. destruct queue; [discriminate Hhd | simpl in Hle; lia].
  - unfold Js.at_.
    destruct (Z.ltb_spec currentStep 0) as [Hneg | Hpos].
    + do 2 eexists. split; [reflexivity |]. simpl.
      split; [reflexivity |]. split; [lia |]. lia.
    + destruct (Z_of_nat_complete currentStep Hpos) as [k ->].
      rewrite Nat2Z.id.
      destruct (nth_error queue k) as [nodeId |] eqn:Hnth;
        [| apply nth_error_None in Hnth; lia].
      destruct (findNode nodes nodeId) as [node |] eqn:Hfind;
        [| elim (Hfound nodeId); [eapply nth_error_In; eauto | exact Hfind]].
      destruct (findNode_id nodes nodeId node Hfind) as [Hid _].
      assert (Hplace : id node = ENTRY \/ (1 <= k)%nat).
      { destruct k as [| k]; [| right; lia].
        left. destruct queue as [| first rest]; [discriminate Hnth |].
        simpl in Hnth. injection Hnth as ->.
        destruct Hplaced as [-> | Habs]; [exact Hid | lia]. }
      destruct (executeNode_silent host node k s Hplace)
        as (r & s1 & Hrun & Hentry).
      unfold bind. rewrite Hrun. unfold ret.
      do 2 eexists. split; [reflexivity |]. simpl.
      split; [reflexivity |]. split; [lia |].
      intros Hzero Hhd. destruct k; [| lia]. simpl in Hnth.
      destruct queue as [| first rest]; [discriminate Hhd |].
      simpl in Hhd, Hnth. injection Hhd as ->. injection Hnth as <-.
      rewrite (Hentry Hid). simpl.
      repeat (split; [reflexivity |]).
      rewrite Z.ltb_lt. lia.
Qed.

Lemma step_reports_whether_more_follow_witness :
  exists step s',
    executeNodeStepByStep Samples.host Samples.scenario 0 Samples.start
    = (s', inl step)
    /\ hasNext step = true
    /\ output (result step)
       = Some (JObject [("status", JString "initialized");
                        ("timestamp", JString "T0")]).
Proof.
  destruct (step_reports_whether_more_follow Samples.host Samples.scenario
              0 Samples.start)
    as (step & s' & Hrun & Hnext & _ & Hzero).
  destruct (Hzero eq_refl eq_refl) as (_ & Hout & _ & _).
  exists step, s'. split; [exact Hrun |]. split; [exact Hnext | exact Hout].
Defined.

End QueueClaims.

(* ===================================================================== *)
(** * FlowExecutor: sample walks *)
(* ===================================================================== *)


Lemma dangling_id_is_on_the_path_witness :
  FlowExecutor.executeFlow Samples.engine [Samples.node "a" "return true"]
    [Samples.edge "a" "ghost"] (Some "ghost")
  = Some (inl {| FlowExecutor.success := false;
                 FlowExecutor.executionPath := ["ghost"];
                 FlowExecutor.finalOutput := None;
                 FlowExecutor.error := Some "Node ghost not found" |}).
Proof.
  refine (proj2 (dangling_id_is_on_the_path Samples.engine
                   [Samples.node "a" "return true"]
                   [Samples.edge "a" "ghost"]) "ghost" _ eq_refl).
  discriminate.
Defined.

(** A walk through a cycle ends at the revisit, successfully. *)
Example cycle_ends_at_revisit :
  FlowExecutor.executeFlow Samples.engine
    [Samples.node "a" "return true"; Samples.node "b" "return false";
     Samples.node "c" "return 1"]
    [Samples.edge "a" "b"; Samples.edge "b" "c"; Samples.edge "c" "a"] None
  = Some (inl {| FlowExecutor.success := false;
                 FlowExecutor.executionPath := [];
                 FlowExecutor.finalOutput := None;
                 FlowExecutor.error := Some "No start node found" |})
  /\ FlowExecutor.executeFlow Samples.engine
       [Samples.node "a" "return true"; Samples.node "b" "return false";
        Samples.node "c" "return 1"]
       [Samples.edge "a" "b"; Samples.edge "b" "c"; Samples.edge "c" "a"]
       (Some "b")
     = Some (inl {| FlowExecutor.success := true;
                    FlowExecutor.executionPath := ["b"; "c"; "a"];
                    FlowExecutor.finalOutput := Some (JBoolean true);
                    FlowExecutor.error := None |}).
Proof. split; reflexivity. Qed.

(** A walk that follows an edge to an id naming no node fails with that id
    last on its path. *)
Example dangling_edge_target :
  FlowExecutor.executeFlow Samples.engine
    [Samples.node "a" "return true"; Samples.node "b" "return 1"]
    [Samples.edge "a" "b"; Samples.edge "b" "ghost"] None
  = Some (inl {| FlowExecutor.success := false;
                 FlowExecutor.executionPath := ["a"; "b"; "ghost"];
                 FlowExecutor.finalOutput := None;
                 FlowExecutor.error := Some "Node ghost not found" |}).
Proof. reflexivity. Qed.

(* ===================================================================== *)
(** * store/flowSlice.ts: what the reducers keep *)
(* ===================================================================== *)

Section StoreFacts.
Import FlowSlice.
Local Open Scope list_scope.

Lemma setNodes_same (state : FlowState) : setNodes (nodes state) state = state.
Proof. now destruct state. Qed.

Lemma setEdges_same (state : FlowState) : setEdges (edges state) state = state.
Proof. now destruct state. Qed.

Lemma onFound_absent (nodeId : string) (change : CodeNode -> CodeNode)
    (l : list CodeNode) :
  ~ In nodeId (map id l) -> onFound nodeId change l = l.
Proof.
  induction l as [| n l IH]; intros Habsent; [reflexivity |].
  cbn [onFound]. destruct (String.eqb_spec (id n) nodeId) as [Heq | Hne].
  - elim Habsent. now left.
  - rewrite IH; [reflexivity |]. intros Hin. apply Habsent. now right.
Qed.

Lemma onFound_split (nodeId : string) (change : CodeNode -> CodeNode)
    (pre post : list CodeNode) (n : CodeNode) :
  id n = nodeId -> ~ In nodeId (map id pre) ->
  onFound nodeId change (pre ++ n :: post) = pre ++ change n :: post.
Proof.
  intros Hid. induction pre as [| m pre IH]; intros Habsent; cbn [onFound app].
  - apply String.eqb_eq in Hid. now rewrite Hid.
  - destruct (String.eqb_spec (id m) nodeId) as [Heq | Hne].
    + elim Habsent. now left.
    + rewrite IH; [reflexivity |]. intros Hin. apply Habsent. now right.
Qed.

Lemma onFound_map {B : Type} (view : CodeNode -> B) (nodeId : string)
    (change : CodeNode -> CodeNode) (l : list CodeNode) :
  (forall n, view (change n) = view n) ->
  map view (onFound nodeId change l) = map view l.
Proof.
  intros Hkeeps. induction l as [| n l IH]; [reflexivity |].
  cbn [onFound]. destruct (String.eqb (id n) nodeId); cbn [map].
  - now rewrite Hkeeps.
  - now rewrite IH.
Qed.

Lemma onFound_Forall (P : CodeNode -> Prop) (nodeId : string)
    (change : CodeNode -> CodeNode) (l : list CodeNode) :
  (forall n, P n -> P (change n)) ->
  Forall P l -> Forall P (onFound nodeId change l).
Proof.
  intros Hkeeps. induction 1 as [| n l Hn Hl IH]; [constructor |].
  cbn [onFound]. destruct (String.eqb (id n) nodeId); constructor; auto.
Qed.

Lemma filter_all {A : Type} (keep : A -> bool) (l : list A) :
  (forall a, In a l -> keep a = true) -> filter keep l = l.
Proof.
  induction l as [| a l IH]; intros Hall; [reflexivity |].
  cbn [filter]. rewrite (Hall a (or_introl eq_refl)), IH; [reflexivity |].
  intros b Hb. apply Hall. now right.
Qed.

(** What an action that looks a node up does to the nodes. *)
Lemma addressed_nodes (state : FlowState) (action : Action)
    (nodeId : string) :
  addressee action = Some nodeId ->
  exists change,
    nodes (reducer state action) = onFound nodeId change (nodes state)
    /\ edges (reducer state action) = edges state
    /\ (forall n, (forall updates, action <> UpdateNode nodeId updates) ->
                  id (change n) = id n /\ position (change n) = position n).
Proof.
  intros Haddr.
  destruct action; try discriminate Haddr; injection Haddr as ->;
    cbn [reducer];
    unfold updateNode, updateNodeCode, updateNodeLabel, setNodeOutput,
      setNodeError, setNodeExecuting;
    eexists; (split; [reflexivity |]); (split; [reflexivity |]);
    intros n Hnot; try (now split).
  now elim (Hnot updates).
Qed.

Lemma closed_same_ids (state state' : FlowState) :
  map id (nodes state') = map id (nodes state) ->
  edges state' = edges state ->
  closed state -> closed state'.
Proof.
  intros Hids Hedges Hclosed e He. rewrite Hids. apply Hclosed.
  now rewrite <- Hedges.
Qed.

Lemma closed_step (state : FlowState) (action : Action) :
  closed state -> keepsEnds state action -> closed (reducer state action).
Proof.
  intros Hclosed Hkeeps.
  destruct action; cbn [reducer];
    try (apply (closed_same_ids state); [| reflexivity | exact Hclosed];
         unfold updateNodeCode, updateNodeLabel, setNodeOutput,
           setNodeError, setNodeExecuting, setExecuting, setExecutionPath,
           setCurrentNodeId, setSelectedNodeId, setDraggingNodeId;
         cbn [nodes setNodes];
         first [reflexivity | now apply onFound_map]).
  - intros e He. cbn in He |- *. rewrite map_app.
    destruct (Hclosed e He) as [Hs Ht].
    split; apply in_or_app; now left.
  - apply (closed_same_ids state); [| reflexivity | exact Hclosed].
    unfold updateNode. cbn [nodes setNodes]. apply onFound_map.
    intros n. cbn in Hkeeps. unfold assign. cbn [id]. now rewrite Hkeeps.
  - intros e He. cbn in He |- *.
    apply filter_In in He as [He Hends].
    apply andb_true_iff in Hends as [Hs Ht].
    apply negb_true_iff, String.eqb_neq in Hs, Ht.
    destruct (Hclosed e He) as [Hsource Htarget].
    apply in_map_iff in Hsource as [ns [Hns Hins]].
    apply in_map_iff in Htarget as [nt [Hnt Hint]].
    split; apply in_map_iff.
    + exists ns. split; [exact Hns |]. apply filter_In. split; [exact Hins |].
      apply negb_true_iff, String.eqb_neq. now rewrite Hns.
    + exists nt. split; [exact Hnt |]. apply filter_In. split; [exact Hint |].
      apply negb_true_iff, String.eqb_neq. now rewrite Hnt.
  - intros e He. cbn in He |- *. apply in_app_or in He as [He | [<- | []]].
    + now apply Hclosed.
    + exact Hkeeps.
  - intros e He. cbn in He |- *. apply filter_In in He as [He _].
    now apply Hclosed.
  - intros e He. cbn in He |- *. rewrite map_map. cbn.
    now apply Hclosed.
Qed.

Lemma coherent_step (state : FlowState) (action : Action) :
  Forall coherent (nodes state) -> handsCoherent action ->
  Forall coherent (nodes (reducer state action)).
Proof.
  intros Hall Hhands.
  destruct action; cbn [reducer];
    unfold updateNode, updateNodeCode, updateNodeLabel, setNodeOutput,
      setNodeError, setNodeExecuting, removeNode, addNode;
    cbn [nodes setNodes setEdges setExecuting setExecutionPath
           setCurrentNodeId setSelectedNodeId setDraggingNodeId
           addEdge removeEdge clearExecutionState];
    try exact Hall;
    try solve [ apply onFound_Forall; [| exact Hall]; intros n [Hout Hmsg];
                unfold coherent, coherentData; cbn; split; intros H;
                first [discriminate H | reflexivity | now elim H
                      | now apply Hout | now apply Hmsg] ].
  - apply Forall_app. split; [exact Hall |]. now constructor.
  - apply onFound_Forall; [| exact Hall]. intros n Hn.
    unfold coherent, assign. cbn [data].
    destruct (dataUpdate updates) as [d |] eqn:Hd; [| exact Hn].
    now apply Hhands.
  - apply Forall_forall. intros n Hn. apply filter_In in Hn as [Hn _].
    now apply (proj1 (Forall_forall _ _) Hall).
  - apply Forall_forall. intros n Hn.
    apply in_map_iff in Hn as [m [<- _]].
    unfold coherent, coherentData. cbn. split; [reflexivity | reflexivity].
Qed.

Lemma cleared_idem (n : CodeNode) : cleared (cleared n) = cleared n.
Proof. reflexivity. Qed.

Lemma reset_step (state : FlowState) (action : Action) :
  reportsProgress action = true ->
  clearExecutionState (reducer state action) = clearExecutionState state.
Proof.
  intros Hprogress.
  destruct action; try discriminate Hprogress; cbn [reducer];
    unfold clearExecutionState, setNodeOutput, setNodeError,
      setNodeExecuting;
    cbn [nodes edges selectedNodeId draggingNodeId setNodes setExecuting
           setExecutionPath setCurrentNodeId];
    try reflexivity;
    try (rewrite (onFound_map cleared); [reflexivity | reflexivity]).
  rewrite map_map. reflexivity.
Qed.

Lemma design_step (state : FlowState) (action : Action) :
  reportsProgress action = true ->
  map design (nodes (reducer state action)) = map design (nodes state)
  /\ edges (reducer state action) = edges state
  /\ selectedNodeId (reducer state action) = selectedNodeId state
  /\ draggingNodeId (reducer state action) = draggingNodeId state.
Proof.
  intros Hprogress.
  destruct action; try discriminate Hprogress; cbn [reducer];
    unfold clearExecutionState, setNodeOutput, setNodeError,
      setNodeExecuting;
    cbn [nodes edges selectedNodeId draggingNodeId setNodes setExecuting
           setExecutionPath setCurrentNodeId];
    (split; [| now repeat split]);
    try reflexivity;
    try (apply onFound_map; reflexivity).
  rewrite map_map. reflexivity.
Qed.

End StoreFacts.

Section StoreTheorems.
Import FlowSlice.
Local Open Scope list_scope.

(** X1: a reducer that looks a node up by id ([updateNode],
    [updateNodeCode], [updateNodeLabel], [setNodeOutput], [setNodeError],
    [setNodeExecuting]) leaves the whole state unchanged when no node has
    the id. *)
Theorem unknown_id_changes_nothing (state : FlowState) (action : Action)
    (nodeId : string) :
  addressee action = Some nodeId ->
  ~ In nodeId (map id (nodes state)) ->
  reducer state action = state.
Proof.
  intros Haddr Habsent.
  destruct action; try discriminate Haddr; injection Haddr as ->;
    cbn [reducer];
    unfold updateNode, updateNodeCode, updateNodeLabel, setNodeOutput,
      setNodeError, setNodeExecuting;
    rewrite (onFound_absent _ _ _ Habsent); apply setNodes_same.
Qed.

Lemma unknown_id_changes_nothing_witness :
  reducer (FlowCanvas.built []) (SetNodeError "node-7" "boom")
  = FlowCanvas.built [].
Proof.
  apply (unknown_id_changes_nothing _ _ "node-7"); [reflexivity |].
  cbn. intros [H | []]. discriminate H.
Defined.

(** X2: such a reducer changes one node only, the first in the array
    that has the id: the nodes before and after it, a later node with
    the same id among them, stay as they are, and the edges too; every
    such reducer but [updateNode] keeps the id and the position of the
    node it changes. *)
Theorem addressed_action_changes_first_match (state : FlowState)
    (action : Action) (nodeId : string) (pre post : list CodeNode)
    (n : CodeNode) :
  addressee action = Some nodeId ->
  nodes state = pre ++ n :: post ->
  id n = nodeId ->
  ~ In nodeId (map id pre) ->
  exists n',
    nodes (reducer state action) = pre ++ n' :: post
    /\ edges (reducer state action) = edges state
    /\ ((forall updates, action <> UpdateNode nodeId updates) ->
        id n' = id n /\ position n' = position n).
Proof.
  intros Haddr Hnodes Hid Habsent.
  destruct (addressed_nodes state action nodeId Haddr)
    as (change & Hchanged & Hedges & Hkeeps).
  exists (change n). rewrite Hchanged, Hnodes.
  split; [now apply onFound_split |]. split; [exact Hedges |].
  intros Hnot. now apply Hkeeps.
Qed.

Lemma addressed_action_changes_first_match_witness :
  exists n',
    nodes (reducer (FlowCanvas.mount (FlowCanvas.mount initialState))
             (SetNodeExecuting "input-node" true))
    = [] ++ n' :: [FlowCanvas.inputNode]
    /\ edges (reducer (FlowCanvas.mount (FlowCanvas.mount initialState))
                (SetNodeExecuting "input-node" true)) = []
    /\ ((forall updates,
            SetNodeExecuting "input-node" true
            <> UpdateNode "input-node" updates) ->
        id n' = "input-node"
        /\ position n' = position FlowCanvas.inputNode).
Proof.
  apply (addressed_action_changes_first_match
           (FlowCanvas.mount (FlowCanvas.mount initialState))
           (SetNodeExecuting "input-node" true) "input-node" []
           [FlowCanvas.inputNode] FlowCanvas.inputNode);
    [reflexivity | reflexivity | reflexivity | intros []].
Defined.

(** X3: removing a node removes every edge that starts or ends at it, so
    a graph in which every end of every edge names a node stays such a
    graph; so it does under every other action, as long as no edge is
    added whose ends name no node and no node is renamed. *)
Theorem actions_keep_graph_closed (state : FlowState) :
  (forall action,
      closed state -> keepsEnds state action ->
      closed (reducer state action))
  /\ (forall nodeId,
        ~ In nodeId (map id (nodes (removeNode nodeId state)))
        /\ forall e, In e (edges (removeNode nodeId state)) ->
                     source e <> nodeId /\ target e <> nodeId).
Proof.
  split; [intros action; apply closed_step |].
  intros nodeId. split.
  - cbn. intros Hin. apply in_map_iff in Hin as [n [Hid Hn]].
    apply filter_In in Hn as [_ Hn].
    apply negb_true_iff, String.eqb_neq in Hn. contradiction.
  - intros e He. cbn in He. apply filter_In in He as [_ He].
    apply andb_true_iff in He as [Hs Ht].
    apply negb_true_iff, String.eqb_neq in Hs, Ht. now split.
Qed.

(** X4: no sequence of actions makes a node show an output together
    with an error, or an error message without an error, when the nodes
    start out so and no node data handed in by [addNode] or
    [updateNode] shows both. *)
Theorem output_and_error_exclude_each_other (actions : list Action) :
  forall state,
    Forall coherent (nodes state) ->
    Forall handsCoherent actions ->
    Forall coherent (nodes (dispatchAll actions state)).
Proof.
  unfold dispatchAll.
  induction actions as [| action actions IH]; intros state Hall Hhands;
    [exact Hall |].
  inversion Hhands as [| ? ? Hfirst Hrest]; subst. cbn [fold_left].
  apply IH; [| exact Hrest]. now apply coherent_step.
Qed.

(** X5: [clearExecutionState] forgets every report of progress: after
    any sequence of [setNodeOutput], [setNodeError], [setNodeExecuting],
    [setExecuting], [setExecutionPath], [setCurrentNodeId] and
    [clearExecutionState] it gives the state it would have given before
    them; in particular it is idempotent. *)
Theorem reset_forgets_progress (actions : list Action) :
  forall state,
    forallb reportsProgress actions = true ->
    clearExecutionState (dispatchAll actions state)
    = clearExecutionState state.
Proof.
  unfold dispatchAll.
  induction actions as [| action actions IH]; intros state Hall;
    [reflexivity |].
  cbn [forallb] in Hall. apply andb_true_iff in Hall as [Hfirst Hrest].
  cbn [fold_left]. rewrite (IH _ Hrest). now apply reset_step.
Qed.

(** X6: the reports of progress never edit the graph: the ids,
    positions, labels and scripts of the nodes, the edges, the selection
    and the dragged node are after any sequence of them what they were
    before. *)
Theorem progress_keeps_design (actions : list Action) :
  forall state,
    forallb reportsProgress actions = true ->
    map design (nodes (dispatchAll actions state))
    = map design (nodes state)
    /\ edges (dispatchAll actions state) = edges state
    /\ selectedNodeId (dispatchAll actions state) = selectedNodeId state
    /\ draggingNodeId (dispatchAll actions state) = draggingNodeId state.
Proof.
  unfold dispatchAll.
  induction actions as [| action actions IH]; intros state Hall;
    [now repeat split |].
  cbn [forallb] in Hall. apply andb_true_iff in Hall as [Hfirst Hrest].
  cbn [fold_left].
  destruct (IH (reducer state action) Hrest) as (Hn & He & Hs & Hd).
  destruct (design_step state action Hfirst) as (Hn' & He' & Hs' & Hd').
  rewrite Hn, He, Hs, Hd. now repeat split.
Qed.

(** X7: removing what was just added gives the state back: [removeEdge]
    after [addEdge] when no edge had the id, and [removeNode] after
    [addNode] when no node had the id and no edge started or ended at
    it. *)
Theorem remove_undoes_add (state : FlowState) :
  (forall e,
      (forall e', In e' (edges state) -> edgeId e' <> edgeId e) ->
      removeEdge (edgeId e) (addEdge e state) = state)
  /\ (forall n,
        ~ In (id n) (map id (nodes state)) ->
        (forall e, In e (edges state) ->
                   source e <> id n /\ target e <> id n) ->
        removeNode (id n) (addNode n state) = state).
Proof.
  split.
  - intros e Hfresh. unfold removeEdge, addEdge. cbn [edges setEdges].
    rewrite filter_app. cbn [filter]. rewrite String.eqb_refl. cbn [negb].
    rewrite app_nil_r, filter_all.
    + now destruct state.
    + intros e' He'. apply negb_true_iff, String.eqb_neq. now apply Hfresh.
  - intros n Hfresh Hfree. unfold removeNode, addNode.
    cbn [nodes edges setNodes setEdges].
    rewrite filter_app. cbn [filter]. rewrite String.eqb_refl. cbn [negb].
    rewrite app_nil_r, !filter_all.
    + now destruct state.
    + intros m Hm. apply negb_true_iff, String.eqb_neq. intros Heq.
      apply Hfresh. rewrite <- Heq. now apply in_map.
    + intros e He. destruct (Hfree e He) as [Hs Ht].
      apply andb_true_iff.
      split; apply negb_true_iff, String.eqb_neq; assumption.
Qed.

End StoreTheorems.

(* ===================================================================== *)
(** * utils/flowExecutor.ts: the walk as a whole *)
(* ===================================================================== *)

Section FlowFacts.
Import CodeExecutor FlowExecutor.
Local Open Scope list_scope.

Variable engine : Engine.
Variable nodes : list CodeNode.
Variable edges : list Edge.

(** One evaluation of the guard and, when it holds, one pass through the
    body. *)
Lemma loop_cases (fuel : nat) (visited path : list string)
    (current : option string) (out : JSValue)
    (outcome : FlowExecutionResult + Thrown) :
  loop engine nodes edges (S fuel) visited path current out = Some outcome ->
  (outcome = inl (finished path out)
   /\ forall c, current = Some c -> c = EmptyString \/ In c visited)
  \/ exists c,
       current = Some c /\ c <> EmptyString /\ ~ In c visited
       /\ ((findNode nodes c = None
            /\ outcome
               = caught (path ++ [c])
                   (ErrorObject ("Node " ++ c ++ " not found")%string))
           \/ exists node,
                findNode nodes c = Some node
                /\ ((exists rejected,
                        executeCode engine (List.length path)
                          (code (data node)) (contextOf out) = inr rejected
                        /\ outcome = caught (path ++ [c]) rejected)
                    \/ exists result,
                         executeCode engine (List.length path)
                           (code (data node)) (contextOf out) = inl result
                         /\ ((CodeExecutor.success result = false
                              /\ outcome
                                 = caught (path ++ [c])
                                     (ErrorObject
                                        ("Node " ++ c
                                         ++ " execution failed: "
                                         ++ showError
                                              (CodeExecutor.error result))
                                        %string))
                             \/ (CodeExecutor.success result = true
                                 /\ loop engine nodes edges fuel
                                      (c :: visited) (path ++ [c])
                                      (findNextNode c edges
                                         (read (CodeExecutor.output result)))
                                      (read (CodeExecutor.output result))
                                    = Some outcome)))).
Proof.
  cbn [loop]. intros H.
  destruct current as [c |];
    [| left; split; [now injection H as <- | discriminate]].
  destruct (Js.truthy (Some c) && negb (existsb (String.eqb c) visited))
    eqn:Hguard.
  2:{ left. split; [now injection H as <- |].
      intros c' Hc'. injection Hc' as <-.
      apply andb_false_iff in Hguard as [Hempty | Hseen].
      - left. now destruct c.
      - right. apply negb_false_iff in Hseen.
        now apply existsb_eqb_In. }
  right. exists c. apply andb_prop in Hguard as [Htruthy Hv].
  apply negb_true_iff, existsb_eqb_not_In in Hv.
  split; [reflexivity |]. split; [now destruct c |]. split; [exact Hv |].
  replace (List.length (path ++ [c]) - 1)%nat with (List.length path) in H
    by (rewrite length_app; simpl; lia).
  fold (contextOf out) in H.
  destruct (findNode nodes c) as [node |];
    [| left; split; [reflexivity | now injection H as <-]].
  right. exists node. split; [reflexivity |].
  destruct (executeCode engine (List.length path) (code (data node))
              (contextOf out)) as [result | rejected] eqn:Hexec.
  - right. exists result. split; [reflexivity |].
    destruct (CodeExecutor.success result); cbn [negb] in H.
    + right. now split.
    + left. split; [reflexivity | now injection H as <-].
  - left. exists rejected. split; [reflexivity | now injection H as <-].
Qed.

Lemma caught_inl (path : list string) (e : Thrown) (r : FlowExecutionResult) :
  inl r = caught path e ->
  exists text,
    errorMessageOf e = inl text
    /\ r = {| success := false; executionPath := path;
              finalOutput := None; error := Some text |}.
Proof.
  unfold caught. destruct (errorMessageOf e) as [text |]; [| discriminate].
  intros H. injection H as ->. now exists text.
Qed.

Lemma findNextNode_linked (current next : string) (output : JSValue) :
  findNextNode current edges output = Some next ->
  linked edges current next.
Proof.
  unfold findNextNode.
  set (outgoing := filter (fun e => String.eqb (source e) current) edges).
  assert (Hout : forall i e, nth_error outgoing i = Some e ->
                             linked edges current (target e)).
  { intros i e He. apply nth_error_In in He.
    apply filter_In in He as [He Hs]. apply String.eqb_eq in Hs.
    now exists e. }
  destruct (List.length outgoing =? 0)%nat; [discriminate |].
  destruct (List.length outgoing =? 1)%nat.
  - destruct (nth_error outgoing 0) as [e |] eqn:He; [| discriminate].
    intros H. injection H as <-. now apply (Hout 0%nat).
  - unfold Js.andAlso.
    destruct (evaluateCondition output); cbn [negb].
    + destruct (nth_error outgoing 0) as [e |] eqn:He; [| discriminate].
      intros H. injection H as <-. now apply (Hout 0%nat).
    + destruct (nth_error outgoing 1) as [e |] eqn:He; [| discriminate].
      intros H. injection H as <-. now apply (Hout 1%nat).
Qed.

Lemma walk_nil : walk edges [].
Proof. intros [| ? ?] x y after Heq; discriminate Heq. Qed.

Lemma walk_extend (path : list string) (c : string) :
  walk edges path ->
  (forall before a, path = before ++ [a] -> linked edges a c) ->
  walk edges (path ++ [c]).
Proof.
  intros Hwalk Hlast before x y after Heq.
  destruct after as [| w after].
  - replace (before ++ [x; y]) with ((before ++ [x]) ++ [y]) in Heq
      by now rewrite <- app_assoc.
    apply app_inj_tail in Heq as [Heq <-]. now apply (Hlast before x).
  - destruct (exists_last (l := w :: after)) as [rest [z Hrest]];
      [discriminate |].
    rewrite Hrest in Heq.
    replace (before ++ x :: y :: rest ++ [z])
      with ((before ++ x :: y :: rest) ++ [z]) in Heq
      by (rewrite <- app_assoc; reflexivity).
    apply app_inj_tail in Heq as [Heq _].
    now apply (Hwalk before x y rest).
Qed.

(** The path a run returns extends the path so far, along edges. *)
Lemma loop_walk (fuel : nat) :
  forall visited path current out r,
    walk edges path ->
    (forall before a c, path = before ++ [a] -> current = Some c ->
                        linked edges a c) ->
    loop engine nodes edges fuel visited path current out = Some (inl r) ->
    walk edges (executionPath r)
    /\ exists more, executionPath r = path ++ more.
Proof.
  induction fuel as [| fuel IH];
    intros visited path current out r Hwalk Hlast H; [discriminate |].
  apply loop_cases in H
    as [[H _] | (c & -> & Hc & Hv
             & [[Hfind H] | (node & Hfind
                             & [(rejected & Hexec & H)
                               | (result & Hexec
                                  & [[Hok H] | [Hok H]])])])].
  - injection H as ->. split; [exact Hwalk |]. exists []. cbn.
    now rewrite app_nil_r.
  - apply caught_inl in H as (text & _ & ->). cbn. split; [| now exists [c]].
    apply walk_extend; [exact Hwalk |]. intros before a Heq.
    now apply (Hlast before a c).
  - apply caught_inl in H as (text & _ & ->). cbn. split; [| now exists [c]].
    apply walk_extend; [exact Hwalk |]. intros before a Heq.
    now apply (Hlast before a c).
  - apply caught_inl in H as (text & _ & ->). cbn. split; [| now exists [c]].
    apply walk_extend; [exact Hwalk |]. intros before a Heq.
    now apply (Hlast before a c).
  - apply IH in H as [Hw [more Hmore]].
    + split; [exact Hw |]. exists (c :: more). rewrite Hmore.
      now rewrite <- app_assoc.
    + apply walk_extend; [exact Hwalk |]. intros before a Heq.
      now apply (Hlast before a c).
    + intros before a c' Heq Hnext. apply app_inj_tail in Heq as [_ <-].
      now apply (findNextNode_linked _ _ _ Hnext).
Qed.

(** A run that enters the body pushes the current id first. *)
Lemma loop_pushes (fuel : nat) (visited path : list string) (c : string)
    (out : JSValue) (r : FlowExecutionResult) :
  c <> EmptyString -> ~ In c visited ->
  walk edges path ->
  (forall before a, path = before ++ [a] -> linked edges a c) ->
  loop engine nodes edges fuel visited path (Some c) out = Some (inl r) ->
  exists more, executionPath r = path ++ c :: more.
Proof.
  intros Hc Hv Hwalk Hlast H. destruct fuel as [| fuel]; [discriminate |].
  assert (Hw : walk edges (path ++ [c])) by now apply walk_extend.
  apply loop_cases in H
    as [[_ Hstop] | (c' & Heq & _ & _
                     & [[Hfind H] | (node & Hfind
                                     & [(rejected & Hexec & H)
                                       | (result & Hexec
                                          & [[Hok H] | [Hok H]])])])].
  - destruct (Hstop c eq_refl); contradiction.
  - injection Heq as <-. apply caught_inl in H as (text & _ & ->).
    now exists [].
  - injection Heq as <-. apply caught_inl in H as (text & _ & ->).
    now exists [].
  - injection Heq as <-. apply caught_inl in H as (text & _ & ->).
    now exists [].
  - injection Heq as <-. apply loop_walk in H as [_ [more Hmore]].
    + exists more. rewrite Hmore. now rewrite <- app_assoc.
    + exact Hw.
    + intros before a c' Heq Hnext. apply app_inj_tail in Heq as [_ <-].
      now apply (findNextNode_linked _ _ _ Hnext).
Qed.

Lemma executeCode_failure (k : nat) (text : string)
    (context : ExecutionContext) (result : ExecutionResult) :
  executeCode engine k text context = inl result ->
  CodeExecutor.success result = false ->
  exists message, CodeExecutor.error result = Some message.
Proof.
  unfold executeCode.
  destruct (createSafeFunction engine k text) as [func | thrown].
  - destruct (func _ _) as [value | thrown].
    + intros H. injection H as <-. discriminate.
    + destruct (errorMessageOf thrown) as [message |]; [| discriminate].
      intros H _. injection H as <-. now exists message.
  - destruct (errorMessageOf thrown) as [message |]; [| discriminate].
    intros H _. injection H as <-. now exists message.
Qed.

Lemma loop_failure (fuel : nat) :
  forall visited path current out r,
    loop engine nodes edges fuel visited path current out = Some (inl r) ->
    success r = false ->
    blamed engine nodes r.
Proof.
  induction fuel as [| fuel IH];
    intros visited path current out r H Hfail; [discriminate |].
  apply loop_cases in H
    as [[H _] | (c & -> & Hc & Hv
                 & [[Hfind H] | (node & Hfind
                                 & [(rejected & Hexec & H)
                                   | (result & Hexec
                                      & [[Hok H] | [Hok H]])])])].
  - injection H as ->. discriminate Hfail.
  - apply caught_inl in H as (text & Htext & ->). injection Htext as <-.
    exists path, c. split; [reflexivity |]. split; [reflexivity |].
    left. now split.
  - apply caught_inl in H as (text & Htext & ->).
    exists path, c. split; [reflexivity |]. split; [reflexivity |].
    right. exists node, out. split; [exact Hfind |].
    right. now exists rejected, text.
  - apply caught_inl in H as (text & Htext & ->). injection Htext as <-.
    destruct (executeCode_failure _ _ _ _ Hexec Hok) as [message Hmessage].
    exists path, c. split; [reflexivity |]. split; [reflexivity |].
    right. exists node, out. split; [exact Hfind |].
    left. exists result, message. rewrite Hmessage. now repeat split.
  - now apply (IH _ _ _ _ _ H).
Qed.

Lemma loop_success (fuel : nat) :
  forall visited path current out r,
    loop engine nodes edges fuel visited path current out = Some (inl r) ->
    success r = true ->
    exists more,
      executionPath r = path ++ more
      /\ finalOutput r
         = Some (relay engine nodes (List.length path) out more)
      /\ Forall (fun c => In c (map id nodes)) more
      /\ error r = None.
Proof.
  induction fuel as [| fuel IH];
    intros visited path current out r H Hsuccess; [discriminate |].
  apply loop_cases in H
    as [[H _] | (c & -> & Hc & Hv
                 & [[Hfind H] | (node & Hfind
                                 & [(rejected & Hexec & H)
                                   | (result & Hexec
                                      & [[Hok H] | [Hok H]])])])];
    try (apply caught_inl in H as (text & _ & ->); discriminate Hsuccess).
  - injection H as ->. exists []. cbn. rewrite app_nil_r.
    now repeat split.
  - destruct (IH _ _ _ _ _ H Hsuccess) as (more & Hpath & Hout & Hfound & He).
    exists (c :: more). rewrite Hpath, <- app_assoc.
    split; [reflexivity |]. split; [| split; [| exact He]].
    + rewrite Hout. cbn [relay]. rewrite Hfind, Hexec, Hok.
      rewrite length_app. cbn [List.length].
      now replace (List.length path + 1)%nat with (S (List.length path))
        by lia.
    + constructor; [| exact Hfound].
      apply findNode_id in Hfind as [<- Hin]. now apply in_map.
Qed.

Lemma filter_none {A : Type} (keep : A -> bool) (l : list A) :
  (forall a, In a l -> keep a = false) -> filter keep l = [].
Proof.
  induction l as [| a l IH]; intros Hnone; [reflexivity |].
  cbn [filter]. rewrite (Hnone a (or_introl eq_refl)). apply IH.
  intros b Hb. apply Hnone. now right.
Qed.

Lemma findStartNode_none :
  (forall n, In n nodes -> hasIncoming edges n) ->
  findStartNode nodes edges = None.
Proof.
  intros Hall. unfold findStartNode. rewrite filter_none; [reflexivity |].
  intros n Hn. apply negb_false_iff, existsb_eqb_In. now apply Hall.
Qed.

Lemma findStartNode_first (before after : list CodeNode) (n : CodeNode) :
  nodes = before ++ n :: after ->
  (forall m, In m before -> hasIncoming edges m) ->
  ~ hasIncoming edges n ->
  findStartNode nodes edges = Some (id n).
Proof.
  intros -> Hbefore Hn. unfold findStartNode. rewrite filter_app.
  rewrite filter_none.
  - cbn [filter app].
    replace (existsb (String.eqb (id n)) (map target edges)) with false;
      [reflexivity |].
    symmetry. now apply existsb_eqb_not_In.
  - intros m Hm. apply negb_false_iff, existsb_eqb_In. now apply Hbefore.
Qed.

Lemma executeFlow_loop (startNodeId : option string) (c : string) :
  startOf nodes edges startNodeId = Some c -> c <> EmptyString ->
  executeFlow engine nodes edges startNodeId
  = loop engine nodes edges (S (List.length nodes)) [] [] (Some c) JNull.
Proof.
  intros Hstart Hc. unfold executeFlow, executeFlowWith. rewrite Hstart.
  now destruct c.
Qed.

Lemma executeFlow_cases (startNodeId : option string)
    (r : FlowExecutionResult) :
  executeFlow engine nodes edges startNodeId = Some (inl r) ->
  (r = noStart
   /\ forall c, startOf nodes edges startNodeId = Some c -> c = EmptyString)
  \/ exists c,
       startOf nodes edges startNodeId = Some c /\ c <> EmptyString
       /\ loop engine nodes edges (S (List.length nodes)) [] [] (Some c)
            JNull = Some (inl r).
Proof.
  unfold executeFlow, executeFlowWith.
  destruct (startOf nodes edges startNodeId) as [c |] eqn:Hstart.
  - destruct c as [| a c].
    + cbn. intros H. injection H as <-. left. split; [reflexivity |].
      intros c Hc. now injection Hc as <-.
    + cbn [Js.truthy negb]. intros H. right. exists (String a c).
      now repeat split.
  - cbn. intros H. injection H as <-. left. split; [reflexivity |].
    discriminate.
Qed.

End FlowFacts.

Section FlowTheorems.
Import CodeExecutor FlowExecutor.
Local Open Scope list_scope.

Variable engine : Engine.
Variable nodes : list CodeNode.
Variable edges : list Edge.

(** X8: without a start id, the walk starts at the first node of the
    array that no edge ends at.  When every node has an incoming edge, in
    particular when there is no node, the run ends at once with
    [success: false], an empty path and the error [No start node found],
    and no script is run. *)
Theorem flow_starts_at_first_node_without_incoming :
  ((forall n, In n nodes -> hasIncoming edges n) ->
   executeFlow engine nodes edges None = Some (inl noStart))
  /\ (forall before after n r,
        nodes = before ++ n :: after ->
        (forall m, In m before -> hasIncoming edges m) ->
        ~ hasIncoming edges n ->
        id n <> EmptyString ->
        executeFlow engine nodes edges None = Some (inl r) ->
        exists more, executionPath r = id n :: more).
Proof.
  split.
  - intros Hall. unfold executeFlow, executeFlowWith, startOf.
    cbn [Js.truthy]. now rewrite (findStartNode_none nodes edges Hall).
  - intros before after n r Hnodes Hbefore Hn Hid Hrun.
    rewrite (executeFlow_loop engine nodes edges None (id n)) in Hrun;
      [| | exact Hid].
    + apply loop_pushes in Hrun as [more Hmore];
        [now exists more | exact Hid | intros [] | apply walk_nil |].
      intros [| ? ?] a Heq; discriminate Heq.
    + unfold startOf. cbn [Js.truthy].
      now apply (findStartNode_first nodes edges before after).
Qed.

(** X9: the path of every result follows the edges: each id on it but
    the first is the target of an edge whose source is the id before it;
    and the first id is the start id when one is given. *)
Theorem path_follows_edges (startNodeId : option string)
    (r : FlowExecutionResult) :
  executeFlow engine nodes edges startNodeId = Some (inl r) ->
  walk edges (executionPath r)
  /\ (forall c, startNodeId = Some c -> c <> EmptyString ->
                exists more, executionPath r = c :: more).
Proof.
  intros Hrun. split.
  - apply executeFlow_cases in Hrun as [[-> _] | (c & Hstart & Hc & Hrun)];
      [apply walk_nil |].
    apply loop_walk in Hrun as [Hwalk _];
      [exact Hwalk | apply walk_nil |].
    intros [| ? ?] a c' Heq; discriminate Heq.
  - intros c -> Hc.
    rewrite (executeFlow_loop engine nodes edges (Some c) c) in Hrun;
      [| | exact Hc].
    + apply loop_pushes in Hrun as [more Hmore];
        [now exists more | exact Hc | intros [] | apply walk_nil |].
      intros [| ? ?] a Heq; discriminate Heq.
    + unfold startOf. now destruct c.
Qed.

(** X10: a result with [success: false] is either the one for a missing
    start node, or it lays the failure on the last id of its path and has
    no output: that id names no node ([Node <id> not found]), or the
    script of its node returned a failure ([Node <id> execution failed:]
    followed by the message of the failure), or [executeCode] rejected
    and the error is the message of the rejection. *)
Theorem failed_flow_blames_last_node (startNodeId : option string)
    (r : FlowExecutionResult) :
  executeFlow engine nodes edges startNodeId = Some (inl r) ->
  success r = false ->
  r = noStart \/ blamed engine nodes r.
Proof.
  intros Hrun Hfail.
  apply executeFlow_cases in Hrun as [[-> _] | (c & Hstart & Hc & Hrun)];
    [now left | right].
  now apply (loop_failure engine nodes edges _ _ _ _ _ _ Hrun).
Qed.

(** X11: a result with [success: true] has run the script of every id
    on its path, in order: every such id names a node, the path is no
    longer than the node array, and the final output is the output of the
    last script when the first runs on [null] and each next one on the
    output of the one before. *)
Theorem successful_flow_relays_outputs (startNodeId : option string)
    (r : FlowExecutionResult) :
  executeFlow engine nodes edges startNodeId = Some (inl r) ->
  success r = true ->
  finalOutput r = Some (relay engine nodes 0 JNull (executionPath r))
  /\ Forall (fun c => In c (map id nodes)) (executionPath r)
  /\ (List.length (executionPath r) <= List.length nodes)%nat
  /\ error r = None.
Proof.
  intros Hrun Hsuccess.
  apply executeFlow_cases in Hrun as [[-> _] | (c & Hstart & Hc & Hrun)];
    [discriminate Hsuccess |].
  assert (Hnodup : NoDup (executionPath r)).
  { apply (loop_path_NoDup engine nodes edges (S (List.length nodes))
             [] [] (Some c) JNull);
      [constructor | intros x [] | exact Hrun]. }
  destruct (loop_success engine nodes edges _ _ _ _ _ _ Hrun Hsuccess)
    as (more & Hpath & Hout & Hfound & Herr).
  cbn in Hpath, Hout. rewrite Hpath in *.
  split; [exact Hout |]. split; [exact Hfound |]. split; [| exact Herr].
  rewrite <- (length_map id nodes).
  apply NoDup_incl_length; [exact Hnodup |].
  intros x Hx. now apply (proj1 (Forall_forall _ _) Hfound).
Qed.

End FlowTheorems.

(* ===================================================================== *)
(** * Ids made by the canvas and read back by the queue *)
(* ===================================================================== *)

Section Tokens.
Local Open Scope list_scope.

Lemma digits_of_uint_acc (d : Decimal.uint) :
  forall p,
    Number.digits 10 (NilEmpty.string_of_uint d) (Some (N.pos p))
    = Some (N.pos (Pos.of_uint_acc d p)).
Proof.
  induction d; intros p; cbn [NilEmpty.string_of_uint Pos.of_uint_acc];
    [reflexivity | ..];
    cbn [Number.digits]; unfold Number.digitValue;
    match goal with
    | |- context [N_of_ascii ?c] =>
        let v := eval vm_compute in (N_of_ascii c) in
        change (N_of_ascii c) with v
    end;
    cbn [N.leb N.compare Pos.compare Pos.compare_cont andb N.sub N.ltb
           Pos.sub Pos.sub_mask Pos.pred_double Pos.double_mask
           Pos.double_pred_mask Pos.succ_double_mask];
    rewrite <- IHd; do 2 f_equal; lia.
Qed.

Lemma digits_of_uint (d : Decimal.uint) :
  Number.digits 10 (NilEmpty.string_of_uint d) (Some 0%N)
  = Some (Pos.of_uint d).
Proof.
  induction d; cbn [NilEmpty.string_of_uint Pos.of_uint];
    [reflexivity | exact IHd | ..];
    rewrite <- digits_of_uint_acc; reflexivity.
Qed.

Lemma digits_of_uint_start (d : Decimal.uint) :
  d <> Decimal.Nil ->
  Number.digits 10 (NilEmpty.string_of_uint d) None = Some (Pos.of_uint d).
Proof.
  intros Hd. rewrite <- digits_of_uint. destruct d; [now elim Hd | ..];
    reflexivity.
Qed.

Lemma parseInt_decimal (d : Decimal.uint) :
  Number.parseInt (NilEmpty.string_of_uint d)
  = match Number.digits 10 (NilEmpty.string_of_uint d) None with
    | None => NaN
    | Some n => Number.ofN false n
    end.
Proof.
  unfold Number.parseInt.
  destruct d as [| d | d | d | d | d | d | d | d | d | d];
    try reflexivity.
  destruct d; reflexivity.
Qed.

(** [parseInt] reads a decimal numeral back. *)
Lemma parseInt_of_uint (d : Decimal.uint) :
  d <> Decimal.Nil ->
  Number.parseInt (NilEmpty.string_of_uint d)
  = Number.ofN false (Pos.of_uint d).
Proof.
  intros Hd. now rewrite parseInt_decimal, (digits_of_uint_start d Hd).
Qed.

Lemma split_plain (sep : ascii) (s : string) :
  (forall c, In c (list_ascii_of_string s) -> c <> sep) ->
  Js.split sep s = [s].
Proof.
  induction s as [| c s IH]; intros Hplain; [reflexivity |].
  cbn [Js.split]. destruct (Ascii.eqb_spec c sep) as [Heq | Hne].
  - elim (Hplain c); [now left | exact Heq].
  - rewrite IH; [reflexivity |]. intros c' Hc'. apply Hplain. now right.
Qed.

Lemma split_token (name token : string) :
  (forall c, In c (list_ascii_of_string name) -> c <> "-"%char) ->
  (forall c, In c (list_ascii_of_string token) -> c <> "-"%char) ->
  Js.split "-" (name ++ String "-" token)%string = [name; token].
Proof.
  intros Hname Htoken. induction name as [| c name IH].
  - cbn [append Js.split]. rewrite Ascii.eqb_refl.
    now rewrite (split_plain _ _ Htoken).
  - cbn [append Js.split].
    destruct (Ascii.eqb_spec c "-"%char) as [Heq | Hne].
    + elim (Hname c); [now left | exact Heq].
    + rewrite IH; [reflexivity |]. intros c' Hc'. apply Hname. now right.
Qed.

Lemma uint_plain (d : Decimal.uint) :
  forall c, In c (list_ascii_of_string (NilEmpty.string_of_uint d)) ->
            c <> "-"%char.
Proof.
  induction d; cbn [NilEmpty.string_of_uint list_ascii_of_string];
    intros c Hc; try contradiction;
    destruct Hc as [<- | Hc]; try discriminate; now apply IHd.
Qed.

Lemma showZ_decimal (t : Z) :
  (0 <= t)%Z ->
  exists d,
    Number.showZ t = NilEmpty.string_of_uint d
    /\ d <> Decimal.Nil
    /\ Pos.of_uint d = Z.to_N t.
Proof.
  intros Ht. destruct t as [| p | p]; [| | lia].
  - exists (Decimal.D0 Decimal.Nil). now repeat split.
  - exists (Pos.to_uint p). unfold Number.showZ. cbn [Z.to_int].
    pose proof (DecimalPos.Unsigned.to_uint_nonnil p) as Hnil.
    split; [| split; [exact Hnil | apply DecimalPos.Unsigned.of_to]].
    unfold NilZero.string_of_int, NilZero.string_of_uint.
    now destruct (Pos.to_uint p).
Qed.

Lemma ofN_exact (n : N) :
  (n < 2 ^ 53)%N -> Number.ofN false n = Finite (inject_Z (Z.of_N n)).
Proof.
  intros Hn. unfold Number.ofN, Number.roundToDouble.
  apply N.ltb_lt in Hn. now rewrite Hn.
Qed.

(** The token of an id made from a time value is that time value. *)
Lemma token_of_time (t : Z) (name : string) :
  (0 <= t < 2 ^ 53)%Z ->
  (forall c, In c (list_ascii_of_string name) -> c <> "-"%char) ->
  Number.parseInt
    (Js.orElse
       (nth_error (Js.split "-" (name ++ "-" ++ Number.showZ t)%string) 1)
       "0")
  = Finite (inject_Z t).
Proof.
  intros [Hlow Hhigh] Hname.
  destruct (showZ_decimal t Hlow) as (d & -> & Hd & Hvalue).
  change (name ++ "-" ++ NilEmpty.string_of_uint d)%string
    with (name ++ String "-" (NilEmpty.string_of_uint d))%string.
  rewrite (split_token name _ Hname (uint_plain d)).
  cbn [nth_error].
  replace (Js.orElse (Some (NilEmpty.string_of_uint d)) "0")
    with (NilEmpty.string_of_uint d)
    by (destruct d; [now elim Hd | ..]; reflexivity).
  rewrite (parseInt_of_uint d Hd), Hvalue, ofN_exact.
  - now rewrite Z2N.id.
  - apply N2Z.inj_lt. rewrite Z2N.id by exact Hlow. exact Hhigh.
Qed.

End Tokens.

(* ===================================================================== *)
(** * components/FlowCanvas.tsx: the graph the canvas builds *)
(* ===================================================================== *)

Section CanvasFacts.
Local Open Scope list_scope.

Lemma getNextEndpointIndex_bound (nodes : list FlowSlice.CodeNode) :
  (FlowCanvas.getNextEndpointIndex nodes < 4)%nat.
Proof.
  unfold FlowCanvas.getNextEndpointIndex.
  destruct (List.length _ =? 0)%nat; [lia |].
  match goal with
  | |- context [(?a mod 3)%nat] =>
      pose proof (Nat.mod_upper_bound a 3 ltac:(discriminate))
  end.
  lia.
Qed.

Lemma template_at (i : nat) :
  (i < 4)%nat ->
  exists template, nth_error FlowCanvas.API_ENDPOINTS i = Some template.
Proof.
  intros Hi. destruct i as [| [| [| [| i]]]]; try lia; eexists; reflexivity.
Qed.

Lemma idAt_not_entry (t : Z) :
  String.eqb (idAt t) "input-node" = false.
Proof. reflexivity. Qed.

(** What [handleAddNode] does when the canvas shows an input node. *)
Lemma handleAddNode_adds (nodes : list FlowSlice.CodeNode)
    (c : FlowCanvas.Click) (state : FlowSlice.FlowState) :
  In "input-node"%string (map FlowSlice.id nodes) ->
  exists template,
    nth_error FlowCanvas.API_ENDPOINTS (FlowCanvas.getNextEndpointIndex nodes)
    = Some template
    /\ FlowCanvas.handleAddNode nodes (FlowCanvas.created c)
         (FlowCanvas.linked c) (FlowCanvas.height c) state
       = inl (FlowSlice.addEdge (edgeAdded c)
                (FlowSlice.addNode
                   (nodeAdded (List.length nodes) template c) state)).
Proof.
  intros Hentry.
  destruct (template_at _ (getNextEndpointIndex_bound nodes))
    as [template Htemplate].
  exists template. split; [exact Htemplate |].
  unfold FlowCanvas.handleAddNode. rewrite Htemplate.
  destruct (find _ nodes) as [found |] eqn:Hfind; [reflexivity |].
  exfalso. apply in_map_iff in Hentry as [n [Hid Hn]].
  apply (find_none _ _ Hfind) in Hn. rewrite Hid in Hn. discriminate Hn.
Qed.

Lemma handleAddNode_idle (nodes : list FlowSlice.CodeNode)
    (created linked : Z) (height : JSNumber) (state : FlowSlice.FlowState) :
  ~ In "input-node"%string (map FlowSlice.id nodes) ->
  FlowCanvas.handleAddNode nodes created linked height state = inl state.
Proof.
  intros Hentry. unfold FlowCanvas.handleAddNode.
  destruct (find _ nodes) as [found |] eqn:Hfind; [| reflexivity].
  exfalso. apply find_some in Hfind as [Hin Hid].
  apply String.eqb_eq in Hid. apply Hentry. rewrite <- Hid.
  now apply in_map.
Qed.

Lemma built_snoc (clicks : list FlowCanvas.Click) (c : FlowCanvas.Click) :
  FlowCanvas.built (clicks ++ [c])
  = FlowCanvas.click (FlowCanvas.built clicks) c.
Proof. unfold FlowCanvas.built. now rewrite fold_left_app. Qed.

Lemma others_of_built (added : list FlowSlice.CodeNode)
    (clicks : list FlowCanvas.Click) :
  map FlowSlice.id added
  = map (fun c => idAt (FlowCanvas.created c)) clicks ->
  filter (fun node => negb (String.eqb (FlowSlice.id node) "input-node"))
    added = added.
Proof.
  intros Hids. apply filter_all. intros n Hn.
  apply (in_map FlowSlice.id) in Hn. rewrite Hids in Hn.
  apply in_map_iff in Hn as [c [<- _]]. reflexivity.
Qed.

(** The store of a built canvas: the input node, then one node per
    click, each made from the template the canvas chose for it, and one
    edge per click. *)
Lemma built_shape (clicks : list FlowCanvas.Click) :
  exists added,
    FlowSlice.nodes (FlowCanvas.built clicks) = FlowCanvas.inputNode :: added
    /\ FlowSlice.edges (FlowCanvas.built clicks) = map edgeAdded clicks
    /\ map FlowSlice.id added
       = map (fun c => idAt (FlowCanvas.created c)) clicks
    /\ (forall k c,
          nth_error clicks k = Some c ->
          exists template,
            nth_error FlowCanvas.API_ENDPOINTS
              (FlowCanvas.getNextEndpointIndex
                 (FlowCanvas.inputNode :: firstn k added))
            = Some template
            /\ nth_error added k = Some (nodeAdded (S k) template c)).
Proof.
  induction clicks as [| c clicks IH] using rev_ind.
  - exists []. repeat split; try reflexivity.
    intros [| k] c H; discriminate H.
  - destruct IH as (added & Hnodes & Hedges & Hids & Hadded).
    rewrite built_snoc. unfold FlowCanvas.click.
    destruct (handleAddNode_adds (FlowSlice.nodes (FlowCanvas.built clicks))
                c (FlowCanvas.built clicks))
      as (template & Htemplate & ->);
      [rewrite Hnodes; now left |].
    assert (Hlen : List.length added = List.length clicks)
      by (rewrite <- (length_map FlowSlice.id), Hids; apply length_map).
    exists (added ++ [nodeAdded (S (List.length clicks)) template c]).
    cbn [FlowSlice.nodes FlowSlice.edges FlowSlice.addEdge FlowSlice.addNode
           FlowSlice.setNodes FlowSlice.setEdges].
    rewrite Hnodes, Hedges, !map_app, Hids. cbn [map List.length].
    rewrite Hlen.
    split; [reflexivity |]. split; [reflexivity |]. split; [reflexivity |].
    intros k c' Hk.
    destruct (Nat.lt_ge_cases k (List.length clicks)) as [Hlt | Hge].
    + rewrite nth_error_app1 in Hk by exact Hlt.
      destruct (Hadded k c' Hk) as (template' & Htemplate' & Hnth).
      exists template'. rewrite firstn_app.
      replace (k - List.length added)%nat with 0%nat by lia.
      cbn [firstn]. rewrite app_nil_r. split; [exact Htemplate' |].
      rewrite nth_error_app1 by lia. exact Hnth.
    + rewrite nth_error_app2 in Hk by exact Hge.
      destruct (k - List.length clicks)%nat as [| j] eqn:Hj;
        [| destruct j; discriminate Hk].
      injection Hk as <-. assert (k = List.length clicks) as -> by lia.
      exists template. rewrite firstn_app, <- Hlen, firstn_all, Nat.sub_diag.
      cbn [firstn]. rewrite app_nil_r.
      rewrite Hnodes in Htemplate. split; [exact Htemplate |].
      rewrite nth_error_app2 by lia. now rewrite Nat.sub_diag.
Qed.

Lemma sort_of_sorted {A : Type} (comparefn : A -> A -> JSNumber)
    (l : list A) :
  StronglySorted (inOrder comparefn) l -> Js.sort comparefn l = l.
Proof.
  induction 1 as [| a l Hsorted IH Hhead]; [reflexivity |].
  cbn [Js.sort]. rewrite IH. destruct l as [| b l]; [reflexivity |].
  cbn [Js.insert]. inversion Hhead as [| ? ? Hab _]; subst.
  unfold inOrder in Hab. now rewrite Hab.
Qed.

Lemma creationTime_idAt (node : CodeNode) (t : Z) :
  timeValue t -> id node = idAt t ->
  QueueFlowExecutor.creationTime node = Finite (inject_Z t).
Proof.
  intros Ht Hid. unfold QueueFlowExecutor.creationTime. rewrite Hid.
  apply (token_of_time t "node" Ht).
  intros c Hc. cbn in Hc.
  destruct Hc as [<- | [<- | [<- | [<- | []]]]]; discriminate.
Qed.

Lemma after_times (a b : CodeNode) (ta tb : Z) :
  timeValue ta -> timeValue tb -> id a = idAt ta -> id b = idAt tb ->
  Js.after QueueFlowExecutor.byCreationTime a b = (tb <? ta)%Z.
Proof.
  intros Hta Htb Ha Hb. unfold Js.after, QueueFlowExecutor.byCreationTime.
  rewrite (creationTime_idAt a ta Hta Ha), (creationTime_idAt b tb Htb Hb).
  cbn. destruct (Z.ltb_spec tb ta); [apply Z.ltb_lt | apply Z.ltb_ge]; lia.
Qed.

Lemma idAt_inj (ta tb : Z) :
  timeValue ta -> timeValue tb -> idAt ta = idAt tb -> ta = tb.
Proof.
  intros Hta Htb Heq.
  pose (node := {| id := idAt ta; data := {| label := EmptyString;
                                             code := EmptyString |} |}).
  pose proof (creationTime_idAt node ta Hta eq_refl) as Ha.
  pose proof (creationTime_idAt node tb Htb Heq) as Hb.
  rewrite Ha in Hb. now injection Hb.
Qed.

Lemma views_in_order (clicks : list FlowCanvas.Click) :
  forall added,
    map FlowSlice.id added
    = map (fun c => idAt (FlowCanvas.created c)) clicks ->
    inTime clicks ->
    StronglySorted (inOrder QueueFlowExecutor.byCreationTime)
      (map nodeView added).
Proof.
  induction clicks as [| c clicks IH]; intros [| n added] Hids [Htimes Hsorted];
    try discriminate Hids; [constructor |].
  cbn [map] in *. injection Hids as Hid Hids.
  inversion Htimes as [| ? ? Ht Htimes']; subst.
  inversion Hsorted as [| ? ? Hsorted' Hle]; subst.
  constructor; [apply IH; [exact Hids | now split] |].
  apply Forall_forall. intros v Hv.
  apply in_map_iff in Hv as [m [<- Hm]].
  apply (in_map FlowSlice.id) in Hm. rewrite Hids in Hm.
  apply in_map_iff in Hm as [c' [Hid' Hc']].
  pose proof (in_map FlowCanvas.created _ _ Hc') as Hin.
  unfold inOrder.
  rewrite (after_times _ _ (FlowCanvas.created c) (FlowCanvas.created c'));
    [| exact Ht | exact (proj1 (Forall_forall _ _) Htimes' _ Hin)
     | exact Hid | now symmetry].
  apply Z.ltb_ge. exact (proj1 (Forall_forall _ _) Hle _ Hin).
Qed.

Lemma apart_inTime (clicks : list FlowCanvas.Click) :
  apart clicks -> inTime clicks.
Proof.
  intros [Htimes Hsorted]. split; [exact Htimes |].
  clear Htimes. induction Hsorted as [| t l Hsorted IH Hhead];
    constructor; [exact IH |].
  apply Forall_forall. intros u Hu.
  apply Z.lt_le_incl. exact (proj1 (Forall_forall _ _) Hhead u Hu).
Qed.

Lemma apart_NoDup (clicks : list FlowCanvas.Click) :
  apart clicks ->
  NoDup (map (fun c => idAt (FlowCanvas.created c)) clicks).
Proof.
  intros [Htimes Hsorted].
  induction clicks as [| c clicks IH]; [constructor |].
  cbn [map] in *.
  inversion Htimes as [| ? ? Ht Htimes']; subst.
  inversion Hsorted as [| ? ? Hsorted' Hlt]; subst.
  constructor; [| now apply IH].
  intros Hin. apply in_map_iff in Hin as [c' [Heq Hc']].
  pose proof (in_map FlowCanvas.created _ _ Hc') as Hin.
  apply idAt_inj in Heq;
    [| exact (proj1 (Forall_forall _ _) Htimes' _ Hin) | exact Ht].
  pose proof (proj1 (Forall_forall _ _) Hlt _ Hin). lia.
Qed.

(** The queue of a built canvas. *)
Lemma queue_of_built (clicks : list FlowCanvas.Click) :
  inTime clicks ->
  QueueFlowExecutor.createExecutionQueue (nodesRead (FlowCanvas.built clicks))
  = "input-node"%string
    :: map (fun c => idAt (FlowCanvas.created c)) clicks.
Proof.
  intros Htime.
  destruct (built_shape clicks) as (added & Hnodes & _ & Hids & _).
  unfold nodesRead. rewrite Hnodes.
  rewrite queue_with_entry by (now left).
  cbn [map filter nodeView id FlowCanvas.inputNode FlowSlice.id].
  change (negb ("input-node" =? QueueFlowExecutor.ENTRY)%string) with false.
  cbn iota.
  assert (Hothers :
            filter (fun node =>
                      negb (String.eqb (id node) QueueFlowExecutor.ENTRY))
              (map nodeView added) = map nodeView added).
  { apply filter_all. intros v Hv. apply in_map_iff in Hv as [m [<- Hm]].
    apply (in_map FlowSlice.id) in Hm. rewrite Hids in Hm.
    apply in_map_iff in Hm as [c [Hid _]]. cbn [nodeView id].
    now rewrite <- Hid. }
  rewrite Hothers, sort_of_sorted by (now apply (views_in_order clicks)).
  f_equal. rewrite map_map. exact Hids.
Qed.

Lemma findNode_nth (nodes : list CodeNode) (k : nat) (node : CodeNode) :
  NoDup (map id nodes) -> nth_error nodes k = Some node ->
  findNode nodes (id node) = Some node.
Proof.
  revert k. induction nodes as [| n nodes IH]; intros k Hnodup Hnth;
    [destruct k; discriminate Hnth |].
  cbn [map] in Hnodup. inversion Hnodup as [| ? ? Hfresh Hrest]; subst.
  unfold findNode. cbn [find]. destruct k as [| k].
  - injection Hnth as ->. now rewrite String.eqb_refl.
  - cbn [nth_error] in Hnth.
    destruct (String.eqb_spec (id n) (id node)) as [Heq | Hne].
    + elim Hfresh. rewrite Heq. apply in_map. now apply (nth_error_In _ k).
    + now apply (IH k).
Qed.

Lemma index_agrees (k : nat) :
  (if (k =? 0)%nat then 0%nat else ((k - 1) mod 3 + 1)%nat) = (k mod 4)%nat
  <-> k = 0%nat \/ (k mod 12 = 1)%nat \/ (k mod 12 = 2)%nat
      \/ (k mod 12 = 3)%nat.
Proof.
  destruct (Nat.eqb_spec k 0); [subst; cbn; lia |].
  pose proof (Nat.div_mod_eq k 12) as H12.
  pose proof (Nat.mod_upper_bound k 12 ltac:(discriminate)) as Hm.
  set (m := (k mod 12)%nat) in *. set (q := (k / 12)%nat) in *.
  assert (H4 : (k mod 4 = m mod 4)%nat).
  { rewrite H12. replace (12 * q + m)%nat with (m + (3 * q) * 4)%nat by lia.
    apply Nat.Div0.mod_add. }
  assert (H3 : ((k - 1) mod 3 = (m + 11) mod 3)%nat).
  { replace (k - 1)%nat with (k + 11 - 12)%nat by lia.
    rewrite H12. destruct q as [| q].
    - replace (12 * 0 + m + 11 - 12)%nat with (m - 1)%nat by lia.
      destruct m as [| m']; [lia |].
      replace (S m' - 1)%nat with m' by lia.
      replace (S m' + 11)%nat with (m' + 4 * 3)%nat by lia.
      now rewrite Nat.Div0.mod_add.
    - replace (12 * S q + m + 11 - 12)%nat
        with (m + 11 + (4 * q) * 3)%nat by lia.
      apply Nat.Div0.mod_add. }
  rewrite H4, H3. clear H4 H3 H12.
  do 12 (destruct m as [| m]; [cbn; lia |]). lia.
Qed.

Lemma endpoint_index (k : nat) :
  Z.rem (Z.of_nat (S k) - 1)
    (Z.of_nat (List.length QueueFlowExecutor.API_ENDPOINTS))
  = Z.of_nat (k mod 4).
Proof.
  cbn [List.length QueueFlowExecutor.API_ENDPOINTS].
  rewrite Z.rem_mod_nonneg by lia.
  replace (Z.of_nat (S k) - 1)%Z with (Z.of_nat k) by lia.
  now rewrite (Nat2Z.inj_mod k 4).
Qed.

(** On a built canvas the input node is the first node, and the only
    one, that no edge ends at. *)
Lemma built_start (clicks : list FlowCanvas.Click) :
  FlowExecutor.findStartNode (nodesRead (FlowCanvas.built clicks))
    (edgesRead (FlowCanvas.built clicks)) = Some "input-node"%string.
Proof.
  destruct (built_shape clicks) as (added & Hnodes & Hedges & Hids & _).
  apply (findStartNode_first _ _ [] (map nodeView added)
           (nodeView FlowCanvas.inputNode)).
  - unfold nodesRead. now rewrite Hnodes.
  - intros m [].
  - unfold hasIncoming, edgesRead. rewrite Hedges, !map_map.
    intros Hin. apply in_map_iff in Hin as [c [Heq _]].
    pose proof (idAt_not_entry (FlowCanvas.created c)) as Hne.
    apply String.eqb_neq in Hne. apply Hne. exact Heq.
Qed.

End CanvasFacts.

Section CanvasTheorems.
Local Open Scope list_scope.

(** X12: [handleAddNode] never throws: the index it computes always
    names one of the four templates, and is 0 exactly when the canvas
    shows no node but input nodes.  Without an input node on the canvas it
    leaves the store alone; otherwise it appends one node, made from that
    template and placed by the number of nodes shown, and one edge from
    the input node to it. *)
Theorem handleAddNode_never_throws (nodes : list FlowSlice.CodeNode)
    (c : FlowCanvas.Click) (state : FlowSlice.FlowState) :
  exists state',
    FlowCanvas.handleAddNode nodes (FlowCanvas.created c)
      (FlowCanvas.linked c) (FlowCanvas.height c) state = inl state'
    /\ (~ In "input-node"%string (map FlowSlice.id nodes) -> state' = state)
    /\ (In "input-node"%string (map FlowSlice.id nodes) ->
        exists template,
          nth_error FlowCanvas.API_ENDPOINTS
            (FlowCanvas.getNextEndpointIndex nodes) = Some template
          /\ state'
             = FlowSlice.addEdge (edgeAdded c)
                 (FlowSlice.addNode
                    (nodeAdded (List.length nodes) template c) state))
    /\ (FlowCanvas.getNextEndpointIndex nodes = 0%nat
        <-> forall n, In n nodes -> FlowSlice.id n = "input-node"%string).
Proof.
  assert (Hzero : FlowCanvas.getNextEndpointIndex nodes = 0%nat
                  <-> forall n, In n nodes ->
                                FlowSlice.id n = "input-node"%string).
  { unfold FlowCanvas.getNextEndpointIndex.
    set (others := filter _ nodes).
    destruct others as [| other others'] eqn:Hothers; cbn [List.length Nat.eqb].
    - split; [intros _ | reflexivity]. intros n Hn.
      destruct (String.eqb_spec (FlowSlice.id n) "input-node") as [Heq | Hne];
        [exact Heq |].
      assert (Hin : In n others).
      { apply filter_In. split; [exact Hn |].
        now apply negb_true_iff, String.eqb_neq. }
      rewrite Hothers in Hin. contradiction.
    - split; [lia |]. intros Hall. exfalso.
      assert (Hin : In other others) by (rewrite Hothers; now left).
      apply filter_In in Hin as [Hin Hne].
      apply negb_true_iff, String.eqb_neq in Hne. now apply Hne, Hall. }
  destruct (in_dec string_dec "input-node"%string (map FlowSlice.id nodes))
    as [Hentry | Hentry].
  - destruct (handleAddNode_adds nodes c state Hentry)
      as (template & Htemplate & Hrun).
    eexists. split; [exact Hrun |]. split; [intros Hno; contradiction |].
    split; [intros _; now exists template | exact Hzero].
  - exists state. split; [now apply handleAddNode_idle |].
    split; [reflexivity |]. split; [intros Hyes; contradiction | exact Hzero].
Qed.

(** X13: the graph of a canvas that was mounted and clicked on is
    closed: it holds the input node and one node per click, and one edge
    per click, from the input node to the node of that click; so the
    graph executor, given no start id, starts at the input node. *)
Theorem built_canvas_is_closed (clicks : list FlowCanvas.Click) :
  closed (FlowCanvas.built clicks)
  /\ map FlowSlice.id (FlowSlice.nodes (FlowCanvas.built clicks))
     = "input-node"%string
       :: map (fun c => idAt (FlowCanvas.created c)) clicks
  /\ map (fun e => (FlowSlice.source e, FlowSlice.target e))
       (FlowSlice.edges (FlowCanvas.built clicks))
     = map (fun c => ("input-node"%string, idAt (FlowCanvas.created c)))
         clicks
  /\ FlowExecutor.findStartNode (nodesRead (FlowCanvas.built clicks))
       (edgesRead (FlowCanvas.built clicks)) = Some "input-node"%string.
Proof.
  destruct (built_shape clicks) as (added & Hnodes & Hedges & Hids & _).
  assert (Hall : map FlowSlice.id (FlowSlice.nodes (FlowCanvas.built clicks))
                 = "input-node"%string
                   :: map (fun c => idAt (FlowCanvas.created c)) clicks)
    by (rewrite Hnodes; cbn [map]; now rewrite Hids).
  split; [| split; [exact Hall | split]].
  - intros e He. rewrite Hall. rewrite Hedges in He.
    apply in_map_iff in He as [c [<- Hc]]. cbn [edgeAdded FlowSlice.source
                                                 FlowSlice.target].
    split; [now left | right].
    now apply (in_map (fun c => idAt (FlowCanvas.created c))).
  - rewrite Hedges, map_map. reflexivity.
  - apply built_start.
Qed.

(** X14: the queue reads back the time the canvas wrote into an id: the
    creation time of the node added at time [t] is [t], for every time
    value a double holds exactly; so on a canvas clicked on at times that
    never go back the queue is the input node followed by the added nodes
    in the order they were added. *)
Theorem queue_follows_the_clicks (clicks : list FlowCanvas.Click) :
  (forall node t,
      timeValue t -> id node = idAt t ->
      QueueFlowExecutor.creationTime node = Finite (inject_Z t))
  /\ (inTime clicks ->
      QueueFlowExecutor.createExecutionQueue
        (nodesRead (FlowCanvas.built clicks))
      = "input-node"%string
        :: map (fun c => idAt (FlowCanvas.created c)) clicks).
Proof.
  split; [intros node t; apply creationTime_idAt | apply queue_of_built].
Qed.

(** X15: the label the canvas gives a node and the endpoint the queue
    executor calls for it are chosen by different rules.  On a canvas
    clicked on at times that go forward, the node of click [k] (from 0)
    stands at queue position [k + 1]; its label names the endpoint
    [executeNode] picks for that position exactly when [k] is 0 or [k]
    modulo 12 is 1, 2 or 3.  So the first four labels are right and the
    fifth node, labelled [Basic Function Test], is run as a health
    check. *)
Theorem label_names_endpoint_called (clicks : list FlowCanvas.Click)
    (k : nat) (c : FlowCanvas.Click) :
  apart clicks ->
  nth_error clicks k = Some c ->
  exists node endpoint,
    nth_error (QueueFlowExecutor.createExecutionQueue
                 (nodesRead (FlowCanvas.built clicks))) (S k)
    = Some (id node)
    /\ findNode (nodesRead (FlowCanvas.built clicks)) (id node) = Some node
    /\ id node = idAt (FlowCanvas.created c)
    /\ Js.at_ QueueFlowExecutor.API_ENDPOINTS
         (Z.rem (Z.of_nat (S k) - 1)
            (Z.of_nat (List.length QueueFlowExecutor.API_ENDPOINTS)))
       = Some endpoint
    /\ (label (data node) = QueueFlowExecutor.name endpoint
        <-> k = 0%nat \/ (k mod 12 = 1)%nat \/ (k mod 12 = 2)%nat
            \/ (k mod 12 = 3)%nat).
Proof.
  intros Hapart Hk.
  destruct (built_shape clicks) as (added & Hnodes & _ & Hids & Hadded).
  destruct (Hadded k c Hk) as (template & Htemplate & Hnth).
  assert (Hlen : List.length added = List.length clicks)
    by (rewrite <- (length_map FlowSlice.id), Hids; apply length_map).
  assert (Hklt : (k < List.length clicks)%nat)
    by (apply nth_error_Some; congruence).
  (* the template of the k-th node *)
  assert (Hindex : FlowCanvas.getNextEndpointIndex
                     (FlowCanvas.inputNode :: firstn k added)
                   = if (k =? 0)%nat then 0%nat
                     else ((k - 1) mod 3 + 1)%nat).
  { unfold FlowCanvas.getNextEndpointIndex. cbn [filter].
    change (negb (String.eqb (FlowSlice.id FlowCanvas.inputNode)
                    "input-node")) with false. cbn iota.
    rewrite filter_all;
      [rewrite length_firstn, Nat.min_l by lia; reflexivity |].
    intros n Hn.
    assert (Hin : In n added)
      by (rewrite <- (firstn_skipn k added); apply in_or_app; now left).
    clear Hn. rename Hin into Hn.
    apply (in_map FlowSlice.id) in Hn. rewrite Hids in Hn.
    apply in_map_iff in Hn as [c' [<- _]]. reflexivity. }
  rewrite Hindex in Htemplate.
  set (node := nodeView (nodeAdded (S k) template c)).
  assert (Hnodup : NoDup (map id (nodesRead (FlowCanvas.built clicks)))).
  { unfold nodesRead. rewrite Hnodes, map_map. cbn [map].
    change (fun x => id (nodeView x)) with FlowSlice.id. rewrite Hids.
    constructor; [| now apply apart_NoDup].
    intros Hin. apply in_map_iff in Hin as [c' [Heq _]].
    pose proof (idAt_not_entry (FlowCanvas.created c')) as Hne.
    apply String.eqb_neq in Hne. apply Hne. exact Heq. }
  rewrite endpoint_index. unfold Js.at_.
  replace (Z.of_nat (k mod 4) <? 0)%Z with false
    by (symmetry; apply Z.ltb_ge; lia).
  rewrite Nat2Z.id.
  pose proof (Nat.mod_upper_bound k 4 ltac:(discriminate)) as Hbound.
  pose proof (index_agrees k) as Hagree.
  assert (Hend : exists endpoint,
             nth_error QueueFlowExecutor.API_ENDPOINTS (k mod 4)
             = Some endpoint
             /\ (FlowCanvas.name template = QueueFlowExecutor.name endpoint
                 <-> (if (k =? 0)%nat then 0%nat
                      else ((k - 1) mod 3 + 1)%nat) = (k mod 4)%nat)).
  { assert (Hl : ((if (k =? 0)%nat then 0 else (k - 1) mod 3 + 1) < 4)%nat).
    { destruct (k =? 0)%nat; [lia |].
      pose proof (Nat.mod_upper_bound (k - 1) 3 ltac:(discriminate)). lia. }
    clear Hagree Hindex.
    destruct (if (k =? 0)%nat then 0%nat else ((k - 1) mod 3 + 1)%nat)
      as [| [| [| [| l]]]]; try lia;
      destruct (k mod 4)%nat as [| [| [| [| e]]]]; try lia;
      cbn in Htemplate; injection Htemplate as <-;
      eexists; (split; [reflexivity |]); cbn;
      split; intros H; first [reflexivity | discriminate H]. }
  destruct Hend as (endpoint & Hendpoint & Hnames).
  exists node, endpoint.
  split.
  { rewrite (queue_of_built clicks (apart_inTime clicks Hapart)).
    cbn [nth_error]. rewrite nth_error_map, Hk. reflexivity. }
  split.
  { apply (findNode_nth _ (S k)); [exact Hnodup |].
    unfold nodesRead. rewrite Hnodes. cbn [map nth_error].
    now rewrite nth_error_map, Hnth. }
  split; [reflexivity |]. split; [exact Hendpoint |].
  cbn [node nodeView label data nodeAdded FlowSlice.label FlowSlice.data].
  rewrite Hnames. exact Hagree.
Qed.

End CanvasTheorems.

(* ===================================================================== *)
(** * utils/queueFlowExecutor.ts: what the callbacks are told *)
(* ===================================================================== *)

Section CallFacts.
Import QueueFlowExecutor.
Local Open Scope list_scope.
Local Open Scope run_scope.

Lemma logsOf_app (l1 l2 : list Call) :
  logsOf (l1 ++ l2) = logsOf l1 ++ logsOf l2.
Proof. apply flat_map_app. Qed.

Lemma noticesOf_app (l1 l2 : list Call) :
  noticesOf (l1 ++ l2) = noticesOf l1 ++ noticesOf l2.
Proof. apply filter_app. Qed.

Variable host : Host.
Variable callbacks : Callbacks.
Hypothesis Hlog : quietLog callbacks.
Hypothesis Hstart : quietStart callbacks.
Hypothesis Hcomplete : quietComplete callbacks.

Lemma executeNode_said (node : CodeNode) (i : nat) (s : State) :
  id node = ENTRY \/ (1 <= i)%nat ->
  exists r s' added,
    executeNode host node (Z.of_nat i) (addLog host callbacks) s
    = (s', inl r)
    /\ stLogs s' = stLogs s ++ added
    /\ logsOf (calls s')
       = logsOf (calls s) ++ (if given (onLog callbacks) then added else [])
    /\ noticesOf (calls s') = noticesOf (calls s)
    /\ settled s' = settled s
    /\ stCompleted s' = stCompleted s
    /\ stFinalOutput s' = stFinalOutput s
    /\ settledAs host i (id node) r.
Proof.
  intros Hplace. unfold executeNode, settledAs, resultAt.
  destruct (String.eqb (id node) ENTRY) eqn:Hentry.
  - unfold bind. rewrite (addLog_quiet host callbacks Hlog).
    unfold now, ret. simpl.
    do 3 eexists. split; [reflexivity |]. simpl.
    split; [reflexivity |].
    split;
      [rewrite ?logsOf_app, ?noticesOf_app; destruct (onLog callbacks); cbn;
       rewrite ?app_nil_r, <- ?app_assoc; reflexivity |].
    split;
      [rewrite ?logsOf_app, ?noticesOf_app; destruct (onLog callbacks); cbn;
       rewrite ?app_nil_r, <- ?app_assoc; reflexivity |].
    repeat split. now eexists.
  - destruct Hplace as [Heq | Hi];
      [rewrite Heq, String.eqb_refl in Hentry; discriminate |].
    destruct (endpoint_at i Hi) as [endpoint ->].
    unfold bind, tryCatch. rewrite !(addLog_quiet host callbacks Hlog).
    unfold call.
    destruct (respond host (Z.of_nat i) (API_BASE_URL ++ path endpoint)%string
                (requestFor endpoint))
      as [message | ok status statusText [received | message]];
      [ | destruct ok | ]; unfold throw, ret; cbn [negb errorMessageOf];
      rewrite ?(addLog_quiet host callbacks Hlog); cbn [negb errorMessageOf];
      do 3 eexists; (split; [reflexivity |]); simpl;
      rewrite <- ?app_assoc; simpl;
      (split; [reflexivity |]);
      (split;
         [rewrite ?logsOf_app, ?noticesOf_app; destruct (onLog callbacks);
          cbn; rewrite ?app_nil_r, <- ?app_assoc; reflexivity |]);
      (split;
         [rewrite ?logsOf_app, ?noticesOf_app; destruct (onLog callbacks);
          cbn; rewrite ?app_nil_r, <- ?app_assoc; reflexivity |]);
      repeat split; try (now destruct ok).
Qed.

Lemma noticesFor_app (r1 r2 : list (string * NodeExecutionResult)) :
  noticesFor callbacks (r1 ++ r2)
  = noticesFor callbacks r1 ++ noticesFor callbacks r2.
Proof. apply flat_map_app. Qed.

Variable nodes : list CodeNode.

(** One pass of the loop: the records it logs are those handed to
    [onLog]; the node is announced once and its result handed over
    once. *)
Lemma iteration_said (i : nat) (nodeId : string) (node : CodeNode)
    (s : State) :
  findNode nodes nodeId = Some node ->
  nodeId = ENTRY \/ (1 <= i)%nat ->
  exists r s' added,
    iteration host callbacks nodes i nodeId s = (s', inl tt)
    /\ stLogs s' = stLogs s ++ added
    /\ logsOf (calls s')
       = logsOf (calls s) ++ (if given (onLog callbacks) then added else [])
    /\ noticesOf (calls s')
       = noticesOf (calls s) ++ noticesFor callbacks [(nodeId, r)]
    /\ settled s' = settled s ++ [(nodeId, r)]
    /\ settledAs host i nodeId r.
Proof.
  intros Hfind Hplace.
  destruct (findNode_id nodes nodeId node Hfind) as [Hid _].
  unfold iteration. rewrite Hfind. unfold bind at 1 2.
  rewrite (addLog_quiet host callbacks Hlog),
    (notifyStart_quiet callbacks Hstart).
  unfold tryCatch, attempt. unfold bind at 1.
  match goal with
  | |- context [executeNode host node (Z.of_nat i) _ ?s0] =>
      destruct (executeNode_said node i s0)
        as (r & s1 & added1 & Hexec & Hlogs & Hheard & Hnotices & Hs & Hc
            & Hf & Has);
      [rewrite Hid; exact Hplace |]
  end.
  rewrite Hexec. exists r. rewrite Hid in Has.
  unfold bind, settle, complete, update.
  destruct (success r) eqn:Hok;
    rewrite (addLog_quiet host callbacks Hlog),
      (notifyComplete_quiet callbacks Hcomplete);
    do 2 eexists; (split; [reflexivity |]); simpl;
    rewrite Hlogs, Hs; simpl; rewrite <- !app_assoc; simpl;
    (split; [reflexivity |]);
    rewrite !logsOf_app, !noticesOf_app, Hheard, Hnotices;
    simpl; rewrite !logsOf_app, !noticesOf_app;
    (split; [| split; [| split; [reflexivity | exact Has]]]).
  all: destruct (onLog callbacks), (onNodeStart callbacks),
         (onNodeComplete callbacks);
    cbn [heard logsOf noticesOf flat_map filter given app noticesFor
           fst snd];
    rewrite ?app_nil_r, <- ?app_assoc; reflexivity.
Qed.


Lemma forLoop_said (rest : list string) :
  forall i s,
    (forall nodeId, In nodeId rest -> findNode nodes nodeId <> None) ->
    placed i rest ->
    exists s' added results,
      forLoop host callbacks nodes i rest s = (s', inl tt)
      /\ stLogs s' = stLogs s ++ added
      /\ logsOf (calls s')
         = logsOf (calls s)
           ++ (if given (onLog callbacks) then added else [])
      /\ noticesOf (calls s')
         = noticesOf (calls s) ++ noticesFor callbacks results
      /\ settled s' = settled s ++ results
      /\ map fst results = rest
      /\ settledFrom host i results.
Proof.
  induction rest as [| nodeId rest IH]; intros i s Hfound Hplaced.
  - exists s, [], []. cbn. rewrite !app_nil_r. unfold ret.
    destruct (given (onLog callbacks)); rewrite ?app_nil_r;
      now repeat split.
  - destruct (findNode nodes nodeId) as [node |] eqn:Hfind;
      [| now elim (Hfound nodeId (or_introl eq_refl))].
    destruct (iteration_said i nodeId node s Hfind Hplaced)
      as (r & s1 & added & Hrun & Hlogs & Hheard & Hnotices & Hsettled
          & Has).
    destruct (IH (S i) s1)
      as (s2 & added2 & results & Hrun2 & Hlogs2 & Hheard2 & Hnotices2
          & Hsettled2 & Hids & Hfrom).
    + intros x Hx. apply Hfound. now right.
    + destruct rest; simpl; [exact I | right; lia].
    + exists s2, (added ++ added2), ((nodeId, r) :: results).
      cbn [forLoop]. unfold bind. rewrite Hrun, Hrun2.
      split; [reflexivity |].
      split; [rewrite Hlogs2, Hlogs; now rewrite app_assoc |].
      split; [rewrite Hheard2, Hheard;
              destruct (given (onLog callbacks));
              rewrite ?app_nil_r, <- ?app_assoc; reflexivity |].
      split; [rewrite Hnotices2, Hnotices, <- app_assoc;
              now rewrite <- noticesFor_app |].
      split; [rewrite Hsettled2, Hsettled; now rewrite <- app_assoc |].
      split; [cbn [map fst]; now rewrite Hids |].
      cbn [settledFrom]. now split.
Qed.

(** The whole run with callbacks that return. *)
Lemma executeFlow_said (edges : list Edge) (s : State) :
  exists r s',
    executeFlow host nodes edges callbacks s = (s', inl r)
    /\ runSuccess r = true
    /\ logs r = stLogs s'
    /\ completedNodes r = stCompleted s'
    /\ logsOf (calls s')
       = logsOf (calls s)
         ++ (if given (onLog callbacks) then logs r else [])
    /\ noticesOf (calls s')
       = noticesOf (calls s) ++ noticesFor callbacks (settled s')
    /\ map fst (settled s') = createExecutionQueue nodes
    /\ settledFrom host 0 (settled s').
Proof.
  unfold executeFlow, announce, wholeQueue. unfold bind at 1 2.
  unfold update at 1. rewrite (addLog_quiet host callbacks Hlog).
  unfold tryCatch, bind.
  match goal with
  | |- context [forLoop host callbacks nodes 0 _ ?s0] =>
      destruct (forLoop_said (createExecutionQueue nodes) 0 s0)
        as (s1 & added & results & Hrun & Hlogs & Hheard & Hnotices
            & Hsettled & Hids & Hfrom);
      [ intros x Hx; now apply queue_ids_found
      | apply queue_placed | ]
  end.
  rewrite Hrun, (addLog_quiet host callbacks Hlog). unfold get, ret.
  cbn in Hsettled, Hlogs, Hheard, Hnotices.
  do 2 eexists. split; [reflexivity |]. cbn.
  split; [reflexivity |]. split; [reflexivity |]. split; [reflexivity |].
  rewrite Hsettled, Hlogs, !logsOf_app, !noticesOf_app, Hheard, Hnotices,
    !logsOf_app, !noticesOf_app.
  split; [| split; [| split; [exact Hids | exact Hfrom]]];
    destruct (onLog callbacks);
    cbn [heard logsOf noticesOf flat_map filter given app];
    rewrite ?app_nil_r, <- ?app_assoc; reflexivity.
Qed.

End CallFacts.

Section StepFacts.
Import QueueFlowExecutor.
Local Open Scope list_scope.
Local Open Scope run_scope.

Variable host : Host.

Lemma executeNode_noLog (node : CodeNode) (i : nat) (s : State) :
  id node = ENTRY \/ (1 <= i)%nat ->
  exists r s',
    executeNode host node (Z.of_nat i) noLog s = (s', inl r)
    /\ (if String.eqb (id node) ENTRY
        then r = initialized (clock host (time s))
        else resultAt host i = Some r).
Proof.
  intros Hplace. unfold executeNode, resultAt, noLog.
  destruct (String.eqb (id node) ENTRY) eqn:Hentry.
  - do 2 eexists. split; reflexivity.
  - assert (Hne : id node <> ENTRY) by now apply String.eqb_neq.
    destruct Hplace as [Heq | Hi]; [now elim Hne |].
    destruct (endpoint_at i Hi) as [endpoint ->].
    unfold bind, tryCatch, ret, call.
    destruct (respond host (Z.of_nat i) _ _)
      as [message | ok status statusText [received | message]];
      [ | destruct ok | ]; cbn;
      do 2 eexists; (split; [reflexivity |]);
      try reflexivity; now destruct ok.
Qed.

Lemma resultAt_own (i : nat) (r : NodeExecutionResult) :
  resultAt host i = Some r -> r <> noMoreNodes /\ r <> nodeNotFound.
Proof.
  unfold resultAt. destruct (Js.at_ _ _) as [endpoint |]; [| discriminate].
  intros H. injection H as <-.
  destruct (respond host (Z.of_nat i) _ _)
    as [message | ok status statusText [received | message]];
    [ | destruct ok | destruct ok ]; cbn; split; discriminate.
Qed.

Variable nodes : list CodeNode.

(** What a step does, by where the cursor stands. *)
Lemma step_account (currentStep : Z) (s : State) :
  let queue := createExecutionQueue nodes in
  exists step s',
    executeNodeStepByStep host nodes currentStep s = (s', inl step)
    /\ hasNext step = (currentStep + 1 <? Z.of_nat (List.length queue))%Z
    /\ ((Z.of_nat (List.length queue) <= currentStep)%Z
        /\ result step = noMoreNodes
        \/ (currentStep < 0)%Z /\ result step = nodeNotFound
        \/ exists k nodeId,
             currentStep = Z.of_nat k
             /\ nth_error queue k = Some nodeId
             /\ (if String.eqb nodeId ENTRY
                 then result step = initialized (clock host (time s))
                 else resultAt host k = Some (result step))).
Proof.
  intros queue. unfold executeNodeStepByStep.
  pose proof (queue_placed nodes) as Hplaced.
  pose proof (queue_ids_found nodes) as Hfound.
  fold queue in Hplaced, Hfound |- *.
  destruct (Z.leb_spec (Z.of_nat (List.length queue)) currentStep)
    as [Hle | Hlt].
  - do 2 eexists. split; [reflexivity |]. cbn [hasNext result].
    split; [symmetry; apply Z.ltb_ge; lia |]. left. now split.
  - unfold Js.at_.
    destruct (Z.ltb_spec currentStep 0) as [Hneg | Hpos].
    + do 2 eexists. split; [reflexivity |]. cbn [hasNext result].
      split; [reflexivity |]. right. left. now split.
    + destruct (Z_of_nat_complete currentStep Hpos) as [k ->].
      rewrite Nat2Z.id.
      destruct (nth_error queue k) as [nodeId |] eqn:Hnth;
        [| apply nth_error_None in Hnth; lia].
      destruct (findNode nodes nodeId) as [node |] eqn:Hfind;
        [| elim (Hfound nodeId); [eapply nth_error_In; eauto | exact Hfind]].
      destruct (findNode_id nodes nodeId node Hfind) as [Hid _].
      assert (Hplace : id node = ENTRY \/ (1 <= k)%nat).
      { destruct k as [| k]; [| right; lia].
        left. destruct queue as [| first rest]; [discriminate Hnth |].
        cbn in Hnth. injection Hnth as ->.
        destruct Hplaced as [-> | Habs]; [exact Hid | lia]. }
      destruct (executeNode_noLog node k s Hplace) as (r & s1 & Hrun & Hr).
      fold noLog. unfold bind. rewrite Hrun. unfold ret.
      do 2 eexists. split; [reflexivity |]. cbn [hasNext result].
      split; [reflexivity |]. right. right. exists k, nodeId.
      rewrite Hid in Hr. now repeat split.
Qed.

End StepFacts.

Section QueueTheorems.
Import QueueFlowExecutor.
Local Open Scope list_scope.
Local Open Scope run_scope.

(** X16: with callbacks that return, [executeFlow] hands [onLog] exactly
    the records of the logs of its result, in their order, announces
    every queue entry to [onNodeStart] once and hands its result to
    [onNodeComplete] once, start and completion of one entry before the
    start of the next, in queue order. *)
Theorem callbacks_are_told_the_run (host : Host) (callbacks : Callbacks)
    (nodes : list CodeNode) (edges : list Edge) (s : State) :
  quiet callbacks ->
  exists r s',
    executeFlow host nodes edges callbacks s = (s', inl r)
    /\ logsOf (calls s')
       = logsOf (calls s)
         ++ (if given (onLog callbacks) then logs r else [])
    /\ noticesOf (calls s')
       = noticesOf (calls s) ++ noticesFor callbacks (settled s')
    /\ map fst (settled s') = createExecutionQueue nodes.
Proof.
  intros (Hstart & Hcomplete & Hlog).
  destruct (executeFlow_said host callbacks Hlog Hstart Hcomplete nodes
              edges s)
    as (r & s' & Hrun & _ & _ & _ & Hheard & Hnotices & Hids & _).
  now exists r, s'.
Qed.

(** X17: the result of a node other than the input node depends on its
    queue position and on the answer of the network only: a network
    failure or an undecodable body gives a failed result with the message
    of the failure, also when the status is not OK; a decoded body with a
    status that is not OK gives [API request failed: <status> <text>];
    a decoded body with an OK status is the output.  So a step with the
    cursor on a queue position returns the very result a whole run with
    callbacks that return settles for that position. *)
Theorem step_returns_what_the_run_settles (host : Host)
    (callbacks : Callbacks) (nodes : list CodeNode) (edges : list Edge)
    (s s0 : State) (k : nat) (nodeId : string) (r : NodeExecutionResult) :
  quiet callbacks ->
  (1 <= k)%nat ->
  nth_error (settled (fst (executeFlow host nodes edges callbacks s))) k
  = Some (nodeId, r) ->
  resultAt host k = Some r
  /\ exists s1 next,
       executeNodeStepByStep host nodes (Z.of_nat k) s0
       = (s1, inl {| result := r; hasNext := next |}).
Proof.
  intros (Hstart & Hcomplete & Hlog) Hk Hnth.
  destruct (executeFlow_said host callbacks Hlog Hstart Hcomplete nodes
              edges s)
    as (r0 & s' & Hrun & _ & _ & _ & _ & _ & Hids & Hfrom).
  rewrite Hrun in Hnth. cbn [fst] in Hnth.
  pose proof (queue_tail_not_entry nodes) as Htail.
  assert (Hqueue : nth_error (createExecutionQueue nodes) k = Some nodeId).
  { rewrite <- Hids, nth_error_map, Hnth. reflexivity. }
  assert (Hne : nodeId <> ENTRY).
  { destruct (createExecutionQueue nodes) as [| first rest];
      [destruct k; discriminate Hqueue |].
    destruct k as [| k]; [lia |]. cbn in Hqueue, Htail.
    apply nth_error_In in Hqueue.
    exact (proj1 (Forall_forall _ _) Htail _ Hqueue). }
  assert (Hat : forall results i,
             settledFrom host i results ->
             forall j, nth_error results j = Some (nodeId, r) ->
                       resultAt host (i + j) = Some r).
  { induction results as [| [x rx] results IH]; intros i Hall j Hj;
      [destruct j; discriminate Hj |].
    destruct Hall as [Hhead Hrest]. destruct j as [| j].
    - injection Hj as -> ->. unfold settledAs in Hhead.
      apply String.eqb_neq in Hne. rewrite Hne in Hhead.
      now rewrite Nat.add_0_r.
    - replace (i + S j)%nat with (S i + j)%nat by lia.
      now apply IH. }
  pose proof (Hat _ 0%nat Hfrom k Hnth) as Hresult. cbn in Hresult.
  split; [exact Hresult |].
  destruct (step_account host nodes (Z.of_nat k) s0)
    as (step & s1 & Hstep & _ & [[Hle _] | [[Hneg _] | Hin]]).
  - assert (k < List.length (createExecutionQueue nodes))%nat
      by (apply nth_error_Some; congruence).
    lia.
  - lia.
  - destruct Hin as (k' & nodeId' & Heq & Hqueue' & Hr).
    apply Nat2Z.inj in Heq. subst k'.
    rewrite Hqueue in Hqueue'. injection Hqueue' as <-.
    apply String.eqb_neq in Hne. rewrite Hne in Hr.
    rewrite Hresult in Hr. injection Hr as Hr.
    exists s1, (hasNext step). rewrite Hstep.
    now destruct step; cbn in *; subst.
Qed.

(** X18: a step makes up a result of its own in two cases only: for a
    cursor at or past the end of the queue, [No more nodes to execute];
    and for a cursor below 0, where the queue has no entry, [Node not
    found].  For a cursor on a queue position the result is the one of
    the node. *)
Theorem step_sentinels (host : Host) (nodes : list CodeNode)
    (currentStep : Z) (s : State) :
  exists step s',
    executeNodeStepByStep host nodes currentStep s = (s', inl step)
    /\ (result step = noMoreNodes
        <-> (Z.of_nat (List.length (createExecutionQueue nodes))
             <= currentStep)%Z)
    /\ (result step = nodeNotFound <-> (currentStep < 0)%Z).
Proof.
  destruct (step_account host nodes currentStep s)
    as (step & s' & Hstep & _ & Hcases).
  exists step, s'. split; [exact Hstep |].
  destruct Hcases as [[Hle ->] | [(Hneg & ->) | Hin]].
  - split; [now split |]. split; [discriminate | lia].
  - split; [split; [discriminate | lia] | now split].
  - destruct Hin as (k & nodeId & -> & Hqueue & Hr).
    assert (Hlt : (k < List.length (createExecutionQueue nodes))%nat)
      by (apply nth_error_Some; congruence).
    assert (Hown : result step <> noMoreNodes /\ result step <> nodeNotFound).
    { destruct (String.eqb nodeId ENTRY).
      - rewrite Hr. split; discriminate.
      - now apply (resultAt_own host k). }
    destruct Hown as [Hmore Hfound].
    split; (split; [intros H; contradiction | lia]).
Qed.

End QueueTheorems.

(* ===================================================================== *)
(** * components/ExecutionControls.tsx: what the panel shows of a run *)
(* ===================================================================== *)

Section PanelFacts.
Import ExecutionControls.
Local Open Scope list_scope.

Lemma onFound_twice (nodeId : string)
    (f g : FlowSlice.CodeNode -> FlowSlice.CodeNode)
    (l : list FlowSlice.CodeNode) :
  (forall n, FlowSlice.id (g n) = FlowSlice.id n) ->
  FlowSlice.onFound nodeId f (FlowSlice.onFound nodeId g l)
  = FlowSlice.onFound nodeId (fun n => f (g n)) l.
Proof.
  intros Hid. induction l as [| n l IH]; [reflexivity |].
  cbn [FlowSlice.onFound].
  destruct (String.eqb (FlowSlice.id n) nodeId) eqn:Hn;
    cbn [FlowSlice.onFound].
  - now rewrite Hid, Hn.
  - now rewrite Hn, IH.
Qed.

Lemma onFound_ext (nodeId : string)
    (f g : FlowSlice.CodeNode -> FlowSlice.CodeNode)
    (l : list FlowSlice.CodeNode) :
  (forall n, f n = g n) ->
  FlowSlice.onFound nodeId f l = FlowSlice.onFound nodeId g l.
Proof.
  intros Hext. induction l as [| n l IH]; [reflexivity |].
  cbn [FlowSlice.onFound]. now rewrite Hext, IH.
Qed.

(** The start and the completion of a node, by the handlers of one
    render. *)
Lemma start_and_complete (path : list string) (nodeId : string)
    (r : QueueFlowExecutor.NodeExecutionResult) (panel : Panel) :
  handleNodeComplete path nodeId r (handleNodeStart nodeId panel)
  = {| store :=
         {| FlowSlice.nodes :=
              FlowSlice.onFound nodeId (finish r)
                (FlowSlice.nodes (store panel));
            FlowSlice.edges := FlowSlice.edges (store panel);
            FlowSlice.flowIsExecuting :=
              FlowSlice.flowIsExecuting (store panel);
            FlowSlice.executionPath := path ++ [nodeId];
            FlowSlice.currentNodeId := Some nodeId;
            FlowSlice.selectedNodeId :=
              FlowSlice.selectedNodeId (store panel);
            FlowSlice.draggingNodeId :=
              FlowSlice.draggingNodeId (store panel) |};
       logs := logs panel;
       currentStep := currentStep panel |}.
Proof.
  unfold handleNodeComplete, handleNodeStart, dispatch, setStore.
  destruct (QueueFlowExecutor.success r) eqn:Hok;
    cbn [store logs currentStep];
    unfold FlowSlice.setNodeOutput, FlowSlice.setNodeError,
      FlowSlice.setNodeExecuting, FlowSlice.setExecutionPath,
      FlowSlice.setCurrentNodeId, FlowSlice.setNodes;
    cbn [FlowSlice.nodes FlowSlice.edges FlowSlice.flowIsExecuting
           FlowSlice.executionPath FlowSlice.currentNodeId
           FlowSlice.selectedNodeId FlowSlice.draggingNodeId];
    rewrite !onFound_twice by reflexivity;
    do 2 f_equal; apply onFound_ext; intros n;
    unfold finish, FlowSlice.setData; cbn; now rewrite Hok.
Qed.

Lemma quiet_callbacks :
  quietLog callbacks /\ quietStart callbacks /\ quietComplete callbacks.
Proof.
  repeat split; intros f Hf; injection Hf as <-; reflexivity.
Qed.

(** The records handed to [onLog] go to the logs of the panel and
    nowhere else. *)
Lemma deliver_logs (path : list string) (calls : list QueueFlowExecutor.Call) :
  forall panel,
    logs (fold_left (deliver path) calls panel)
    = logs panel ++ logsOf calls
    /\ currentStep (fold_left (deliver path) calls panel)
       = currentStep panel.
Proof.
  induction calls as [| call calls IH]; intros panel; cbn [fold_left].
  - cbn. now rewrite app_nil_r.
  - destruct (IH (deliver path panel call)) as [-> ->].
    destruct call as [nodeId | nodeId r | log]; cbn [deliver].
    + now split.
    + unfold handleNodeComplete, dispatch, setStore.
      destruct (QueueFlowExecutor.success r); now split.
    + cbn. rewrite <- app_assoc. now split.
Qed.

(** The store hears of the starts and completions only. *)
Lemma deliver_store (path : list string)
    (calls : list QueueFlowExecutor.Call) :
  forall panel panel',
    store panel = store panel' ->
    store (fold_left (deliver path) calls panel)
    = store (fold_left (deliver path) (noticesOf calls) panel').
Proof.
  induction calls as [| call calls IH]; intros panel panel' Hstore;
    [exact Hstore |].
  destruct call as [nodeId | nodeId r | log];
    cbn [fold_left noticesOf filter]; apply IH.
  - unfold deliver, handleNodeStart, dispatch, setStore. cbn [store].
    now rewrite Hstore.
  - unfold deliver, handleNodeComplete, dispatch, setStore.
    destruct (QueueFlowExecutor.success r); cbn [store]; now rewrite Hstore.
  - exact Hstore.
Qed.

Lemma noticesFor_snoc
    (results : list (string * QueueFlowExecutor.NodeExecutionResult))
    (nodeId : string) (r : QueueFlowExecutor.NodeExecutionResult) :
  noticesFor callbacks (results ++ [(nodeId, r)])
  = noticesFor callbacks results
    ++ [QueueFlowExecutor.StartCall nodeId;
        QueueFlowExecutor.CompleteCall nodeId r].
Proof. unfold noticesFor. rewrite flat_map_app. reflexivity. Qed.

(** The store after the starts and completions of [results] have been
    reported by the handlers of one render. *)
Lemma deliver_results (path : list string)
    (results : list (string * QueueFlowExecutor.NodeExecutionResult))
    (panel : Panel) :
  let after :=
    store (fold_left (deliver path) (noticesFor callbacks results) panel) in
  FlowSlice.nodes after = finishAll results (FlowSlice.nodes (store panel))
  /\ FlowSlice.edges after = FlowSlice.edges (store panel)
  /\ FlowSlice.flowIsExecuting after
     = FlowSlice.flowIsExecuting (store panel)
  /\ FlowSlice.selectedNodeId after = FlowSlice.selectedNodeId (store panel)
  /\ FlowSlice.draggingNodeId after = FlowSlice.draggingNodeId (store panel)
  /\ FlowSlice.executionPath after
     = match results with
       | [] => FlowSlice.executionPath (store panel)
       | _ => path ++ [last (map fst results) EmptyString]
       end
  /\ FlowSlice.currentNodeId after
     = match results with
       | [] => FlowSlice.currentNodeId (store panel)
       | _ => Some (last (map fst results) EmptyString)
       end.
Proof.
  induction results as [| [nodeId r] results IH] using rev_ind;
    [now repeat split |].
  cbn zeta in IH |- *.
  rewrite noticesFor_snoc, fold_left_app. cbn [fold_left deliver].
  rewrite start_and_complete. cbn [store FlowSlice.nodes FlowSlice.edges
    FlowSlice.flowIsExecuting FlowSlice.selectedNodeId
    FlowSlice.draggingNodeId FlowSlice.executionPath
    FlowSlice.currentNodeId].
  destruct IH as (Hn & He & Hx & Hs & Hd & _ & _).
  rewrite Hn, He, Hx, Hs, Hd. unfold finishAll. rewrite fold_left_app.
  rewrite map_app. cbn [fold_left fst snd map]. rewrite last_last.
  destruct results; now repeat split.
Qed.

Lemma find_onFound_same (nodeId : string)
    (change : FlowSlice.CodeNode -> FlowSlice.CodeNode)
    (l : list FlowSlice.CodeNode) (n : FlowSlice.CodeNode) :
  (forall m, FlowSlice.id (change m) = FlowSlice.id m) ->
  find (fun m => String.eqb (FlowSlice.id m) nodeId) l = Some n ->
  find (fun m => String.eqb (FlowSlice.id m) nodeId)
    (FlowSlice.onFound nodeId change l) = Some (change n).
Proof.
  intros Hid. induction l as [| m l IH]; [discriminate |].
  cbn [find FlowSlice.onFound].
  destruct (String.eqb (FlowSlice.id m) nodeId) eqn:Hm; cbn [find].
  - intros H. injection H as <-. now rewrite Hid, Hm.
  - rewrite Hm. exact IH.
Qed.

Lemma find_onFound_other (x y : string)
    (change : FlowSlice.CodeNode -> FlowSlice.CodeNode)
    (l : list FlowSlice.CodeNode) :
  (forall m, FlowSlice.id (change m) = FlowSlice.id m) ->
  x <> y ->
  find (fun m => String.eqb (FlowSlice.id m) x)
    (FlowSlice.onFound y change l)
  = find (fun m => String.eqb (FlowSlice.id m) x) l.
Proof.
  intros Hid Hne. induction l as [| m l IH]; [reflexivity |].
  cbn [find FlowSlice.onFound].
  destruct (String.eqb_spec (FlowSlice.id m) y) as [Hy | Hy]; cbn [find].
  - rewrite Hid. destruct (String.eqb_spec (FlowSlice.id m) x) as [Hx | Hx];
      [congruence | reflexivity].
  - now rewrite IH.
Qed.

Lemma finishAll_other (x : string)
    (results : list (string * QueueFlowExecutor.NodeExecutionResult)) :
  forall l,
    ~ In x (map fst results) ->
    find (fun m => String.eqb (FlowSlice.id m) x) (finishAll results l)
    = find (fun m => String.eqb (FlowSlice.id m) x) l.
Proof.
  unfold finishAll.
  induction results as [| [y r] results IH]; intros l Hx; [reflexivity |].
  cbn [fold_left fst snd]. rewrite IH.
  - apply find_onFound_other; [reflexivity |].
    intros Heq. apply Hx. now left.
  - intros Hin. apply Hx. now right.
Qed.

Lemma finishAll_in (x : string) (r : QueueFlowExecutor.NodeExecutionResult)
    (results : list (string * QueueFlowExecutor.NodeExecutionResult)) :
  forall l n,
    NoDup (map fst results) ->
    In (x, r) results ->
    find (fun m => String.eqb (FlowSlice.id m) x) l = Some n ->
    find (fun m => String.eqb (FlowSlice.id m) x) (finishAll results l)
    = Some (finish r n).
Proof.
  induction results as [| [y ry] results IH]; intros l n Hnodup Hin Hfind;
    [contradiction |].
  cbn [map fst] in Hnodup. inversion Hnodup as [| ? ? Hfresh Hrest]; subst.
  change (finishAll ((y, ry) :: results) l)
    with (finishAll results (FlowSlice.onFound y (finish ry) l)).
  destruct Hin as [Heq | Hin].
  - injection Heq as -> ->. rewrite finishAll_other by exact Hfresh.
    now apply find_onFound_same.
  - apply IH; [exact Hrest | exact Hin |].
    rewrite find_onFound_other; [exact Hfind | reflexivity |].
    intros <-. apply Hfresh. now apply (in_map fst _ (x, r)).
Qed.

Lemma finishAll_Forall (P : FlowSlice.CodeNode -> Prop)
    (results : list (string * QueueFlowExecutor.NodeExecutionResult)) :
  (forall r n, P n -> P (finish r n)) ->
  forall l, Forall P l -> Forall P (finishAll results l).
Proof.
  intros Hkeeps. unfold finishAll.
  induction results as [| [y r] results IH]; intros l Hl; [exact Hl |].
  cbn [fold_left fst snd]. apply IH.
  apply onFound_Forall; [apply Hkeeps | exact Hl].
Qed.

Lemma finishAll_design
    (results : list (string * QueueFlowExecutor.NodeExecutionResult)) :
  forall l, map design (finishAll results l) = map design l.
Proof.
  unfold finishAll.
  induction results as [| [y r] results IH]; intros l; [reflexivity |].
  cbn [fold_left fst snd]. rewrite IH. now apply onFound_map.
Qed.

(** [handleExecuteFlow], step by step. *)
Lemma handleExecuteFlow_account (host : QueueFlowExecutor.Host)
    (rendered : FlowSlice.FlowState) (t : nat) (panel : Panel) :
  FlowSlice.nodes rendered <> [] ->
  exists r s,
    QueueFlowExecutor.executeFlow host (nodesRead rendered)
      (edgesRead rendered) callbacks (idle t) = (s, inl r)
    /\ QueueFlowExecutor.runSuccess r = true
    /\ map fst (QueueFlowExecutor.settled s) = queueOf rendered
    /\ settledFrom host 0 (QueueFlowExecutor.settled s)
    /\ handleExecuteFlow host rendered t panel
       = ({| store :=
               {| FlowSlice.nodes :=
                    finishAll (QueueFlowExecutor.settled s)
                      (map FlowSlice.cleared
                         (FlowSlice.nodes (store panel)));
                  FlowSlice.edges := FlowSlice.edges (store panel);
                  FlowSlice.flowIsExecuting := false;
                  FlowSlice.executionPath :=
                    match queueOf rendered with
                    | [] => []
                    | _ => FlowSlice.executionPath rendered
                           ++ [last (queueOf rendered) EmptyString]
                    end;
                  FlowSlice.currentNodeId := None;
                  FlowSlice.selectedNodeId :=
                    FlowSlice.selectedNodeId (store panel);
                  FlowSlice.draggingNodeId :=
                    FlowSlice.draggingNodeId (store panel) |};
             logs := QueueFlowExecutor.logs r;
             currentStep := 0 |},
          QueueFlowExecutor.time s).
Proof.
  intros Hnodes.
  destruct quiet_callbacks as (Hlog & Hstart & Hcomplete).
  destruct (executeFlow_said host callbacks Hlog Hstart Hcomplete
              (nodesRead rendered) (edgesRead rendered) (idle t))
    as (r & s & Hrun & Hok & _ & _ & Hheard & Hnotices & Hids & Hfrom).
  exists r, s. split; [exact Hrun |]. split; [exact Hok |].
  split; [exact Hids |]. split; [exact Hfrom |].
  unfold handleExecuteFlow.
  destruct (FlowSlice.nodes rendered) as [| n ns] eqn:Hn;
    [now elim Hnodes |].
  cbn [List.length Nat.eqb]. rewrite <- Hn. unfold nodesRead, edgesRead in Hrun.
  rewrite Hrun, Hok. cbn in Hheard, Hnotices.
  set (start := dispatch (FlowSlice.setExecuting true)
                  (setCurrentStep 0
                     (clearLogs (dispatch FlowSlice.clearExecutionState
                                   panel)))).
  set (after := fold_left (deliver (FlowSlice.executionPath rendered))
                  (QueueFlowExecutor.calls s) start).
  destruct (deliver_logs (FlowSlice.executionPath rendered)
              (QueueFlowExecutor.calls s) start) as [Hlogs Hstep].
  pose proof (deliver_store (FlowSlice.executionPath rendered)
                (QueueFlowExecutor.calls s) start start eq_refl) as Hstore.
  rewrite Hnotices in Hstore.
  destruct (deliver_results (FlowSlice.executionPath rendered)
              (QueueFlowExecutor.settled s) start)
    as (Hn' & He & Hx & Hs & Hd & Hp & Hc).
  rewrite <- Hstore in Hn', He, Hx, Hs, Hd, Hp, Hc.
  fold after in Hlogs, Hstep, Hn', He, Hx, Hs, Hd, Hp, Hc.
  unfold dispatch, setStore, FlowSlice.setExecuting,
    FlowSlice.setCurrentNodeId.
  cbn [store logs currentStep FlowSlice.nodes FlowSlice.edges
         FlowSlice.flowIsExecuting FlowSlice.executionPath
         FlowSlice.currentNodeId FlowSlice.selectedNodeId
         FlowSlice.draggingNodeId].
  rewrite Hn', He, Hs, Hd, Hp, Hlogs, Hstep, Hheard.
  unfold queueOf. rewrite <- Hids. subst start.
  destruct (QueueFlowExecutor.settled s); reflexivity.
Qed.

Lemma settledFrom_nth (host : QueueFlowExecutor.Host)
    (results : list (string * QueueFlowExecutor.NodeExecutionResult)) :
  forall i k nodeId r,
    settledFrom host i results ->
    nth_error results k = Some (nodeId, r) ->
    settledAs host (i + k) nodeId r.
Proof.
  induction results as [| [x rx] results IH]; intros i k nodeId r Hall Hk;
    [destruct k; discriminate Hk |].
  destruct Hall as [Hhead Hrest]. destruct k as [| k].
  - injection Hk as -> ->. now rewrite Nat.add_0_r.
  - replace (i + S k)%nat with (S i + k)%nat by lia. now apply IH.
Qed.

Lemma nodeOf_read (state : FlowSlice.FlowState) (nodeId : string) :
  findNode (nodesRead state) nodeId = option_map nodeView (nodeOf state nodeId).
Proof.
  unfold findNode, nodesRead, nodeOf.
  induction (FlowSlice.nodes state) as [| n l IH]; [reflexivity |].
  cbn [map find nodeView id].
  destruct (String.eqb (FlowSlice.id n) nodeId); [reflexivity | exact IH].
Qed.

Lemma nodesRead_design (state state' : FlowSlice.FlowState) :
  map design (FlowSlice.nodes state') = map design (FlowSlice.nodes state) ->
  nodesRead state' = nodesRead state.
Proof.
  unfold nodesRead. intros Hdesign.
  assert (Hview : forall l, map nodeView l
                            = map (fun d => {| id := fst (fst (fst d));
                                               data := {| label := snd (fst d);
                                                          code := snd d |} |})
                                (map design l)).
  { intros l. rewrite map_map. apply map_ext. now intros []. }
  now rewrite !Hview, Hdesign.
Qed.

Lemma shows_finish (r : QueueFlowExecutor.NodeExecutionResult)
    (node : FlowSlice.CodeNode) :
  shows r (FlowSlice.data (finish r node)).
Proof.
  unfold shows, finish. cbn.
  destruct (QueueFlowExecutor.success r); now repeat split.
Qed.

(** One click on the step button with the cursor on a queue position. *)
Lemma stepClick_in_range (host : QueueFlowExecutor.Host) (panel : Panel)
    (t j : nat) (nodeId : string) :
  currentStep panel = Z.of_nat j ->
  nth_error (queueOf (store panel)) j = Some nodeId ->
  nodeId <> EmptyString ->
  let final := fst (stepClick host (panel, t)) in
  let more :=
    (Z.of_nat j + 1 <? Z.of_nat (List.length (queueOf (store panel))))%Z in
  FlowSlice.executionPath (store final)
  = FlowSlice.executionPath (store panel) ++ [nodeId]
  /\ FlowSlice.flowIsExecuting (store final) = more
  /\ currentStep final
     = (if more
        then (if FlowSlice.flowIsExecuting (store panel)
              then Z.of_nat j else 0) + 1
        else 0)%Z
  /\ FlowSlice.currentNodeId (store final)
     = (if more then Some nodeId else None)
  /\ map design (FlowSlice.nodes (store final))
     = map design (FlowSlice.nodes (store panel))
  /\ FlowSlice.edges (store final) = FlowSlice.edges (store panel).
Proof.
  intros Hstep Hnth Hne. unfold stepClick, handleStepExecution.
  cbn [fst snd].
  destruct (FlowSlice.nodes (store panel)) as [| n ns] eqn:Hnodes.
  { unfold queueOf, nodesRead in Hnth. rewrite Hnodes in Hnth.
    destruct j; discriminate Hnth. }
  cbn [List.length Nat.eqb]. rewrite <- Hnodes. fold (nodesRead (store panel)).
  destruct (step_account host (nodesRead (store panel)) (currentStep panel)
              (idle t)) as (answer & s & Hrun & Hnext & _).
  cbn zeta in Hnext. rewrite Hrun.
  fold (queueOf (store panel)) in Hnext |- *.
  rewrite Hstep in Hnext |- *. unfold Js.at_.
  replace (Z.of_nat j <? 0)%Z with false by (symmetry; apply Z.ltb_ge; lia).
  rewrite Nat2Z.id, Hnth.
  replace (Js.truthy (Some nodeId)) with true by (now destruct nodeId).
  rewrite start_and_complete, Hnext.
  destruct (FlowSlice.flowIsExecuting (store panel)) eqn:Hexec; cbn [negb];
    destruct (Z.of_nat j + 1
              <? Z.of_nat (List.length (queueOf (store panel))))%Z;
    cbn; rewrite ?Hstep, ?Hexec;
    repeat split;
    try (apply onFound_map; reflexivity);
    try (rewrite (onFound_map design) by reflexivity;
         rewrite map_map; reflexivity).
Qed.

End PanelFacts.

Section PanelTheorems.
Import ExecutionControls.
Local Open Scope list_scope.

Variable host : QueueFlowExecutor.Host.

(** X19: [handleExecuteFlow] runs the queue of the nodes its render saw
    and always ends with the store not executing, no current node and
    the cursor on 0; the panel logs exactly the records of the run; the
    graph is as it was.  The completions are reported by the handler of
    that one render, which appends each id to the path that render saw:
    after the run the path is that path followed by the last queue id
    alone, whatever the length of the queue. *)
Theorem full_run_leaves_last_id_on_path (rendered : FlowSlice.FlowState)
    (t : nat) (panel : Panel) :
  FlowSlice.nodes rendered <> [] ->
  let final := fst (handleExecuteFlow host rendered t panel) in
  FlowSlice.flowIsExecuting (store final) = false
  /\ FlowSlice.currentNodeId (store final) = None
  /\ currentStep final = 0%Z
  /\ FlowSlice.executionPath (store final)
     = match queueOf rendered with
       | [] => []
       | _ => FlowSlice.executionPath rendered
              ++ [last (queueOf rendered) EmptyString]
       end
  /\ (exists r s,
        QueueFlowExecutor.executeFlow host (nodesRead rendered)
          (edgesRead rendered) callbacks (idle t) = (s, inl r)
        /\ logs final = QueueFlowExecutor.logs r)
  /\ map design (FlowSlice.nodes (store final))
     = map design (FlowSlice.nodes (store panel))
  /\ FlowSlice.edges (store final) = FlowSlice.edges (store panel).
Proof.
  intros Hnodes.
  destruct (handleExecuteFlow_account host rendered t panel Hnodes)
    as (r & s & Hrun & _ & _ & _ & ->).
  cbn. repeat split.
  - now exists r, s.
  - rewrite finishAll_design, map_map. reflexivity.
Qed.

(** X20: after [handleExecuteFlow] on a panel that has rendered its
    store, with a queue that names no node twice, no node is left
    executing and every node of the queue shows the result of its own
    queue position: the input node its initialization, every other node
    what the network answered to the request of its position, its output
    on success, its error message on failure. *)
Theorem full_run_shows_every_result (t : nat) (panel : Panel) :
  FlowSlice.nodes (store panel) <> [] ->
  NoDup (queueOf (store panel)) ->
  let final := fst (handleExecuteFlow host (store panel) t panel) in
  Forall (fun n => FlowSlice.isExecuting (FlowSlice.data n) = Some false)
    (FlowSlice.nodes (store final))
  /\ forall k nodeId,
       nth_error (queueOf (store panel)) k = Some nodeId ->
       exists node r,
         nodeOf (store final) nodeId = Some node
         /\ shows r (FlowSlice.data node)
         /\ settledAs host k nodeId r.
Proof.
  intros Hnodes Hnodup.
  destruct (handleExecuteFlow_account host (store panel) t panel Hnodes)
    as (r & s & Hrun & _ & Hids & Hfrom & ->).
  cbn [fst store FlowSlice.nodes]. split.
  - apply finishAll_Forall; [reflexivity |].
    apply Forall_forall. intros n Hn.
    apply in_map_iff in Hn as [m [<- _]]. reflexivity.
  - intros k nodeId Hk. rewrite <- Hids in Hk, Hnodup.
    rewrite nth_error_map in Hk.
    destruct (nth_error (QueueFlowExecutor.settled s) k) as [[x rx] |] eqn:Hnth;
      [| discriminate Hk].
    cbn in Hk. injection Hk as ->.
    assert (Hfound : exists n, nodeOf (store panel) nodeId = Some n).
    { pose proof (queue_ids_found (nodesRead (store panel)) nodeId) as Hq.
      rewrite nodeOf_read in Hq.
      destruct (nodeOf (store panel) nodeId) as [n |]; [now exists n |].
      elim Hq; [| reflexivity].
      fold (queueOf (store panel)). rewrite <- Hids.
      apply (in_map fst _ (nodeId, rx)).
      now apply (nth_error_In _ k). }
    destruct Hfound as [n Hn].
    exists (finish rx (FlowSlice.cleared n)), rx. split; [| split].
    + unfold nodeOf. cbn [FlowSlice.nodes].
      apply finishAll_in; [exact Hnodup | now apply (nth_error_In _ k) |].
      unfold nodeOf in Hn. clear - Hn.
      induction (FlowSlice.nodes (store panel)) as [| m l IH];
        [discriminate Hn |].
      cbn [map find] in *. change (FlowSlice.id (FlowSlice.cleared m))
        with (FlowSlice.id m).
      destruct (String.eqb (FlowSlice.id m) nodeId);
        [now injection Hn as -> | now apply IH].
    + apply shows_finish.
    + exact (settledFrom_nth host _ 0 k nodeId rx Hfrom Hnth).
Qed.

(** X21: stepping builds the path the whole run does not.  From a
    panel at rest whose queue has no empty id, each click on the step
    button, made after the panel has rendered the click before, runs the
    queue entry under the cursor and appends its id to the path: after
    [j] clicks the path is the first [j] ids of the queue; while entries
    remain the store is executing and the cursor stands on [j]; the click
    on the last entry ends the execution and puts the cursor back
    on 0. *)
Theorem stepping_builds_the_path (panel : Panel) (t : nat) :
  atRest panel ->
  Forall (fun x => x <> EmptyString) (queueOf (store panel)) ->
  forall j,
    (j <= List.length (queueOf (store panel)))%nat ->
    let after := fst (stepClicks host j (panel, t)) in
    FlowSlice.executionPath (store after)
    = firstn j (queueOf (store panel))
    /\ queueOf (store after) = queueOf (store panel)
    /\ ((j < List.length (queueOf (store panel)))%nat ->
        currentStep after = Z.of_nat j
        /\ ((0 < j)%nat ->
            FlowSlice.flowIsExecuting (store after) = true))
    /\ ((0 < j)%nat -> j = List.length (queueOf (store panel)) ->
        currentStep after = 0%Z
        /\ FlowSlice.flowIsExecuting (store after) = false
        /\ FlowSlice.currentNodeId (store after) = None).
Proof.
  intros (Hidle & Hpath & Hcursor) Hids.
  set (queue := queueOf (store panel)) in *.
  induction j as [| j IH]; intros Hj; cbn zeta.
  - cbn [stepClicks fst firstn]. split; [exact Hpath |].
    split; [reflexivity |]. split; [| lia].
    intros _. split; [exact Hcursor | lia].
  - cbn [stepClicks].
    destruct (stepClicks host j (panel, t)) as [pj tj] eqn:Hstate.
    cbn zeta in IH. cbn [fst] in IH.
    destruct (IH ltac:(lia)) as (Hpj & Hqueue & Hin & _).
    destruct (Hin ltac:(lia)) as [Hcj Hexec].
    destruct (nth_error queue j) as [nodeId |] eqn:Hnth;
      [| apply nth_error_None in Hnth; lia].
    assert (Hne : nodeId <> EmptyString)
      by (apply (proj1 (Forall_forall _ _) Hids), (nth_error_In _ j), Hnth).
    pose proof (stepClick_in_range host pj tj j nodeId Hcj) as Hclick.
    rewrite Hqueue in Hclick. specialize (Hclick Hnth Hne).
    cbn zeta in Hclick.
    destruct Hclick as (Hp & Hx & Hc & Hn & Hd & _).
    assert (Hstart : FlowSlice.flowIsExecuting (store pj) = true
                     \/ j = 0%nat).
    { destruct j as [| j]; [now right | left; apply Hexec; lia]. }
    split; [| split; [| split]].
    + rewrite Hp, Hpj. clear - Hnth. revert j Hnth.
      induction queue as [| x queue IHq]; intros [| j] Hnth;
        try discriminate Hnth.
      * now injection Hnth as ->.
      * cbn [firstn app]. f_equal. now apply IHq.
    + unfold queueOf. rewrite (nodesRead_design (store pj) _ Hd).
      exact Hqueue.
    + intros Hlt. rewrite Hc, Hx.
      replace (Z.of_nat j + 1 <? Z.of_nat (List.length queue))%Z with true
        by (symmetry; apply Z.ltb_lt; lia).
      split; [| reflexivity].
      destruct Hstart as [-> | ->]; [lia | ].
      destruct (FlowSlice.flowIsExecuting (store pj)); reflexivity.
    + intros _ Hlast. rewrite Hc, Hx, Hn.
      replace (Z.of_nat j + 1 <? Z.of_nat (List.length queue))%Z with false
        by (symmetry; apply Z.ltb_ge; lia).
      now repeat split.
Qed.

End PanelTheorems.

(* ===================================================================== *)
(** * components/Edge.tsx: the edge drawn as active *)
(* ===================================================================== *)

Section EdgeFacts.
Import EdgeComponent.
Local Open Scope list_scope.

Lemma includes_In (l : list string) (x : string) :
  includes l x = true <-> In x l.
Proof. unfold includes. apply existsb_eqb_In. Qed.

Lemma indexOf_bounds (l : list string) (x : string) :
  (-1 <= indexOf l x < Z.of_nat (List.length l))%Z.
Proof.
  induction l as [| y l IH]; cbn [indexOf List.length]; [lia |].
  destruct (String.eqb y x); [lia |].
  destruct (Z.ltb_spec (indexOf l x) 0); lia.
Qed.

Lemma indexOf_absent (l : list string) (x : string) :
  ~ In x l -> indexOf l x = (-1)%Z.
Proof.
  induction l as [| y l IH]; intros Hx; [reflexivity |].
  cbn [indexOf]. destruct (String.eqb_spec y x) as [Heq | Hne].
  - elim Hx. now left.
  - rewrite IH by (intros Hin; apply Hx; now right). reflexivity.
Qed.

(** [indexOf] gives the first place of an element. *)
Lemma indexOf_first (before after : list string) (x : string) :
  ~ In x before ->
  indexOf (before ++ x :: after) x = Z.of_nat (List.length before).
Proof.
  induction before as [| y before IH]; intros Hx; cbn [app indexOf].
  - now rewrite String.eqb_refl.
  - destruct (String.eqb_spec y x) as [Heq | Hne].
    + elim Hx. now left.
    + rewrite IH by (intros Hin; apply Hx; now right).
      destruct (Z.ltb_spec (Z.of_nat (List.length before)) 0);
        cbn [List.length]; lia.
Qed.

Lemma indexOf_place (l : list string) (x : string) (i : nat) :
  indexOf l x = Z.of_nat i ->
  exists before after,
    l = before ++ x :: after /\ ~ In x before /\ List.length before = i.
Proof.
  revert i. induction l as [| y l IH]; intros i; cbn [indexOf];
    [intros; lia |].
  destruct (String.eqb_spec y x) as [Heq | Hne].
  - intros Hi. exists [], l. subst y.
    repeat split; [intros [] | cbn; lia].
  - destruct (Z.ltb_spec (indexOf l x) 0) as [Hneg | Hpos];
      [intros; lia |].
    intros Hi. destruct i as [| i]; [lia |].
    destruct (IH i ltac:(lia)) as (before & after & -> & Hx & Hlen).
    exists (y :: before), after. repeat split.
    + intros [Heq | Hin]; [now elim Hne | now elim Hx].
    + cbn [List.length]. now rewrite Hlen.
Qed.

Lemma indexOf_present (l : list string) (x : string) :
  In x l -> (0 <= indexOf l x)%Z.
Proof.
  induction l as [| y l IH]; intros Hx; [contradiction |].
  cbn [indexOf]. destruct (String.eqb_spec y x) as [Heq | Hne]; [lia |].
  destruct Hx as [Heq | Hx]; [now elim Hne |].
  specialize (IH Hx). destruct (Z.ltb_spec (indexOf l x) 0); lia.
Qed.

Lemma app_same_length {A : Type} (l1 l2 r1 r2 : list A) :
  List.length l1 = List.length l2 -> l1 ++ r1 = l2 ++ r2 ->
  l1 = l2 /\ r1 = r2.
Proof.
  revert l2. induction l1 as [| x l1 IH]; intros [| y l2] Hlen Heq;
    try discriminate Hlen; [now split |].
  cbn in Heq. injection Heq as -> Heq. injection Hlen as Hlen.
  destruct (IH l2 Hlen Heq) as [-> ->]. now split.
Qed.

(** [isActive] reads the path only: it is true exactly when the first
    place of the target directly follows the first place of the source. *)
Lemma isActive_follows (executionPath : list string)
    (edge : FlowSlice.Edge) :
  isActive executionPath edge = true <-> followsOn executionPath edge.
Proof.
  unfold followsOn.
  set (a := FlowSlice.source edge). set (b := FlowSlice.target edge).
  unfold isActive, isInExecutionPath. fold a b. split.
  - intros H. apply andb_true_iff in H as [Hin Hnext].
    apply andb_true_iff in Hin as [Ha Hb].
    apply includes_In in Ha, Hb. apply Z.eqb_eq in Hnext.
    pose proof (indexOf_present executionPath a Ha) as Hpos.
    destruct (Z_of_nat_complete _ Hpos) as [i Hi].
    rewrite Hi in Hnext.
    destruct (indexOf_place executionPath a i Hi)
      as (before & rest & Heq & Hfresh & Hlen).
    destruct (indexOf_place executionPath b (S i) ltac:(lia))
      as (before' & after & Heq' & Hfresh' & Hlen').
    rewrite Heq in Heq'.
    replace (before ++ a :: rest) with ((before ++ [a]) ++ rest) in Heq'
      by (now rewrite <- app_assoc).
    apply app_same_length in Heq' as [<- ->];
      [| rewrite length_app; cbn; lia].
    exists before, after. split; [exact Heq |]. split; [exact Hfresh |].
    split.
    + intros Hin. apply Hfresh'. apply in_or_app. now left.
    + intros Hab. apply Hfresh'. apply in_or_app. right. now left.
  - intros (before & after & -> & Ha & Hb & Hab).
    apply andb_true_iff. split; [apply andb_true_iff; split |].
    + apply includes_In, in_or_app. right. now left.
    + apply includes_In, in_or_app. right. right. now left.
    + apply Z.eqb_eq. rewrite (indexOf_first before _ a Ha).
      replace (before ++ a :: b :: after)
        with ((before ++ [a]) ++ b :: after)
        by (now rewrite <- app_assoc).
      rewrite indexOf_first.
      * rewrite length_app. cbn. lia.
      * intros Hin. apply in_app_or in Hin as [Hin | [Heq | []]];
          [now apply Hb | now apply Hab].
Qed.

(** The lookup of a node by its id finds one exactly when a node has the
    id. *)
Lemma find_id_In (nodes : list FlowSlice.CodeNode) (x : string) :
  In x (map FlowSlice.id nodes)
  <-> find (fun n => String.eqb (FlowSlice.id n) x) nodes <> None.
Proof.
  split.
  - intros Hin Hnone. apply in_map_iff in Hin as [n [Hid Hn]].
    apply (find_none _ _ Hnone) in Hn. rewrite Hid, String.eqb_refl in Hn.
    discriminate Hn.
  - intros Hsome.
    destruct (find _ nodes) as [n |] eqn:Hfind; [| now elim Hsome].
    apply find_some in Hfind as [Hn Hid]. apply String.eqb_eq in Hid.
    rewrite <- Hid. now apply in_map.
Qed.

(** The edge is drawn exactly when both its ends name a node. *)
Lemma drawn_ends (nodes : list FlowSlice.CodeNode) (edge : FlowSlice.Edge) :
  bothEndsIn nodes edge <-> drawn nodes edge = true.
Proof.
  unfold bothEndsIn, drawn. rewrite !find_id_In.
  destruct (find _ nodes); destruct (find _ nodes); split;
    try reflexivity; try discriminate;
    try (intros _; split; discriminate);
    intros [Hs Ht]; try (now elim Hs); now elim Ht.
Qed.

End EdgeFacts.

Section EdgeTheorems.
Import EdgeComponent.
Local Open Scope list_scope.

(** X22: the component draws an edge as active, in blue and three
    wide, exactly when both ends of the edge name a node of the store
    and, on the execution path, the first place of its target directly
    follows the first place of its source; an edge one of whose ends
    names no node is not drawn at all, whatever the path.  So an edge
    from a node to itself is never drawn as active, and no edge is while
    the path holds fewer than two ids. *)
Theorem active_edge_follows_the_path (nodes : list FlowSlice.CodeNode)
    (executionPath : list string) (edge : FlowSlice.Edge) :
  (render nodes executionPath edge = Some activeCurve
   <-> bothEndsIn nodes edge /\ followsOn executionPath edge)
  /\ (render nodes executionPath edge = None <-> ~ bothEndsIn nodes edge)
  /\ (isActive executionPath edge = true <-> followsOn executionPath edge)
  /\ ((List.length executionPath < 2)%nat ->
      isActive executionPath edge = false
      /\ render nodes executionPath edge <> Some activeCurve).
Proof.
  pose proof (isActive_follows executionPath edge) as Hiff.
  pose proof (drawn_ends nodes edge) as Hdrawn.
  assert (Hshort : (List.length executionPath < 2)%nat ->
                   isActive executionPath edge = false).
  { intros Hlen. destruct (isActive executionPath edge) eqn:Hactive;
      [| reflexivity].
    destruct (proj1 Hiff eq_refl) as (before & after & Heq & _).
    rewrite Heq, length_app in Hlen. cbn in Hlen. lia. }
  split; [| split; [| split; [exact Hiff |]]].
  - unfold render. split.
    + destruct (drawn nodes edge); [| discriminate].
      intros Hcurve. split; [now apply Hdrawn |]. apply Hiff.
      destruct (isActive executionPath edge); [reflexivity |].
      discriminate Hcurve.
    + intros [Hends Hfollows]. apply Hdrawn in Hends. rewrite Hends.
      apply Hiff in Hfollows. rewrite Hfollows. reflexivity.
  - unfold render. split.
    + destruct (drawn nodes edge) eqn:Hd; [discriminate |].
      intros _ Hends. apply Hdrawn in Hends. congruence.
    + intros Hends. destruct (drawn nodes edge); [| reflexivity].
      elim Hends. now apply Hdrawn.
  - intros Hlen. split; [now apply Hshort |].
    unfold render. rewrite (Hshort Hlen).
    destruct (drawn nodes edge); discriminate.
Qed.

(** X26: the component draws an edge only when both its ends name a
    node, so it draws every edge of the store exactly when the graph is
    closed, as it is after every [removeNode]. *)
Theorem closed_graph_draws_every_edge (state : FlowSlice.FlowState) :
  closed state
  <-> forall e, In e (FlowSlice.edges state) ->
                drawn (FlowSlice.nodes state) e = true.
Proof.
  assert (Hfound : forall x,
             In x (map FlowSlice.id (FlowSlice.nodes state))
             <-> find (fun n => String.eqb (FlowSlice.id n) x)
                   (FlowSlice.nodes state) <> None).
  { intros x. split.
    - intros Hin Hnone. apply in_map_iff in Hin as [n [Hid Hn]].
      apply (find_none _ _ Hnone) in Hn. rewrite Hid, String.eqb_refl in Hn.
      discriminate Hn.
    - intros Hsome.
      destruct (find _ (FlowSlice.nodes state)) as [n |] eqn:Hfind;
        [| now elim Hsome].
      apply find_some in Hfind as [Hn Hid]. apply String.eqb_eq in Hid.
      rewrite <- Hid. now apply in_map. }
  unfold closed, drawn. split.
  - intros Hclosed e He. destruct (Hclosed e He) as [Hs Ht].
    apply Hfound in Hs, Ht.
    destruct (find _ (FlowSlice.nodes state)); [| now elim Hs].
    destruct (find _ (FlowSlice.nodes state)); [reflexivity | now elim Ht].
  - intros Hdrawn e He. specialize (Hdrawn e He).
    split; apply Hfound; intros Hnone; rewrite Hnone in Hdrawn;
      [discriminate Hdrawn |].
    destruct (find _ (FlowSlice.nodes state)); discriminate Hdrawn.
Qed.

End EdgeTheorems.

(* ===================================================================== *)
(** * The queue and the graph walk on the graphs of the canvas *)
(* ===================================================================== *)

Section MoreFacts.
Local Open Scope list_scope.

Lemma inOrder_finite (a b : CodeNode) (x y : Q) :
  QueueFlowExecutor.creationTime a = Finite x ->
  QueueFlowExecutor.creationTime b = Finite y ->
  (inOrder QueueFlowExecutor.byCreationTime a b <-> (x <= y)%Q).
Proof.
  intros Ha Hb. unfold inOrder, Js.after, QueueFlowExecutor.byCreationTime.
  rewrite Ha, Hb. cbn [Number.sub Number.isPositive].
  unfold Qle, Qminus, Qplus, Qopp. cbn [Qnum Qden].
  rewrite Z.ltb_ge. lia.
Qed.

(** In a graph all of whose edges start at [root], a walk that stands on
    another node ends there. *)
Lemma loop_leaf (engine : CodeExecutor.Engine) (nodes : list CodeNode)
    (edges : list Edge) (root : string) (fuel : nat)
    (visited path : list string) (c : string) (out : JSValue)
    (r : FlowExecutor.FlowExecutionResult) :
  (forall e, In e edges -> source e = root) ->
  c <> root ->
  FlowExecutor.loop engine nodes edges fuel visited path (Some c) out
  = Some (inl r) ->
  FlowExecutor.executionPath r = path
  \/ FlowExecutor.executionPath r = path ++ [c].
Proof.
  intros Hroot Hc Hrun. destruct fuel as [| fuel]; [discriminate Hrun |].
  apply loop_cases in Hrun
    as [[H _] | (c' & Heq & _ & _
                 & [[Hfind H] | (node & Hfind
                                 & [(rejected & Hexec & H)
                                   | (result & Hexec
                                      & [[Hok H] | [Hok H]])])])];
    try (injection Heq as <-);
    try (apply caught_inl in H as (text & _ & ->); now right).
  - injection H as ->. now left.
  - assert (Hnone : FlowExecutor.findNextNode c edges
                      (CodeExecutor.read (CodeExecutor.output result))
                    = None).
    { unfold FlowExecutor.findNextNode. rewrite filter_none; [reflexivity |].
      intros e He. apply String.eqb_neq. rewrite (Hroot e He).
      intros Heq. now apply Hc. }
    rewrite Hnone in H. destruct fuel as [| fuel]; [discriminate H |].
    cbn in H. injection H as <-. now right.
Qed.

End MoreFacts.

Section MoreTheorems.
Local Open Scope list_scope.

(** X23: the queue names nodes only, and each node: every id in it is
    the id of a node of the array, so the loop of [executeFlow] finds
    every node it looks up; when an input node is present every node id
    is in the queue, the queue is one longer than the number of other
    nodes, and the input id stands in it once, however many nodes have
    it. *)
Theorem queue_names_the_nodes (nodes : list CodeNode) :
  let queue := QueueFlowExecutor.createExecutionQueue nodes in
  let others :=
    filter (fun node => negb (String.eqb (id node) QueueFlowExecutor.ENTRY))
      nodes in
  (forall nodeId, In nodeId queue -> findNode nodes nodeId <> None)
  /\ (In QueueFlowExecutor.ENTRY (map id nodes) ->
      (forall n, In n nodes -> In (id n) queue)
      /\ List.length queue = S (List.length others)
      /\ count_occ string_dec queue QueueFlowExecutor.ENTRY = 1%nat).
Proof.
  intros queue others. split; [apply queue_ids_found |].
  intros Hentry.
  pose proof (queue_tail_not_entry nodes) as Htail.
  unfold queue in *. rewrite (queue_with_entry nodes Hentry) in *.
  fold others in Htail |- *. cbn [tl] in Htail.
  pose proof (sort_perm QueueFlowExecutor.byCreationTime others) as Hperm.
  split; [| split].
  - intros n Hn.
    destruct (String.eqb_spec (id n) QueueFlowExecutor.ENTRY) as [Heq | Hne].
    + left. now symmetry.
    + right. apply in_map. apply (Permutation_in _ (Permutation_sym Hperm)).
      apply filter_In. split; [exact Hn |].
      now apply negb_true_iff, String.eqb_neq.
  - cbn [List.length]. now rewrite length_map, (Permutation_length Hperm).
  - cbn [count_occ].
    destruct (string_dec QueueFlowExecutor.ENTRY QueueFlowExecutor.ENTRY)
      as [_ | Hne]; [| now elim Hne].
    f_equal. apply count_occ_not_In. intros Hin.
    exact (proj1 (Forall_forall _ _) Htail _ Hin eq_refl).
Qed.

(** X24: when the token of every node other than the input node
    parses, the queue is the input id followed by the other ids in
    ascending order of creation time: no node stands before one with a
    smaller time. *)
Theorem queue_ascends_when_tokens_parse (nodes : list CodeNode) :
  let others :=
    filter (fun node => negb (String.eqb (id node) QueueFlowExecutor.ENTRY))
      nodes in
  In QueueFlowExecutor.ENTRY (map id nodes) ->
  Forall timed others ->
  exists sorted,
    QueueFlowExecutor.createExecutionQueue nodes
    = QueueFlowExecutor.ENTRY :: map id sorted
    /\ Permutation sorted others
    /\ StronglySorted (inOrder QueueFlowExecutor.byCreationTime) sorted
    /\ (forall a b x y,
          QueueFlowExecutor.creationTime a = Finite x ->
          QueueFlowExecutor.creationTime b = Finite y ->
          (inOrder QueueFlowExecutor.byCreationTime a b <-> (x <= y)%Q)).
Proof.
  intros others Hentry Htimed.
  exists (Js.sort QueueFlowExecutor.byCreationTime others).
  split; [now apply queue_with_entry |].
  split; [apply sort_perm |].
  split; [now apply queue_sorted_when_timed | apply inOrder_finite].
Qed.

(** X25: the graph executor on a graph of the canvas never gets past
    the second node: all edges of such a graph start at the input node,
    so the walk starts there and, from the node it goes to next, finds
    no edge to follow.  The path of every result is the input node,
    followed by at most one added node. *)
Theorem walk_of_built_canvas_is_short (engine : CodeExecutor.Engine)
    (clicks : list FlowCanvas.Click) (r : FlowExecutor.FlowExecutionResult) :
  FlowExecutor.executeFlow engine (nodesRead (FlowCanvas.built clicks))
    (edgesRead (FlowCanvas.built clicks)) None = Some (inl r) ->
  FlowExecutor.executionPath r = ["input-node"%string]
  \/ exists c,
       In c clicks
       /\ FlowExecutor.executionPath r
          = ["input-node"%string; idAt (FlowCanvas.created c)].
Proof.
  intros Hrun.
  destruct (built_shape clicks) as (added & Hnodes & Hedges & Hids & _).
  set (nodes := nodesRead (FlowCanvas.built clicks)) in *.
  set (edges := edgesRead (FlowCanvas.built clicks)) in *.
  assert (Hroot : forall e, In e edges -> source e = "input-node"%string).
  { intros e He. unfold edges, edgesRead in He. rewrite Hedges in He.
    apply in_map_iff in He as [e' [<- He']].
    now apply in_map_iff in He' as [c [<- _]]. }
  assert (Htargets : forall a b, linked edges a b ->
                                 exists c, In c clicks
                                           /\ b = idAt (FlowCanvas.created c)).
  { intros a b (e & He & _ & <-). unfold edges, edgesRead in He.
    rewrite Hedges in He. apply in_map_iff in He as [e' [<- He']].
    apply in_map_iff in He' as [c [<- Hc]]. now exists c. }
  rewrite (executeFlow_loop engine nodes edges None "input-node") in Hrun;
    [| unfold FlowExecutor.startOf; cbn [Js.truthy]; apply built_start
     | discriminate].
  apply loop_cases in Hrun
    as [[_ Hstop] | (c' & Heq & _ & _
                     & [[Hfind H] | (node & Hfind
                                     & [(rejected & Hexec & H)
                                       | (result & Hexec
                                          & [[Hok H] | [Hok H]])])])];
    try (injection Heq as <-);
    try (apply caught_inl in H as (text & _ & ->); now left).
  - destruct (Hstop _ eq_refl) as [Hempty | []]. discriminate Hempty.
  - cbn [app] in H.
    destruct (FlowExecutor.findNextNode "input-node" edges
                (CodeExecutor.read (CodeExecutor.output result)))
      as [next |] eqn:Hnext.
    + apply findNextNode_linked, Htargets in Hnext as (c & Hc & ->).
      apply (loop_leaf engine nodes edges "input-node") in H;
        [| exact Hroot |].
      * destruct H as [-> | ->]; [now left | right; now exists c].
      * pose proof (idAt_not_entry (FlowCanvas.created c)) as Hne.
        now apply String.eqb_neq in Hne.
    + destruct (List.length nodes) as [| fuel]; [discriminate H |].
      cbn in H. injection H as <-. now left.
Qed.

End MoreTheorems.

(* ===================================================================== *)
(** * components/ExecutionControls.tsx: what a reset undoes *)
(* ===================================================================== *)

Section ResetFacts.
Import ExecutionControls.
Local Open Scope list_scope.

(** What a reset makes of a panel depends on nothing but what
    [clearExecutionState] makes of its store. *)
Lemma handleReset_store (p q : Panel) :
  FlowSlice.clearExecutionState (store p)
  = FlowSlice.clearExecutionState (store q) ->
  handleReset p = handleReset q.
Proof.
  intros H. unfold handleReset, setCurrentStep, clearLogs, dispatch, setStore.
  cbn [store logs currentStep]. now rewrite H.
Qed.

Lemma clear_setExecuting (value : bool) (panel : Panel) :
  FlowSlice.clearExecutionState
    (store (dispatch (FlowSlice.setExecuting value) panel))
  = FlowSlice.clearExecutionState (store panel).
Proof. exact (reset_step _ (FlowSlice.SetExecuting value) eq_refl). Qed.

Lemma clear_setCurrentNodeId (value : option string) (panel : Panel) :
  FlowSlice.clearExecutionState
    (store (dispatch (FlowSlice.setCurrentNodeId value) panel))
  = FlowSlice.clearExecutionState (store panel).
Proof. exact (reset_step _ (FlowSlice.SetCurrentNodeId value) eq_refl). Qed.

Lemma clear_clearExecutionState (panel : Panel) :
  FlowSlice.clearExecutionState
    (store (dispatch FlowSlice.clearExecutionState panel))
  = FlowSlice.clearExecutionState (store panel).
Proof. exact (reset_step _ FlowSlice.ClearExecutionState eq_refl). Qed.

Lemma clear_handleNodeStart (nodeId : string) (panel : Panel) :
  FlowSlice.clearExecutionState (store (handleNodeStart nodeId panel))
  = FlowSlice.clearExecutionState (store panel).
Proof.
  unfold handleNodeStart.
  etransitivity;
    [exact (reset_step _ (FlowSlice.SetNodeExecuting nodeId true) eq_refl) |].
  apply clear_setCurrentNodeId.
Qed.

Lemma clear_handleNodeComplete (path : list string) (nodeId : string)
    (r : QueueFlowExecutor.NodeExecutionResult) (panel : Panel) :
  FlowSlice.clearExecutionState
    (store (handleNodeComplete path nodeId r panel))
  = FlowSlice.clearExecutionState (store panel).
Proof.
  unfold handleNodeComplete.
  etransitivity;
    [exact (reset_step _ (FlowSlice.SetExecutionPath (path ++ [nodeId]))
              eq_refl) |].
  destruct (QueueFlowExecutor.success r).
  - etransitivity;
      [exact (reset_step _
                (FlowSlice.SetNodeOutput nodeId
                   (CodeExecutor.read (QueueFlowExecutor.output r)))
                eq_refl) |].
    exact (reset_step _ (FlowSlice.SetNodeExecuting nodeId false) eq_refl).
  - etransitivity;
      [exact (reset_step _
                (FlowSlice.SetNodeError nodeId
                   (Js.orElse (QueueFlowExecutor.error r) "Execution failed"))
                eq_refl) |].
    exact (reset_step _ (FlowSlice.SetNodeExecuting nodeId false) eq_refl).
Qed.

(** No call of a callback leaves a trace that a reset keeps. *)
Lemma clear_deliver (path : list string)
    (calls : list QueueFlowExecutor.Call) :
  forall panel,
    FlowSlice.clearExecutionState (store (fold_left (deliver path) calls panel))
    = FlowSlice.clearExecutionState (store panel).
Proof.
  induction calls as [| call calls IH]; intros panel; [reflexivity |].
  cbn [fold_left]. rewrite IH.
  destruct call as [nodeId | nodeId r | log]; cbn [deliver].
  - apply clear_handleNodeStart.
  - apply clear_handleNodeComplete.
  - reflexivity.
Qed.

(** The preparation both handlers share. *)
Lemma clear_prepared (panel : Panel) :
  FlowSlice.clearExecutionState
    (store (dispatch (FlowSlice.setExecuting true)
              (setCurrentStep 0
                 (clearLogs (dispatch FlowSlice.clearExecutionState panel)))))
  = FlowSlice.clearExecutionState (store panel).
Proof.
  rewrite clear_setExecuting. exact (clear_clearExecutionState panel).
Qed.

End ResetFacts.

Section ResetTheorems.
Import ExecutionControls.
Local Open Scope list_scope.

Variable host : QueueFlowExecutor.Host.

(** X27: a reset undoes every run.  Whatever the network answers and
    whichever store the handler had rendered, a click on Reset after
    [handleExecuteFlow] or after [handleStepExecution] gives the very
    panel a click on Reset would have given before them; a second reset
    changes nothing.  A reset panel is at rest and has no logs, and the
    graph is as it was. *)
Theorem reset_undoes_every_run (rendered : FlowSlice.FlowState) (step : Z)
    (t : nat) (panel : Panel) :
  handleReset (fst (handleExecuteFlow host rendered t panel))
  = handleReset panel
  /\ handleReset (fst (handleStepExecution host rendered step t panel))
     = handleReset panel
  /\ handleReset (handleReset panel) = handleReset panel
  /\ atRest (handleReset panel)
  /\ logs (handleReset panel) = []
  /\ map design (FlowSlice.nodes (store (handleReset panel)))
     = map design (FlowSlice.nodes (store panel))
  /\ FlowSlice.edges (store (handleReset panel))
     = FlowSlice.edges (store panel).
Proof.
  split; [| split; [| split; [| split; [| split; [| split]]]]].
  - apply handleReset_store. unfold handleExecuteFlow.
    destruct (List.length (FlowSlice.nodes rendered) =? 0)%nat;
      [reflexivity |].
    destruct (QueueFlowExecutor.executeFlow host _ _ callbacks (idle t))
      as [s [r | e]].
    + cbn [fst]. rewrite clear_setExecuting.
      destruct (QueueFlowExecutor.runSuccess r);
        rewrite ?clear_setCurrentNodeId, clear_deliver;
        exact (clear_prepared panel).
    + destruct (errorMessageOf e) as [text | raised]; cbn [fst];
        rewrite clear_setExecuting;
        [change (store (addLog ?l ?p)) with (store p) |];
        rewrite clear_deliver; exact (clear_prepared panel).
  - apply handleReset_store. unfold handleStepExecution.
    destruct (List.length (FlowSlice.nodes rendered) =? 0)%nat;
      [reflexivity |].
    set (prepared := if negb (FlowSlice.flowIsExecuting rendered)
                     then _ else panel).
    assert (Hprepared : FlowSlice.clearExecutionState (store prepared)
                        = FlowSlice.clearExecutionState (store panel)).
    { unfold prepared. destruct (negb (FlowSlice.flowIsExecuting rendered));
        [exact (clear_prepared panel) | reflexivity]. }
    clearbody prepared.
    destruct (QueueFlowExecutor.executeNodeStepByStep host _ step (idle t))
      as [s [answer | e]].
    + set (reported := match Js.at_ _ step with
                       | Some nodeId => _
                       | None => prepared
                       end).
      assert (Hreported : FlowSlice.clearExecutionState (store reported)
                          = FlowSlice.clearExecutionState (store panel)).
      { unfold reported.
        destruct (Js.at_ _ step) as [nodeId |]; [| exact Hprepared].
        destruct (Js.truthy (Some nodeId)); [| exact Hprepared].
        rewrite clear_handleNodeComplete, clear_handleNodeStart.
        exact Hprepared. }
      clearbody reported. cbn [fst].
      destruct (QueueFlowExecutor.hasNext answer).
      * exact Hreported.
      * change (store (setCurrentStep 0 ?p)) with (store p).
        rewrite clear_setCurrentNodeId, clear_setExecuting.
        exact Hreported.
    + destruct (errorMessageOf e) as [text | raised]; cbn [fst];
        [| exact Hprepared].
      rewrite clear_setExecuting. exact Hprepared.
  - apply handleReset_store. exact (clear_clearExecutionState panel).
  - repeat split.
  - reflexivity.
  - cbn. rewrite map_map. reflexivity.
  - reflexivity.
Qed.

End ResetTheorems.

(* ===================================================================== *)
(** * components/ExecutionControls.tsx: two steps of one render *)
(* ===================================================================== *)

Section TwiceFacts.
Import ExecutionControls.
Local Open Scope list_scope.

Variable host : QueueFlowExecutor.Host.

(** What the step handler of a render that saw an executing store and
    the cursor on a queue position does to a panel: it reports the start
    and the completion of the entry, and moves the cursor of the panel
    on by one when entries remain. *)
Lemma handleStepExecution_in_range (rendered : FlowSlice.FlowState)
    (step : Z) (t j : nat) (nodeId : string) (panel : Panel) :
  FlowSlice.flowIsExecuting rendered = true ->
  step = Z.of_nat j ->
  nth_error (queueOf rendered) j = Some nodeId ->
  nodeId <> EmptyString ->
  exists r t',
    handleStepExecution host rendered step t panel
    = (let reported :=
         handleNodeComplete (FlowSlice.executionPath rendered) nodeId r
           (handleNodeStart nodeId panel) in
       if (Z.of_nat j + 1 <? Z.of_nat (List.length (queueOf rendered)))%Z
       then setCurrentStep (currentStep reported + 1) reported
       else setCurrentStep 0
              (dispatch (FlowSlice.setCurrentNodeId None)
                 (dispatch (FlowSlice.setExecuting false) reported)),
       t').
Proof.
  intros Hexec Hstep Hnth Hne. unfold handleStepExecution.
  destruct (FlowSlice.nodes rendered) as [| n ns] eqn:Hnodes.
  { unfold queueOf, nodesRead in Hnth. rewrite Hnodes in Hnth.
    destruct j; discriminate Hnth. }
  cbn [List.length Nat.eqb]. rewrite <- Hnodes. fold (nodesRead rendered).
  rewrite Hexec. cbn [negb].
  destruct (step_account host (nodesRead rendered) step (idle t))
    as (answer & s & Hrun & Hnext & _).
  cbn zeta in Hnext. rewrite Hrun.
  fold (queueOf rendered) in Hnext |- *.
  rewrite Hstep in Hnext |- *. unfold Js.at_.
  replace (Z.of_nat j <? 0)%Z with false by (symmetry; apply Z.ltb_ge; lia).
  rewrite Nat2Z.id, Hnth.
  replace (Js.truthy (Some nodeId)) with true by (now destruct nodeId).
  rewrite Hnext.
  exists (QueueFlowExecutor.result answer), (QueueFlowExecutor.time s).
  reflexivity.
Qed.

End TwiceFacts.

Section TwiceTheorems.
Import ExecutionControls.
Local Open Scope list_scope.

Variable host : QueueFlowExecutor.Host.

(** X28: the step handler reads the cursor its render saw, and moves
    the cursor of the panel on by one.  So when the handler of one render
    runs twice, a second click made before the panel has rendered the
    first, on an executing panel with the cursor on queue position [j]
    and at least one entry after it, entry [j] is run twice and appended
    to the path once, and the cursor stands on [j + 2]: entry [j + 1] is
    passed over.  The queue is as it was. *)
Theorem second_step_of_one_render_skips_an_entry (panel : Panel) (t j : nat)
    (nodeId : string) :
  FlowSlice.flowIsExecuting (store panel) = true ->
  currentStep panel = Z.of_nat j ->
  nth_error (queueOf (store panel)) j = Some nodeId ->
  nodeId <> EmptyString ->
  (j + 1 < List.length (queueOf (store panel)))%nat ->
  let once :=
    handleStepExecution host (store panel) (currentStep panel) t panel in
  let twice :=
    handleStepExecution host (store panel) (currentStep panel) (snd once)
      (fst once) in
  currentStep (fst once) = (Z.of_nat j + 1)%Z
  /\ currentStep (fst twice) = (Z.of_nat j + 2)%Z
  /\ FlowSlice.executionPath (store (fst twice))
     = FlowSlice.executionPath (store panel) ++ [nodeId]
  /\ FlowSlice.flowIsExecuting (store (fst twice)) = true
  /\ queueOf (store (fst twice)) = queueOf (store panel).
Proof.
  intros Hexec Hstep Hnth Hne Hmore once twice.
  assert (Hnext : (Z.of_nat j + 1
                   <? Z.of_nat (List.length (queueOf (store panel))))%Z
                  = true) by (apply Z.ltb_lt; lia).
  destruct (handleStepExecution_in_range host (store panel)
              (currentStep panel) t j nodeId panel Hexec Hstep Hnth Hne)
    as (r1 & t1 & Honce).
  fold once in Honce. rewrite Hnext in Honce. cbn zeta in Honce.
  destruct (handleStepExecution_in_range host (store panel)
              (currentStep panel) (snd once) j nodeId (fst once) Hexec Hstep
              Hnth Hne)
    as (r2 & t2 & Htwice).
  fold twice in Htwice. rewrite Hnext in Htwice. cbn zeta in Htwice.
  rewrite Htwice, Honce. cbn [fst snd].
  rewrite !start_and_complete. cbn [currentStep store setCurrentStep].
  cbn [FlowSlice.executionPath FlowSlice.flowIsExecuting FlowSlice.nodes].
  rewrite Hstep.
  split; [reflexivity |]. split; [lia |]. split; [reflexivity |].
  split; [exact Hexec |].
  unfold queueOf. apply f_equal. apply nodesRead_design.
  cbn [FlowSlice.nodes].
  rewrite !(onFound_map design) by reflexivity. reflexivity.
Qed.

End TwiceTheorems.

(* ===================================================================== *)
(** * The properties of the store and the components on the sample scenes *)
(* ===================================================================== *)

Section SceneInstances.
Local Open Scope list_scope.

Lemma actions_keep_graph_closed_witness :
  closed (FlowSlice.reducer Scenes.canvas (FlowSlice.RemoveNode "node-1000")).
Proof.
  apply (proj1 (actions_keep_graph_closed Scenes.canvas)
           (FlowSlice.RemoveNode "node-1000")).
  - intros e He. cbn in He. destruct He as [<- | [<- | []]]; cbn; auto.
  - exact I.
Defined.

Lemma output_and_error_exclude_each_other_witness :
  Forall coherent
    (FlowSlice.nodes
       (FlowSlice.dispatchAll
          [FlowSlice.SetNodeOutput "node-1000" (JString "ok");
           FlowSlice.SetNodeError "node-1000" "boom"] Scenes.canvas)).
Proof.
  apply (output_and_error_exclude_each_other
           [FlowSlice.SetNodeOutput "node-1000" (JString "ok");
            FlowSlice.SetNodeError "node-1000" "boom"] Scenes.canvas).
  - cbn. repeat apply Forall_cons; try apply Forall_nil;
      split; intros; cbn in *; congruence.
  - repeat apply Forall_cons; try apply Forall_nil; exact I.
Defined.

Lemma reset_forgets_progress_witness :
  FlowSlice.clearExecutionState
    (FlowSlice.dispatchAll
       [FlowSlice.SetExecuting true;
        FlowSlice.SetNodeExecuting "input-node" true;
        FlowSlice.SetNodeError "input-node" "boom";
        FlowSlice.SetExecutionPath ["input-node"]] Scenes.canvas)
  = FlowSlice.clearExecutionState Scenes.canvas.
Proof.
  apply (reset_forgets_progress
           [FlowSlice.SetExecuting true;
            FlowSlice.SetNodeExecuting "input-node" true;
            FlowSlice.SetNodeError "input-node" "boom";
            FlowSlice.SetExecutionPath ["input-node"]] Scenes.canvas).
  reflexivity.
Defined.

Lemma progress_keeps_design_witness :
  FlowSlice.edges
    (FlowSlice.dispatchAll
       [FlowSlice.SetNodeOutput "node-2000" (JString "ok");
        FlowSlice.ClearExecutionState] Scenes.canvas)
  = FlowSlice.edges Scenes.canvas.
Proof.
  apply (progress_keeps_design
           [FlowSlice.SetNodeOutput "node-2000" (JString "ok");
            FlowSlice.ClearExecutionState] Scenes.canvas).
  reflexivity.
Defined.

Lemma remove_undoes_add_witness :
  FlowSlice.removeNode "input-node"
    (FlowSlice.addNode FlowCanvas.inputNode FlowSlice.initialState)
  = FlowSlice.initialState.
Proof.
  apply (proj2 (remove_undoes_add FlowSlice.initialState)
           FlowCanvas.inputNode).
  - intros [].
  - intros e [].
Defined.

Lemma flow_starts_at_first_node_without_incoming_witness :
  FlowExecutor.executeFlow Samples.engine Scenes.pair Scenes.cycle None
  = Some (inl noStart).
Proof.
  apply (proj1 (flow_starts_at_first_node_without_incoming Samples.engine
                  Scenes.pair Scenes.cycle)).
  intros n [<- | [<- | []]]; cbn; auto.
Defined.

Lemma path_follows_edges_witness :
  walk Scenes.link (FlowExecutor.executionPath Scenes.walked)
  /\ (forall c, Some "a"%string = Some c -> c <> EmptyString ->
                exists more,
                  FlowExecutor.executionPath Scenes.walked = c :: more).
Proof.
  apply (path_follows_edges Samples.engine Scenes.pair Scenes.link
           (Some "a"%string) Scenes.walked).
  vm_compute. reflexivity.
Defined.

Lemma failed_flow_blames_last_node_witness :
  Scenes.stuck = noStart
  \/ blamed Samples.engine Scenes.chain Scenes.stuck.
Proof.
  apply (failed_flow_blames_last_node Samples.engine Scenes.chain
           Scenes.links None Scenes.stuck).
  - vm_compute. reflexivity.
  - reflexivity.
Defined.

Lemma successful_flow_relays_outputs_witness :
  FlowExecutor.finalOutput Scenes.walked
  = Some (relay Samples.engine Scenes.pair 0 JNull
            (FlowExecutor.executionPath Scenes.walked))
  /\ Forall (fun c => In c (map id Scenes.pair))
       (FlowExecutor.executionPath Scenes.walked)
  /\ (List.length (FlowExecutor.executionPath Scenes.walked)
      <= List.length Scenes.pair)%nat
  /\ FlowExecutor.error Scenes.walked = None.
Proof.
  apply (successful_flow_relays_outputs Samples.engine Scenes.pair
           Scenes.link None Scenes.walked).
  - vm_compute. reflexivity.
  - reflexivity.
Defined.

Lemma queue_follows_the_clicks_witness :
  QueueFlowExecutor.createExecutionQueue (nodesRead Scenes.canvas)
  = "input-node"%string
    :: map (fun c => idAt (FlowCanvas.created c))
         [Scenes.first; Scenes.second].
Proof.
  apply (proj2 (queue_follows_the_clicks [Scenes.first; Scenes.second])).
  split; cbn; repeat constructor; unfold timeValue; lia.
Defined.

Lemma label_names_endpoint_called_witness :
  exists node endpoint,
    nth_error (QueueFlowExecutor.createExecutionQueue
                 (nodesRead Scenes.canvas)) 2
    = Some (id node)
    /\ findNode (nodesRead Scenes.canvas) (id node) = Some node
    /\ id node = idAt (FlowCanvas.created Scenes.second)
    /\ Js.at_ QueueFlowExecutor.API_ENDPOINTS
         (Z.rem (Z.of_nat 2 - 1)
            (Z.of_nat (List.length QueueFlowExecutor.API_ENDPOINTS)))
       = Some endpoint
    /\ (label (data node) = QueueFlowExecutor.name endpoint
        <-> 1%nat = 0%nat \/ (1 mod 12 = 1)%nat \/ (1 mod 12 = 2)%nat
            \/ (1 mod 12 = 3)%nat).
Proof.
  apply (label_names_endpoint_called [Scenes.first; Scenes.second] 1
           Scenes.second).
  - split; cbn; repeat constructor; unfold timeValue; lia.
  - reflexivity.
Defined.

Lemma callbacks_are_told_the_run_witness :
  exists r s',
    QueueFlowExecutor.executeFlow Samples.host Samples.scenario []
      ExecutionControls.callbacks Samples.start = (s', inl r)
    /\ logsOf (QueueFlowExecutor.calls s')
       = logsOf (QueueFlowExecutor.calls Samples.start)
         ++ (if given (QueueFlowExecutor.onLog ExecutionControls.callbacks)
             then QueueFlowExecutor.logs r else [])
    /\ noticesOf (QueueFlowExecutor.calls s')
       = noticesOf (QueueFlowExecutor.calls Samples.start)
         ++ noticesFor ExecutionControls.callbacks
              (QueueFlowExecutor.settled s')
    /\ map fst (QueueFlowExecutor.settled s')
       = QueueFlowExecutor.createExecutionQueue Samples.scenario.
Proof.
  apply (callbacks_are_told_the_run Samples.host ExecutionControls.callbacks
           Samples.scenario [] Samples.start).
  repeat split; intros f Hf; injection Hf as <-; reflexivity.
Defined.

Lemma step_returns_what_the_run_settles_witness :
  resultAt Samples.host 1 = Some Scenes.unreachable
  /\ exists s1 next,
       QueueFlowExecutor.executeNodeStepByStep Samples.host Samples.scenario
         (Z.of_nat 1) Samples.start
       = (s1, inl {| QueueFlowExecutor.result := Scenes.unreachable;
                     QueueFlowExecutor.hasNext := next |}).
Proof.
  apply (step_returns_what_the_run_settles Samples.host Samples.silent
           Samples.scenario [] Samples.start Samples.start 1 "node-1000"
           Scenes.unreachable).
  - repeat split; intros f Hf; discriminate Hf.
  - lia.
  - vm_compute. reflexivity.
Defined.

Lemma full_run_leaves_last_id_on_path_witness :
  FlowSlice.nodes Scenes.canvas <> []
  /\ FlowSlice.executionPath
       (ExecutionControls.store
          (fst (ExecutionControls.handleExecuteFlow Samples.host
                  Scenes.canvas 0 Scenes.panel)))
     = ["node-2000"%string].
Proof.
  assert (H : FlowSlice.nodes Scenes.canvas <> [])
    by (intros H; discriminate H).
  split; [exact H |].
  exact (proj1 (proj2 (proj2 (proj2
           (full_run_leaves_last_id_on_path Samples.host Scenes.canvas 0
              Scenes.panel H))))).
Defined.

Lemma full_run_shows_every_result_witness :
  NoDup (queueOf Scenes.canvas)
  /\ Forall (fun n => FlowSlice.isExecuting (FlowSlice.data n) = Some false)
       (FlowSlice.nodes
          (ExecutionControls.store
             (fst (ExecutionControls.handleExecuteFlow Samples.host
                     Scenes.canvas 0 Scenes.panel)))).
Proof.
  assert (H : NoDup (queueOf Scenes.canvas)).
  { vm_compute. repeat constructor; intros H; cbn in H;
      intuition discriminate. }
  split; [exact H |].
  apply (full_run_shows_every_result Samples.host 0 Scenes.panel).
  - intros Hnil. discriminate Hnil.
  - exact H.
Defined.

Lemma stepping_builds_the_path_witness :
  FlowSlice.executionPath
    (ExecutionControls.store
       (fst (stepClicks Samples.host 2 (Scenes.panel, 0%nat))))
  = ["input-node"%string; "node-1000"%string].
Proof.
  apply (stepping_builds_the_path Samples.host Scenes.panel 0).
  - repeat split.
  - vm_compute. repeat constructor; intros H; discriminate H.
  - vm_compute. lia.
Defined.

Lemma active_edge_follows_the_path_witness :
  EdgeComponent.render (FlowSlice.nodes Scenes.canvas)
    ["input-node"%string; "node-1000"%string] (edgeAdded Scenes.first)
  = Some activeCurve.
Proof.
  apply (proj2 (proj1 (active_edge_follows_the_path
                         (FlowSlice.nodes Scenes.canvas)
                         ["input-node"%string; "node-1000"%string]
                         (edgeAdded Scenes.first)))).
  split.
  - split; cbn; auto.
  - exists [], []. repeat split;
      [intros [] | intros [] | intros H; discriminate H].
Defined.

Lemma closed_graph_draws_every_edge_witness :
  closed (FlowSlice.removeEdge "edge-1001" Scenes.canvas).
Proof.
  apply (proj2 (closed_graph_draws_every_edge
                  (FlowSlice.removeEdge "edge-1001" Scenes.canvas))).
  intros e He. cbn in He. destruct He as [<- | []]. reflexivity.
Defined.

Lemma queue_names_the_nodes_witness :
  (forall n, In n Samples.scenario ->
             In (id n) (QueueFlowExecutor.createExecutionQueue
                          Samples.scenario))
  /\ List.length (QueueFlowExecutor.createExecutionQueue Samples.scenario)
     = 3%nat
  /\ count_occ string_dec
       (QueueFlowExecutor.createExecutionQueue Samples.scenario)
       QueueFlowExecutor.ENTRY = 1%nat.
Proof.
  apply (proj2 (queue_names_the_nodes Samples.scenario)).
  cbn. auto.
Defined.

Lemma queue_ascends_when_tokens_parse_witness :
  exists sorted,
    QueueFlowExecutor.createExecutionQueue Samples.scenario
    = QueueFlowExecutor.ENTRY :: map id sorted
    /\ StronglySorted (inOrder QueueFlowExecutor.byCreationTime) sorted.
Proof.
  destruct (queue_ascends_when_tokens_parse Samples.scenario)
    as (sorted & Hqueue & _ & Hsorted & _).
  - cbn. auto.
  - cbn. repeat constructor; intros H; vm_compute in H; discriminate H.
  - exists sorted. split; assumption.
Defined.

Lemma walk_of_built_canvas_is_short_witness :
  FlowExecutor.executionPath Scenes.halted = ["input-node"%string]
  \/ exists c,
       In c [Scenes.first; Scenes.second]
       /\ FlowExecutor.executionPath Scenes.halted
          = ["input-node"%string; idAt (FlowCanvas.created c)].
Proof.
  apply (walk_of_built_canvas_is_short Scenes.engine
           [Scenes.first; Scenes.second] Scenes.halted).
  vm_compute. reflexivity.
Defined.

Lemma second_step_of_one_render_skips_an_entry_witness :
  let panel := fst (stepClicks Samples.host 1 (Scenes.panel, 0%nat)) in
  let once :=
    ExecutionControls.handleStepExecution Samples.host
      (ExecutionControls.store panel) (ExecutionControls.currentStep panel) 1
      panel in
  ExecutionControls.currentStep panel = 1%Z
  /\ List.length (queueOf (ExecutionControls.store panel)) = 3%nat
  /\ ExecutionControls.currentStep
       (fst (ExecutionControls.handleStepExecution Samples.host
               (ExecutionControls.store panel)
               (ExecutionControls.currentStep panel) (snd once) (fst once)))
     = 3%Z.
Proof.
  intros panel once.
  split; [reflexivity |]. split; [vm_compute; reflexivity |].
  refine (proj1 (proj2 (second_step_of_one_render_skips_an_entry
                          Samples.host panel 1 1 "node-1000" _ _ _ _ _))).
  - reflexivity.
  - reflexivity.
  - vm_compute. reflexivity.
  - intros H. discriminate H.
  - vm_compute. lia.
Defined.

End SceneInstances.
